(** * AetheroWeb-v1: thread store, chat gateway, memory log, reflection summarizer

    A shallow embedding of the TypeScript sources

      - [src/lib/threadManager.ts] (kept in [aetheroweb-v1/src/lib/data.ts]):
        the thread store over [localStorage];
      - the route [/api/chat-with-premier]: the chat gateway, [POST];
      - [aetheroweb-v1/src/app/api/memory-log/route.ts]: the memory log
        sink, [POST];
      - [aetheroweb-v1/src/app/api/audit/[threadId]/route.ts]: the audit
        stub, [GET];
      - [src/lib/aslParser.ts]: [runIntrospectiveAnalysis];
      - [src/lib/memoryLog.ts]: [logMemory];
      - [aetheroweb-v1/src/components/AgentChat.tsx] and
        [src/components/AgentInput.tsx]: the handlers of the chat page;

    together with a model of the platform they call: JS strings and
    numbers, [JSON.stringify] and [JSON.parse], the browser's
    [localStorage] and console, the OpenAI client, the server's clock
    and file system.

    Conventions of the model.
      - A JS string is the list of its UTF-16 code units, numbers below
        65536.
      - A JS number is a binary64 value, kept as the fraction [m / 2^k]
        it is equal to, or a signed zero or infinity.  [NaN] is not a
        JSON value and is left out.  Time values, the results of
        [Date.now()], are integers of at most 8.64e15 in absolute value.
      - A JS object is the list of its own properties in the order
        [JSON.stringify] visits them: array indices in ascending order,
        then the other keys in the order of their creation; a property
        that is [undefined] is absent.
      - [localStorage] refuses a write that exceeds its quota.  The file
        system of the server refuses a write into a directory that does
        not exist; permissions and disk space are not modelled.
      - Exceptions and state are explicit: a computation maps a state to
        an outcome, [Return v] or [Throw e], and a new state.  For an
        [async] function [Throw e] is the rejection of its promise. *)

From Stdlib Require Import ZArith NArith QArith_base List String Ascii Bool Lia.
From Stdlib Require Import DecimalFacts DecimalPos DecimalN Eqdep_dec.
From stdpp Require Import base option gmap.

Local Open Scope list_scope.

(** ** JS strings *)

Module JsString.

(** A string is the list of its code units. *)
Abbreviation jsstring := (list N).

(** The JS string of an ASCII literal. *)
Definition js (s : string) : jsstring :=
  map N_of_ascii (list_ascii_of_string s).

(** [a === b] on strings *)
Fixpoint eqb (a b : jsstring) : bool :=
  match a, b with
  | [], [] => true
  | x :: a', y :: b' => (x =? y)%N && eqb a' b'
  | _, _ => false
  end.

(** [s.startsWith(p)] *)
Fixpoint startsWith (s p : jsstring) {struct p} : bool :=
  match p, s with
  | [], _ => true
  | a :: p', b :: s' => if (a =? b)%N then startsWith s' p' else false
  | _ :: _, [] => false
  end.

(** [s.slice(0, n)] for [n >= 0]: the first [n] code units of [s]. *)
Fixpoint slice0 (n : nat) (s : jsstring) : jsstring :=
  match n, s with
  | S n', c :: s' => c :: slice0 n' s'
  | _, _ => []
  end.

(** [s.slice(n)] for [n >= 0]: [s] without its first [n] code units. *)
Fixpoint slice_from (n : nat) (s : jsstring) : jsstring :=
  match n, s with
  | S n', _ :: s' => slice_from n' s'
  | _, _ => s
  end.

(** [s.replace(p, '')] with a string pattern: the first occurrence of
    [p] in [s] is removed; [s] is returned as it is when [p] does not
    occur. *)
Fixpoint replace_first_empty (p s : jsstring) : jsstring :=
  if startsWith s p then slice_from (length p) s
  else match s with
       | [] => []
       | c :: s' => c :: replace_first_empty p s'
       end.

(** [parts.join(sep)] *)
Fixpoint join (sep : jsstring) (parts : list jsstring) : jsstring :=
  match parts with
  | [] => []
  | [p] => p
  | p :: ps => p ++ sep ++ join sep ps
  end.

(** Whether the code unit [c] occurs in [s]. *)
Fixpoint has_char (c : N) (s : jsstring) : bool :=
  match s with
  | [] => false
  | x :: s' => (x =? c)%N || has_char c s'
  end.

(** A JS value used as a condition: a string is truthy unless empty. *)
Definition truthy (s : jsstring) : bool :=
  match s with [] => false | _ => true end.

(** [s.split(sep)[0]] for a one-character separator. *)
Fixpoint split_head (sep : N) (s : jsstring) : jsstring :=
  match s with
  | [] => []
  | c :: r => if (c =? sep)%N then [] else c :: split_head sep r
  end.

(** The white space [trim] removes: [WhiteSpace] and [LineTerminator]. *)
Definition is_space (n : N) : bool :=
  ((n =? 9) || (n =? 10) || (n =? 11) || (n =? 12) || (n =? 13)
   || (n =? 32) || (n =? 160) || (n =? 5760)
   || ((8192 <=? n) && (n <=? 8202))
   || (n =? 8232) || (n =? 8233) || (n =? 8239) || (n =? 8287)
   || (n =? 12288) || (n =? 65279))%N.

Fixpoint trimStart (s : jsstring) : jsstring :=
  match s with
  | c :: r => if is_space c then trimStart r else s
  | [] => []
  end.

Fixpoint trimEnd (s : jsstring) : jsstring :=
  match s with
  | c :: r =>
      match trimEnd r with
      | [] => if is_space c then [] else [c]
      | r' => c :: r'
      end
  | [] => []
  end.

(** [s.trim()] *)
Definition trim (s : jsstring) : jsstring := trimEnd (trimStart s).

End JsString.

(** ** JS numbers *)

Module JsNumber.
Import JsString.
Local Open Scope Z_scope.

(** A number is a binary64 value: [Dyadic m k] is [m / 2^k], with [k]
    as small as can be ([k = 0], or [m] odd); [Dyadic z 0] is the
    integer [z]. *)
Inductive number : Type :=
| Dyadic (m : Z) (k : N)
| NegZero
| PosInfinity
| NegInfinity.

Definition of_Z (z : Z) : number := Dyadic z 0.

Definition number_eqb (x y : number) : bool :=
  match x, y with
  | Dyadic m k, Dyadic m' k' => (m =? m') && (k =? k')%N
  | NegZero, NegZero => true
  | PosInfinity, PosInfinity => true
  | NegInfinity, NegInfinity => true
  | _, _ => false
  end.

(** [Number.isSafeInteger]: the integers below [2^53] in absolute
    value, which a number holds exactly. *)
Definition safe (z : Z) : bool := Z.abs z <=? 2 ^ 53 - 1.

(** *** Decimal digits *)

Fixpoint units_of_uint (d : Decimal.uint) : jsstring :=
  match d with
  | Decimal.Nil => []
  | Decimal.D0 r => 48%N :: units_of_uint r
  | Decimal.D1 r => 49%N :: units_of_uint r
  | Decimal.D2 r => 50%N :: units_of_uint r
  | Decimal.D3 r => 51%N :: units_of_uint r
  | Decimal.D4 r => 52%N :: units_of_uint r
  | Decimal.D5 r => 53%N :: units_of_uint r
  | Decimal.D6 r => 54%N :: units_of_uint r
  | Decimal.D7 r => 55%N :: units_of_uint r
  | Decimal.D8 r => 56%N :: units_of_uint r
  | Decimal.D9 r => 57%N :: units_of_uint r
  end.

(** The decimal digits of a natural number, ["0"] for zero. *)
Definition decimal (n : N) : jsstring := units_of_uint (N.to_uint n).

(** [Number::toString] on an integer that a number holds exactly, as
    in [`${Date.now()}`]. *)
Definition Number_toString (z : Z) : jsstring :=
  if z <? 0 then 45%N :: decimal (Z.abs_N z) else decimal (Z.abs_N z).

Definition is_digit (c : N) : bool := ((48 <=? c) && (c <=? 57))%N.

(** The longest run of digits at the head of [s], and the rest. *)
Fixpoint read_digits (s : jsstring) : Decimal.uint * jsstring :=
  match s with
  | c :: s' =>
      if is_digit c then
        let (d, r) := read_digits s' in
        ((match (c - 48)%N with
          | 0 => Decimal.D0 | 1 => Decimal.D1 | 2 => Decimal.D2
          | 3 => Decimal.D3 | 4 => Decimal.D4 | 5 => Decimal.D5
          | 6 => Decimal.D6 | 7 => Decimal.D7 | 8 => Decimal.D8
          | _ => Decimal.D9
          end)%N d, r)
      else (Decimal.Nil, s)
  | [] => (Decimal.Nil, [])
  end.

(** *** The number nearest to a fraction *)

Definition zero (negative : bool) : number :=
  if negative then NegZero else Dyadic 0 0.

Definition infinity (negative : bool) : number :=
  if negative then NegInfinity else PosInfinity.

(** [m / 2^k] with [k] as small as can be. *)
Fixpoint reduce (fuel : nat) (m : Z) (k : N) : number :=
  match fuel with
  | O => Dyadic m k
  | S fuel' =>
      if (k =? 0)%N then Dyadic m 0
      else if Z.even m then reduce fuel' (m / 2) (N.pred k)
      else Dyadic m k
  end.

Definition dyadic (m : Z) (k : N) : number := reduce (N.to_nat k) m k.

(** The integer nearest to [num / den], the even one of two. *)
Definition round_half_even (num den : Z) : Z :=
  let q := num / den in
  match 2 * (num mod den) ?= den with
  | Lt => q
  | Gt => q + 1
  | Eq => if Z.even q then q else q + 1
  end.

(** Whether [2^e <= num / den]. *)
Definition ge_pow2 (num den e : Z) : bool :=
  if 0 <=? e then den * 2 ^ e <=? num else den <=? num * 2 ^ (- e).

(** The [e] with [2^e <= num / den < 2^(e+1)]. *)
Definition floor_log2 (num den : Z) : Z :=
  let e := Z.log2 num - Z.log2 den in
  if ge_pow2 num den e then e else e - 1.

(** Round to nearest, ties to even, in binary64: 53 bits, the least
    exponent of a unit in the last place -1074, overflow at [2^1024].
    [num >= 0] and [den > 0]. *)
Definition nearest (negative : bool) (num den : Z) : number :=
  if num =? 0 then zero negative
  else
    let u := Z.max (floor_log2 num den - 52) (-1074) in
    let M := if 0 <=? u then round_half_even num (den * 2 ^ u)
             else round_half_even (num * 2 ^ (- u)) den in
    if M =? 0 then zero negative
    else if (0 <=? u) && (2 ^ 1024 <=? M * 2 ^ u) then infinity negative
    else
      let s := if negative then - M else M in
      if 0 <=? u then Dyadic (s * 2 ^ u) 0 else dyadic s (Z.to_N (- u)).

(** The number for the decimal [d * 10^q], [d >= 0].  Beyond [10^400]
    and below [10^-330] the result is known without the fraction. *)
Definition of_decimal (negative : bool) (d q : Z) : number :=
  if d =? 0 then zero negative
  else if 400 <? q then infinity negative
  else if q + Z.log2 d / 3 + 2 <? -330 then zero negative
  else if 0 <=? q then nearest negative (d * 10 ^ q) 1
  else nearest negative d (10 ^ (- q)).

(** *** [Number::toString] *)

(** Whether [10^p <= num / den]. *)
Definition ge_pow10 (num den p : Z) : bool :=
  if 0 <=? p then den * 10 ^ p <=? num else den <=? num * 10 ^ (- p).

Fixpoint log10_down (fuel : nat) (num den p : Z) : Z :=
  match fuel with
  | O => p
  | S fuel' => if ge_pow10 num den p then p
               else log10_down fuel' num den (p - 1)
  end.

Fixpoint log10_up (fuel : nat) (num den p : Z) : Z :=
  match fuel with
  | O => p
  | S fuel' => if ge_pow10 num den (p + 1)
               then log10_up fuel' num den (p + 1) else p
  end.

(** The [p] with [10^p <= num / den < 10^(p+1)], from an estimate that
    is off by one at most. *)
Definition floor_log10 (num den : Z) : Z :=
  let p := floor_log2 num den * 1233 / 4096 in
  log10_up 4 num den (log10_down 4 num den p).

(** The decimals [s * 10^e] with [k] digits that read back as [x],
    the value [num / den], [p] being its [floor_log10]: the one
    nearest to the value, the even one of two. *)
Definition shortest_at (x : number) (num den p k : Z) : option (Z * Z) :=
  let e := p + 1 - k in
  let n' := if 0 <=? e then num else num * 10 ^ (- e) in
  let d' := if 0 <=? e then den * 10 ^ e else den in
  let lo := n' / d' in
  let hi := lo + 1 in
  match number_eqb (of_decimal false lo e) x,
        number_eqb (of_decimal false hi e) x with
  | true, true =>
      Some (match 2 * (n' mod d') ?= d' with
            | Lt => lo
            | Gt => hi
            | Eq => if Z.even lo then lo else hi
            end, e)
  | true, false => Some (lo, e)
  | false, true => Some (hi, e)
  | false, false => None
  end.

Fixpoint shortest_from (fuel : nat) (x : number) (num den p k : Z)
  : option (Z * Z) :=
  match fuel with
  | O => None
  | S fuel' =>
      match shortest_at x num den p k with
      | Some r => Some r
      | None => shortest_from fuel' x num den p (k + 1)
      end
  end.

(** Without the zeros at the end of [s]. *)
Fixpoint strip_zeros (fuel : nat) (s e : Z) : Z * Z :=
  match fuel with
  | O => (s, e)
  | S fuel' => if (s mod 10 =? 0) && negb (s =? 0)
               then strip_zeros fuel' (s / 10) (e + 1) else (s, e)
  end.

(** The fewest digits that read back as [m / 2^k], [m > 0]: 17 are
    enough for a binary64 value; the fraction is written in full
    otherwise. *)
Definition shortest (m : Z) (k : N) : Z * Z :=
  let den := 2 ^ Z.of_N k in
  match shortest_from 17 (Dyadic m k) m den (floor_log10 m den) 1 with
  | Some (s, e) => strip_zeros 20 s e
  | None => strip_zeros (N.to_nat k) (m * 5 ^ Z.of_N k) (- Z.of_N k)
  end.

Definition zeros (n : nat) : jsstring := repeat 48%N n.

(** The text for the digits [ds] of [s] and [n = e + k], [k] the
    number of digits: [s * 10^(n-k)]. *)
Definition format (ds : jsstring) (n : Z) : jsstring :=
  let k := Z.of_nat (length ds) in
  if (k <=? n) && (n <=? 21) then ds ++ zeros (Z.to_nat (n - k))
  else if (0 <? n) && (n <=? 21) then
    take (Z.to_nat n) ds ++ [46%N] ++ drop (Z.to_nat n) ds
  else if (-6 <? n) && (n <=? 0) then
    [48%N; 46%N] ++ zeros (Z.to_nat (- n)) ++ ds
  else
    let e := n - 1 in
    let exponent :=
      [101%N; if e <? 0 then 45%N else 43%N] ++ decimal (Z.abs_N e) in
    match ds with
    | [d] => [d] ++ exponent
    | d :: r => [d; 46%N] ++ r ++ exponent
    | [] => exponent
    end.

(** [Number::toString(x)]; an integer that is [safe] has all its
    digits for its shortest text. *)
Definition to_string (x : number) : jsstring :=
  match x with
  | NegZero => [48%N]
  | PosInfinity => js "Infinity"
  | NegInfinity => js "-Infinity"
  | Dyadic m k =>
      if m =? 0 then [48%N]
      else if (k =? 0)%N && safe m then Number_toString m
      else
        let (s, e) := shortest (Z.abs m) k in
        let ds := decimal (Z.to_N s) in
        (if m <? 0 then [45%N] else [])
          ++ format ds (e + Z.of_nat (length ds))
  end.

(** The same without the short cut for integers. *)
Definition to_string_general (x : number) : jsstring :=
  match x with
  | Dyadic m k =>
      if m =? 0 then [48%N]
      else
        let (s, e) := shortest (Z.abs m) k in
        let ds := decimal (Z.to_N s) in
        (if m <? 0 then [45%N] else [])
          ++ format ds (e + Z.of_nat (length ds))
  | _ => to_string x
  end.

(** *** Number literals of JSON *)

(** [-? int frac? exp?]: the sign, the digits as a number, the power
    of ten, and the text left. *)
Definition read_exponent (s : jsstring) : option (Z * jsstring) :=
  match s with
  | c :: s1 =>
      if ((c =? 101) || (c =? 69))%N then
        let '(negative, s2) :=
          match s1 with
          | sign :: s2 =>
              if (sign =? 45)%N then (true, s2)
              else if (sign =? 43)%N then (false, s2)
              else (false, s1)
          | [] => (false, s1)
          end in
        match read_digits s2 with
        | (Decimal.Nil, _) => None
        | (d, rest) =>
            let x := Z.of_N (N.of_uint d) in
            Some (if negative then - x else x, rest)
        end
      else Some (0, s)
  | [] => Some (0, s)
  end.

Definition read_fraction (s : jsstring) : option (Decimal.uint * jsstring) :=
  match s with
  | c :: s1 =>
      if (c =? 46)%N then
        match read_digits s1 with
        | (Decimal.Nil, _) => None
        | (d, rest) => Some (d, rest)
        end
      else Some (Decimal.Nil, s)
  | [] => Some (Decimal.Nil, s)
  end.

Definition read_unsigned (negative : bool) (s : jsstring)
  : option (number * jsstring) :=
  match read_digits s with
  | (Decimal.Nil, _) => None
  | (Decimal.D0 (Decimal.D0 _ | Decimal.D1 _ | Decimal.D2 _ | Decimal.D3 _
                 | Decimal.D4 _ | Decimal.D5 _ | Decimal.D6 _ | Decimal.D7 _
                 | Decimal.D8 _ | Decimal.D9 _), _) => None
  | (int, s1) =>
      match read_fraction s1 with
      | None => None
      | Some (frac, s2) =>
          match read_exponent s2 with
          | None => None
          | Some (e, rest) =>
              let d := Z.of_N (N.of_uint (Decimal.app int frac)) in
              let q := e - Z.of_nat (Decimal.nb_digits frac) in
              Some (of_decimal negative d q, rest)
          end
      end
  end.

Definition read_number (s : jsstring) : option (number * jsstring) :=
  match s with
  | c :: s' => if (c =? 45)%N then read_unsigned true s'
               else read_unsigned false s
  | [] => None
  end.

End JsNumber.

(** ** JSON values, [JSON.stringify] and [JSON.parse] *)

Module Json.
Import JsString JsNumber.

Unset Elimination Schemes.
Inductive json : Type :=
| JNull
| JBool (b : bool)
| JNum (x : number)
| JStr (s : jsstring)
| JArr (elems : list json)
| JObj (members : list (jsstring * json)).
Set Elimination Schemes.

(** Induction with the hypotheses for the nested lists. *)
Section Induction.
Variable P : json -> Prop.
Hypothesis Hnull : P JNull.
Hypothesis Hbool : forall b, P (JBool b).
Hypothesis Hnum : forall x, P (JNum x).
Hypothesis Hstr : forall s, P (JStr s).
Hypothesis Harr : forall l, Forall P l -> P (JArr l).
Hypothesis Hobj : forall l, Forall (fun kv => P (snd kv)) l -> P (JObj l).

Fixpoint json_ind (v : json) : P v :=
  match v with
  | JNull => Hnull
  | JBool b => Hbool b
  | JNum x => Hnum x
  | JStr s => Hstr s
  | JArr l =>
      Harr l ((fix go (l : list json) : Forall P l :=
                 match l with
                 | [] => @List.Forall_nil _ P
                 | x :: r => @List.Forall_cons _ P x r (json_ind x) (go r)
                 end) l)
  | JObj l =>
      Hobj l ((fix go (l : list (jsstring * json))
                 : Forall (fun kv => P (snd kv)) l :=
                 match l with
                 | [] => @List.Forall_nil _ _
                 | x :: r => @List.Forall_cons _ _ x r (json_ind (snd x)) (go r)
                 end) l)
  end.
End Induction.

(** *** The properties of an object *)

(** An array index: the canonical decimal text of an integer from 0
    to [2^32 - 2]. *)
Definition array_index (key : jsstring) : option N :=
  match read_digits key with
  | (Decimal.Nil, _) => None
  | (d, []) =>
      let n := N.of_uint d in
      if eqb (decimal n) key && (n <? 4294967295)%N then Some n else None
  | (_, _ :: _) => None
  end.

Definition has_key (key : jsstring) (l : list (jsstring * json)) : bool :=
  existsb (fun kv => eqb (fst kv) key) l.

Fixpoint replace_value (key : jsstring) (v : json)
    (l : list (jsstring * json)) : list (jsstring * json) :=
  match l with
  | [] => []
  | (key', v') :: r =>
      if eqb key' key then (key', v) :: r
      else (key', v') :: replace_value key v r
  end.

Fixpoint insert_index (i : N) (key : jsstring) (v : json)
    (l : list (jsstring * json)) : list (jsstring * json) :=
  match l with
  | [] => [(key, v)]
  | (key', v') :: r =>
      match array_index key' with
      | Some j => if (j <? i)%N then (key', v') :: insert_index i key v r
                  else (key, v) :: l
      | None => (key, v) :: l
      end
  end.

(** [CreateDataProperty(o, key, v)]: a property that exists keeps its
    place; a new array index goes among the array indices, in
    ascending order; any other new key goes last. *)
Definition set_property (key : jsstring) (v : json)
    (l : list (jsstring * json)) : list (jsstring * json) :=
  if has_key key l then replace_value key v l
  else match array_index key with
       | Some i => insert_index i key v l
       | None => l ++ [(key, v)]
       end.

(** The object with the members of an object literal of JSON, in the
    order they are written. *)
Definition object_of (members : list (jsstring * json)) : json :=
  JObj (fold_left (fun o kv => set_property (fst kv) (snd kv) o) members []).

(** *** Printing *)

Definition hex_digit (n : N) : N :=
  if (n <? 10)%N then (48 + n)%N else (87 + n)%N.

(** [\uXXXX] *)
Definition unicode_escape (c : N) : jsstring :=
  [92; 117; hex_digit (c / 4096); hex_digit (c / 256 mod 16);
   hex_digit (c / 16 mod 16); hex_digit (c mod 16)]%N.

Definition is_high_surrogate (c : N) : bool :=
  ((55296 <=? c) && (c <=? 56319))%N.

Definition is_low_surrogate (c : N) : bool :=
  ((56320 <=? c) && (c <=? 57343))%N.

(** What [JSON.stringify] writes for a code unit that is not half of
    a surrogate pair. *)
Definition escape (c : N) : jsstring :=
  if (c =? 34)%N then [92; 34]%N
  else if (c =? 92)%N then [92; 92]%N
  else if (c =? 8)%N then [92; 98]%N
  else if (c =? 9)%N then [92; 116]%N
  else if (c =? 10)%N then [92; 110]%N
  else if (c =? 12)%N then [92; 102]%N
  else if (c =? 13)%N then [92; 114]%N
  else if (c <? 32)%N || is_high_surrogate c || is_low_surrogate c
       then unicode_escape c
  else [c].

(** The code points of [s] one after the other: a surrogate pair is
    written as it is, any other code unit by [escape]. *)
Fixpoint quote_chars (s : jsstring) (k : jsstring) : jsstring :=
  match s with
  | [] => k
  | c :: s' =>
      match s' with
      | c' :: s'' =>
          if is_high_surrogate c && is_low_surrogate c'
          then c :: c' :: quote_chars s'' k
          else escape c ++ quote_chars s' k
      | [] => escape c ++ k
      end
  end.

(** [QuoteJSONString]: the quoted form of [s], followed by [k]. *)
Definition quote (s : jsstring) (k : jsstring) : jsstring :=
  34%N :: quote_chars s (34%N :: k).

(** A number that is not finite is written [null]. *)
Definition print_number (x : number) : jsstring :=
  match x with
  | PosInfinity | NegInfinity => js "null"
  | _ => to_string x
  end.

(** [print v k] is the text of [v] followed by [k]. *)
Fixpoint print (v : json) (k : jsstring) : jsstring :=
  match v with
  | JNull => js "null" ++ k
  | JBool true => js "true" ++ k
  | JBool false => js "false" ++ k
  | JNum x => print_number x ++ k
  | JStr s => quote s k
  | JArr l =>
      91%N ::
        ((fix elems (l : list json) (k : jsstring) : jsstring :=
            match l with
            | [] => k
            | [x] => print x k
            | x :: r => print x (44%N :: elems r k)
            end) l (93%N :: k))
  | JObj l =>
      123%N ::
        ((fix members (l : list (jsstring * json)) (k : jsstring) : jsstring :=
            match l with
            | [] => k
            | [(key, x)] => quote key (58%N :: print x k)
            | (key, x) :: r =>
                quote key (58%N :: print x (44%N :: members r k))
            end) l (125%N :: k))
  end.

Fixpoint print_elems (l : list json) (k : jsstring) : jsstring :=
  match l with
  | [] => k
  | [x] => print x k
  | x :: r => print x (44%N :: print_elems r k)
  end.

Fixpoint print_members (l : list (jsstring * json)) (k : jsstring)
  : jsstring :=
  match l with
  | [] => k
  | [(key, x)] => quote key (58%N :: print x k)
  | (key, x) :: r =>
      quote key (58%N :: print x (44%N :: print_members r k))
  end.

(** [JSON.stringify(v)] for a JSON value [v]. *)
Definition stringify (v : json) : jsstring := print v [].

(** *** Parsing *)

Definition is_ws (c : N) : bool :=
  ((c =? 32) || (c =? 9) || (c =? 10) || (c =? 13))%N.

Fixpoint skip_ws (s : jsstring) : jsstring :=
  match s with
  | c :: s' => if is_ws c then skip_ws s' else s
  | [] => s
  end.

Definition hex_value (c : N) : option N :=
  if ((48 <=? c) && (c <=? 57))%N then Some (c - 48)%N
  else if ((97 <=? c) && (c <=? 102))%N then Some (c - 87)%N
  else if ((65 <=? c) && (c <=? 70))%N then Some (c - 55)%N
  else None.

(** The code unit named by [\uXXXX]. *)
Definition hex4 (a b c d : N) : option N :=
  match hex_value a, hex_value b, hex_value c, hex_value d with
  | Some x, Some y, Some z, Some w =>
      Some (((x * 16 + y) * 16 + z) * 16 + w)%N
  | _, _, _, _ => None
  end.

(** The character named by a one-letter escape. *)
Definition unescape (e : N) : option N :=
  if (e =? 34)%N then Some 34%N
  else if (e =? 92)%N then Some 92%N
  else if (e =? 47)%N then Some 47%N
  else if (e =? 98)%N then Some 8%N
  else if (e =? 102)%N then Some 12%N
  else if (e =? 110)%N then Some 10%N
  else if (e =? 114)%N then Some 13%N
  else if (e =? 116)%N then Some 9%N
  else None.

Definition cons_char (c : N) (r : option (jsstring * jsstring))
  : option (jsstring * jsstring) :=
  match r with
  | Some (t, rest) => Some (c :: t, rest)
  | None => None
  end.

(** The characters of a string literal after its opening quote, up to
    the closing quote; the result is the string and the text left. *)
Fixpoint parse_chars (s : jsstring) : option (jsstring * jsstring) :=
  match s with
  | [] => None
  | c :: s1 =>
      if (c =? 34)%N then Some ([], s1)
      else if (c =? 92)%N then
        match s1 with
        | [] => None
        | e :: s2 =>
            if (e =? 117)%N then
              match s2 with
              | h1 :: h2 :: h3 :: h4 :: s3 =>
                  match hex4 h1 h2 h3 h4 with
                  | Some ch => cons_char ch (parse_chars s3)
                  | None => None
                  end
              | _ => None
              end
            else
              match unescape e with
              | Some ch => cons_char ch (parse_chars s2)
              | None => None
              end
        end
      else if (c <? 32)%N then None
      else cons_char c (parse_chars s1)
  end.

(** The rest of a keyword whose first letter has been read. *)
Definition expect (lit : jsstring) (v : json) (s : jsstring)
  : option (json * jsstring) :=
  if startsWith s lit then Some (v, slice_from (length lit) s) else None.

Fixpoint parse_value (fuel : nat) (s : jsstring) {struct fuel}
  : option (json * jsstring) :=
  match fuel with
  | O => None
  | S fuel' =>
      match skip_ws s with
      | [] => None
      | c :: r =>
          if (c =? 110)%N then expect (js "ull") JNull r
          else if (c =? 116)%N then expect (js "rue") (JBool true) r
          else if (c =? 102)%N then expect (js "alse") (JBool false) r
          else if (c =? 34)%N then
            match parse_chars r with
            | Some (t, rest) => Some (JStr t, rest)
            | None => None
            end
          else if (c =? 91)%N then
            match skip_ws r with
            | [] => None
            | c' :: r' =>
                if (c' =? 93)%N then Some (JArr [], r')
                else
                  match parse_elements fuel' r with
                  | Some (l, rest) => Some (JArr l, rest)
                  | None => None
                  end
            end
          else if (c =? 123)%N then
            match skip_ws r with
            | [] => None
            | c' :: r' =>
                if (c' =? 125)%N then Some (JObj [], r')
                else
                  match parse_members fuel' r with
                  | Some (l, rest) => Some (object_of l, rest)
                  | None => None
                  end
            end
          else
            match read_number (c :: r) with
            | Some (x, rest) => Some (JNum x, rest)
            | None => None
            end
      end
  end

with parse_elements (fuel : nat) (s : jsstring) {struct fuel}
  : option (list json * jsstring) :=
  match fuel with
  | O => None
  | S fuel' =>
      match parse_value fuel' s with
      | None => None
      | Some (v, rest) =>
          match skip_ws rest with
          | [] => None
          | c :: r =>
              if (c =? 93)%N then Some ([v], r)
              else if (c =? 44)%N then
                match parse_elements fuel' r with
                | Some (l, rest') => Some (v :: l, rest')
                | None => None
                end
              else None
          end
      end
  end

with parse_members (fuel : nat) (s : jsstring) {struct fuel}
  : option (list (jsstring * json) * jsstring) :=
  match fuel with
  | O => None
  | S fuel' =>
      match skip_ws s with
      | [] => None
      | q :: s1 =>
          if negb (q =? 34)%N then None
          else
            match parse_chars s1 with
            | None => None
            | Some (key, s2) =>
                match skip_ws s2 with
                | [] => None
                | colon :: s3 =>
                    if negb (colon =? 58)%N then None
                    else
                      match parse_value fuel' s3 with
                      | None => None
                      | Some (v, rest) =>
                          match skip_ws rest with
                          | [] => None
                          | c :: r =>
                              if (c =? 125)%N
                              then Some ([(key, v)], r)
                              else if (c =? 44)%N then
                                match parse_members fuel' r with
                                | Some (l, rest') => Some ((key, v) :: l, rest')
                                | None => None
                                end
                              else None
                          end
                      end
                end
            end
      end
  end.

(** A bound on the recursion depth [parse_value] needs to read back
    the text of [v]. *)
Fixpoint fuel_value (v : json) : nat :=
  match v with
  | JArr l => S (list_sum (map (fun x => S (fuel_value x)) l))
  | JObj l => S (list_sum (map (fun kv => S (fuel_value (snd kv))) l))
  | _ => 1
  end.

(** The outcome of [JSON.parse]: a value, or a [SyntaxError]. *)
Definition parse (s : jsstring) : option json :=
  match parse_value (S (length s)) s with
  | Some (v, rest) =>
      match skip_ws rest with
      | [] => Some v
      | _ :: _ => None
      end
  | None => None
  end.

(** *** Values that [JSON.parse] gives back from their text *)

Definition safe_number (x : number) : bool :=
  match x with
  | Dyadic z 0 => safe z
  | _ => false
  end.

Fixpoint distinct (keys : list jsstring) : bool :=
  match keys with
  | [] => true
  | key :: r => negb (existsb (eqb key) r) && distinct r
  end.

Definition named (key : jsstring) : bool :=
  match array_index key with Some _ => false | None => true end.

(** The numbers of [v] are safe integers and the properties of its
    objects have names, all different, that are not array indices. *)
Fixpoint plain (v : json) : bool :=
  match v with
  | JNum x => safe_number x
  | JArr l => forallb plain l
  | JObj l =>
      distinct (map fst l) && forallb named (map fst l)
      && (fix go (l : list (jsstring * json)) : bool :=
            match l with
            | [] => true
            | kv :: r => plain (snd kv) && go r
            end) l
  | _ => true
  end.

End Json.

(** ** Effects: exceptions and explicit state *)

Module Effects.
Import JsString.

Inductive JsError : Type :=
| QuotaExceededError
| SyntaxError
| ENOENT
| OpenAIError
| ProviderError (message : jsstring).

(** How a call ends.  For an [async] function, [Throw e] is the
    rejection of the promise it returns. *)
Inductive Outcome (A : Type) : Type :=
| Return (a : A)
| Throw (e : JsError).
Arguments Return {A} a.
Arguments Throw {A} e.

Definition M (S A : Type) : Type := S -> Outcome A * S.

Definition ret {S A} (a : A) : M S A := fun w => (Return a, w).

Definition throw {S A} (e : JsError) : M S A := fun w => (Throw e, w).

Definition bind {S A B} (c : M S A) (k : A -> M S B) : M S B :=
  fun w =>
    match c w with
    | (Return a, w') => k a w'
    | (Throw e, w') => (Throw e, w')
    end.

(** [try { body } catch (error) { handler }] *)
Definition try_catch {S A} (body : M S A) (handler : JsError -> M S A)
  : M S A :=
  fun w =>
    match body w with
    | (Return a, w') => (Return a, w')
    | (Throw e, w') => handler e w'
    end.

(** [JSON.parse(text)] throws a [SyntaxError] on malformed text. *)
Definition JSON_parse {S} (text : jsstring) : M S Json.json :=
  match Json.parse text with
  | Some v => ret v
  | None => throw SyntaxError
  end.

End Effects.

Import Effects.

Notation "'do' x <- c1 ; c2" := (bind c1 (fun x => c2))
  (at level 10, x name, c1 at level 100, c2 at level 200).
Notation "'run' c1 ; c2" := (bind c1 (fun _ => c2))
  (at level 10, c1 at level 100, c2 at level 200).

(** ** The browser: [localStorage] and the console *)

Module Browser.
Import JsString.

(** [localStorage] holds string items under string keys, within a
    quota counted in code units of keys and values. *)
Record Storage : Type := {
  items : gmap jsstring jsstring;
  quota : nat
}.

Definition used (m : gmap jsstring jsstring) : nat :=
  map_fold (fun k v acc => length k + length v + acc) 0 m.

Record World : Type := {
  localStorage : Storage;
  console : list (jsstring * JsError)
}.

(** Whether the store has room for [value] under [key]. *)
Definition fits (key value : jsstring) (st : Storage) : bool :=
  (used (<[key := value]> (items st)) <=? quota st)%nat.

(** [localStorage.setItem(key, value)]: throws [QuotaExceededError],
    leaving the store as it was, when the new item does not fit. *)
Definition localStorage_setItem (key value : jsstring) : M World unit :=
  fun w =>
    if fits key value (localStorage w) then
      (Return tt,
       {| localStorage :=
            {| items := <[key := value]> (items (localStorage w));
               quota := quota (localStorage w) |};
          console := console w |})
    else (Throw QuotaExceededError, w).

(** [localStorage.getItem(key)]: [None] is [null]. *)
Definition localStorage_getItem (key : jsstring) : M World (option jsstring) :=
  fun w => (Return (items (localStorage w) !! key), w).

(** [console.error(message, error)] *)
Definition console_error (message : jsstring) (error : JsError)
  : M World unit :=
  fun w =>
    (Return tt,
     {| localStorage := localStorage w;
        console := console w ++ [(message, error)] |}).

End Browser.

(** ** [src/lib/threadManager.ts] *)

Module ThreadManager.
Import JsString JsNumber Json Browser.

Inductive Role : Type := user | agent | assistant.

(** A time value: a result of [Date.now()], an integer number of
    milliseconds of at most 8.64e15 in absolute value. *)
Record TimeValue : Type := {
  ms : Z;
  ms_range : (Z.abs ms <=? 8640000000000000)%Z = true
}.

(** The time value [z], and 0 for a [z] out of range. *)
Definition time_value (z : Z) : TimeValue :=
  match (Z.abs z <=? 8640000000000000)%Z as b
        return (Z.abs z <=? 8640000000000000)%Z = b -> TimeValue with
  | true => fun H => {| ms := z; ms_range := H |}
  | false => fun _ => {| ms := 0; ms_range := eq_refl |}
  end eq_refl.

Record Message : Type := {
  role : Role;
  agentName : option jsstring;
  content : jsstring;
  timestamp : option TimeValue
}.

Definition Role_toString (r : Role) : jsstring :=
  match r with
  | user => js "user"
  | agent => js "agent"
  | assistant => js "assistant"
  end.

(** A message as a JS object; a field that is [undefined] is left out
    by [JSON.stringify]. *)
Definition Message_toJSON (m : Message) : json :=
  JObj ([(js "role", JStr (Role_toString (role m)))]
        ++ match agentName m with
           | Some a => [(js "agentName", JStr a)]
           | None => []
           end
        ++ [(js "content", JStr (content m))]
        ++ match timestamp m with
           | Some t => [(js "timestamp", JNum (of_Z (ms t)))]
           | None => []
           end).

Definition Messages_toJSON (messages : list Message) : json :=
  JArr (map Message_toJSON messages).

Definition THREAD_PREFIX : jsstring := js "aeth_chat_thread_".

(** [createNewThreadId()], with the value of [Date.now()]. *)
Definition createNewThreadId (now : Z) : M World jsstring :=
  let threadId := THREAD_PREFIX ++ Number_toString now in
  run localStorage_setItem threadId (stringify (JArr [])) ;
  ret threadId.

(** [!threadId || !threadId.startsWith(THREAD_PREFIX)] *)
Definition rejected_id (threadId : jsstring) : bool :=
  negb (truthy threadId) || negb (startsWith threadId THREAD_PREFIX).

Definition saveMessagesToThread (threadId : jsstring)
    (messages : list Message) : M World unit :=
  if rejected_id threadId then ret tt
  else
    try_catch
      (localStorage_setItem threadId (stringify (Messages_toJSON messages)))
      (fun error =>
         console_error (js "Failed to save messages to localStorage:") error).

(** The result is whatever JS value the stored text denotes: the cast
    [as Message[]] checks nothing. *)
Definition getMessagesForThread (threadId : jsstring) : M World json :=
  if rejected_id threadId then ret (JArr [])
  else
    try_catch
      (do data <- localStorage_getItem threadId ;
       match data with
       | Some text => if truthy text then JSON_parse text else ret (JArr [])
       | None => ret (JArr [])
       end)
      (fun error =>
         run console_error
               (js "Failed to retrieve or parse messages from localStorage:")
               error ;
         ret (JArr [])).

Definition LF : N := 10%N.

Definition nl : jsstring := [LF].

(** The separator ['\n---\n\n'] between two blocks of an export. *)
Definition separator : jsstring := nl ++ js "---" ++ nl ++ nl.

(** [msg.role === 'user' ? 'User Input' : (msg.agentName || 'Agent Response')] *)
Definition heading (msg : Message) : jsstring :=
  match role msg with
  | user => js "User Input"
  | _ =>
      match agentName msg with
      | Some a => if truthy a then a else js "Agent Response"
      | None => js "Agent Response"
      end
  end.

Definition export_block (msg : Message) : jsstring :=
  (js "### " ++ heading msg) ++ (nl ++ content msg ++ nl).

Definition formatThreadForExport (threadId : jsstring)
    (messages : list Message) : jsstring :=
  let title := replace_first_empty THREAD_PREFIX threadId in
  let markdownContent := join separator (map export_block messages) in
  js "# Chat Thread Log: " ++ title ++ nl ++ nl ++ markdownContent.

(** [localStorage.length] and [localStorage.key(i)]: the keys are
    numbered in an order the browser chooses; [None] is [null]. *)
Definition localStorage_keys (st : Storage) : list jsstring :=
  (map_to_list (items st)).*1.

Definition localStorage_length : M World nat :=
  fun w => (Return (length (localStorage_keys (localStorage w))), w).

Definition localStorage_key (i : nat) : M World (option jsstring) :=
  fun w => (Return (localStorage_keys (localStorage w) !! i), w).

(** [key && key.startsWith(THREAD_PREFIX)] *)
Definition is_thread_key (key : jsstring) : bool :=
  truthy key && startsWith key THREAD_PREFIX.

(** The [for] loop of [getAllThreadIds], with [n] rounds left to run
    from index [i]. *)
Fixpoint getAllThreadIds_loop (n i : nat) (threadIds : list jsstring)
  : M World (list jsstring) :=
  match n with
  | O => ret threadIds
  | S n' =>
      do key <- localStorage_key i ;
      getAllThreadIds_loop n' (S i)
        match key with
        | Some k => if is_thread_key k then threadIds ++ [k] else threadIds
        | None => threadIds
        end
  end.

Definition getAllThreadIds : M World (list jsstring) :=
  do n <- localStorage_length ;
  getAllThreadIds_loop n 0 [].

End ThreadManager.

(** ** HTTP responses *)

Module Http.
Import Json.

Record Response : Type := {
  status : Z;
  body : json
}.

(** [NextResponse.json(body)] and [NextResponse.json(body, { status })] *)
Definition NextResponse_json (b : json) (init : option Z) : Response :=
  {| status := match init with Some s => s | None => 200%Z end;
     body := b |}.

End Http.

(** ** [app/api/chat-with-premier/route.ts] *)

Module ChatWithPremier.
Import JsString Json Http.

Record ChatMessage : Type := {
  role : jsstring;
  content : jsstring
}.

(** The request body as [req.json()] gives it,
    [{ prompt, context, agentName }]; a field that is absent is [None]. *)
Record RequestBody : Type := {
  prompt : jsstring;
  context : option (list ChatMessage);
  agentName : option jsstring
}.

(** The arguments of [openai.chat.completions.create]. *)
Record CompletionRequest : Type := {
  model : jsstring;
  messages : list ChatMessage;
  temperature : Q;
  max_tokens : Z
}.

(** A choice of the completion: its [message], when there is one, and
    the [content] of that message, when it is not [null]. *)
Record Choice : Type := {
  message_content : option (option jsstring)
}.

Record Completion : Type := {
  choices : list Choice
}.

(** What becomes of one request to the hosted API: an answer, or a
    failure, which the client may try again ([retry]: no connection, a
    time out, or one of the statuses 408, 409, 429 and 500 and above)
    or not. *)
Inductive Attempt : Type :=
| Answered (response : Completion)
| Failed (retry : bool) (error : JsError).

(** The server: the variable [OPENAI_API_KEY] of its environment,
    [None] when unset, and the requests that have gone to the hosted
    API. *)
Record World : Type := {
  OPENAI_API_KEY : option jsstring;
  sent : list CompletionRequest
}.

Definition system_preamble : ChatMessage :=
  {| role := js "system";
     content := js "You are Premier, the primary agent of AetheroOS, orchestrating Signal Root with introspective reasoning in ASL." |}.

(** [context || []] *)
Definition context_or_empty (c : option (list ChatMessage))
  : list ChatMessage :=
  match c with Some l => l | None => [] end.

Definition build_messages (b : RequestBody) : list ChatMessage :=
  [system_preamble]
    ++ context_or_empty (context b)
    ++ [{| role := js "user"; content := prompt b |}].

(** [new OpenAI({ apiKey: process.env.OPENAI_API_KEY })]: the
    constructor throws an [OpenAIError] when there is no key. *)
Definition new_OpenAI : M World unit :=
  fun w =>
    match OPENAI_API_KEY w with
    | Some _ => (Return tt, w)
    | None =>
        (Throw OpenAIError, w)
    end.

(** The client's default: a failed request is sent again twice at most. *)
Definition DEFAULT_MAX_RETRIES : nat := 2.

Section Provider.
(** The hosted API: what it does with the request it receives as its
    n-th. *)
Variable provider : nat -> CompletionRequest -> Attempt.

Fixpoint makeRequest (retriesRemaining : nat) (r : CompletionRequest)
  : M World Completion :=
  fun w =>
    let w' := {| OPENAI_API_KEY := OPENAI_API_KEY w;
                 sent := sent w ++ [r] |} in
    match provider (length (sent w)) r with
    | Answered response => (Return response, w')
    | Failed retry error =>
        match retry, retriesRemaining with
        | true, S n => makeRequest n r w'
        | _, _ => (Throw error, w')
        end
    end.

(** [openai.chat.completions.create(r)] *)
Definition openai_chat_completions_create (r : CompletionRequest)
  : M World Completion :=
  makeRequest DEFAULT_MAX_RETRIES r.

(** [response.choices[0]?.message?.content ?? ''] *)
Definition first_choice_text (response : Completion) : jsstring :=
  match choices response with
  | [] => []
  | c :: _ =>
      match message_content c with
      | Some (Some text) => text
      | _ => []
      end
  end.

Definition POST (req : RequestBody) : M World Response :=
  run new_OpenAI ;
  let messages := build_messages req in
  do response <-
    openai_chat_completions_create
      {| model := js "gpt-4o";
         messages := messages;
         temperature := (7 # 10)%Q;
         max_tokens := 1000 |} ;
  ret (NextResponse_json
         (JObj [(js "content", JStr (first_choice_text response))]) None).
End Provider.

End ChatWithPremier.

(** ** [src/components/AgentChat.tsx]: the request [handleSend] posts *)

Module AgentChat.
Import JsString ThreadManager.

Definition AGENTS : list jsstring :=
  [js "Premier"; js "Frontinus"; js "Lucius"; js "Implementus";
   js "Archivus"].

(** The [context] built from the thread's messages. *)
Definition context_of (messages : list Message)
  : list ChatWithPremier.ChatMessage :=
  map (fun m =>
         {| ChatWithPremier.role :=
              match ThreadManager.role m with
              | user => js "user"
              | _ => js "assistant"
              end;
            ChatWithPremier.content := ThreadManager.content m |})
      messages.

(** The body of the [fetch('/api/chat-with-premier', ...)] call. *)
Definition chat_request (prompt : jsstring) (messages : list Message)
    (agent : jsstring) : ChatWithPremier.RequestBody :=
  {| ChatWithPremier.prompt := prompt;
     ChatWithPremier.context := Some (context_of messages);
     ChatWithPremier.agentName := Some agent |}.

End AgentChat.

(** ** The server's clock and file system *)

Module Node.
Import JsString JsNumber Json.

(** A [Date], by its UTC fields. *)
Record Date : Type := {
  year : Z;
  month : N;
  day : N;
  hours : N;
  minutes : N;
  seconds : N;
  milliseconds : N
}.

(** The decimal digits of [n], padded with zeros to [width]. *)
Definition pad (width : nat) (n : N) : jsstring :=
  let s := decimal n in
  zeros (width - length s) ++ s.

(** Four digits for the years 0 to 9999, else a sign and six digits. *)
Definition year_string (y : Z) : jsstring :=
  if ((0 <=? y) && (y <=? 9999))%Z then pad 4 (Z.to_N y)
  else (if (y <? 0)%Z then js "-" else js "+") ++ pad 6 (Z.to_N (Z.abs y)).

Definition iso_date (d : Date) : jsstring :=
  year_string (year d) ++ js "-" ++ pad 2 (month d) ++ js "-" ++ pad 2 (day d).

(** [d.toISOString()] *)
Definition toISOString (d : Date) : jsstring :=
  iso_date d ++ js "T" ++ pad 2 (hours d) ++ js ":" ++ pad 2 (minutes d)
    ++ js ":" ++ pad 2 (seconds d) ++ js "." ++ pad 3 (milliseconds d)
    ++ js "Z".

(** A path is the list of its segments. *)
Definition path : Type := list jsstring.

Record FileSystem : Type := {
  dirs : gset (list jsstring);
  files : gmap (list jsstring) jsstring
}.

(** A path and the directories above it. *)
Fixpoint ancestors (p : list jsstring) : list (list jsstring) :=
  match p with
  | [] => [[]]
  | x :: r => [] :: map (cons x) (ancestors r)
  end.

Record World : Type := {
  fs : FileSystem;
  cwd : list jsstring
}.

(** [process.cwd()] *)
Definition process_cwd : M World (list jsstring) :=
  fun w => (Return (cwd w), w).

(** [fs.mkdir(dir, { recursive: true })]: the directory and those
    above it exist afterwards. *)
Definition fs_mkdir_recursive (dir : list jsstring) : M World unit :=
  fun w =>
    (Return tt,
     {| fs := {| dirs := dirs (fs w) ∪ list_to_set (ancestors dir);
                 files := files (fs w) |};
        cwd := cwd w |}).

(** [fs.appendFile(file, data)]: the file is created when missing;
    [ENOENT] when its directory does not exist. *)
Definition fs_appendFile (file : list jsstring) (data : jsstring)
  : M World unit :=
  fun w =>
    if decide (removelast file ∈ dirs (fs w)) then
      let old := default [] (files (fs w) !! file) in
      (Return tt,
       {| fs := {| dirs := dirs (fs w);
                   files := <[file := old ++ data]> (files (fs w)) |};
          cwd := cwd w |})
    else (Throw ENOENT, w).

End Node.

(** ** [app/api/memory-log/route.ts] *)

Module MemoryLog.
Import JsString Json Http Node.

Definition log_file_name (now : Date) : jsstring :=
  js "log_" ++ split_head 84 (toISOString now) ++ js ".json".

(** [POST(request)], with the text of the request body and the value
    of [new Date()]. *)
Definition POST (request_body : jsstring) (now : Date) : M World Response :=
  do logEntry <- JSON_parse request_body ;
  do here <- process_cwd ;
  let logsDir := here ++ [js "logs"; js "MemoryLogs"] in
  let logPath := logsDir ++ [log_file_name now] in
  run fs_mkdir_recursive logsDir ;
  run fs_appendFile logPath (stringify logEntry ++ [10%N]) ;
  ret (NextResponse_json (JObj [(js "status", JStr (js "Logged"))]) None).

End MemoryLog.

(** ** [app/api/audit/[threadId]/route.ts] *)

Module Audit.
Import JsString Json Http.

Definition not_available : jsstring :=
  js "Thread audit is not available server-side. Please implement client-side or via a persistent API.".

(** [GET()] declares no parameter: the request and its [threadId] are
    not looked at. *)
Definition GET {S : Type} : M S Response :=
  ret (NextResponse_json (JObj [(js "error", JStr not_available)])
         (Some 501%Z)).

(** The framework's call of the handler for [/api/audit/<threadId>]. *)
Definition handle {S : Type} (threadId : jsstring) : M S Response := GET.

End Audit.

(** ** [src/lib/aslParser.ts] *)

Module AslParser.
Import JsString Json.

Record Pair : Type := {
  prompt : jsstring;
  response : jsstring
}.

Definition aslOutput : json :=
  JObj [(js "module", JStr (js "PremierChat"));
        (js "action", JStr (js "reflect"));
        (js "purpose", JStr (js "Introspective synthesis"))].

Definition summary_entry (p : Pair) : json :=
  JObj [(js "intent", JStr (js "Analyzed: " ++ slice0 50 (prompt p) ++ js "..."));
        (js "reasoning",
         JStr (js "Response: " ++ slice0 50 (response p) ++ js "..."));
        (js "aslOutput", aslOutput)].

Definition runIntrospectiveAnalysis (thread : list Pair) : jsstring :=
  stringify (JArr (map summary_entry thread)).

End AslParser.

(** ** The chat page: [src/lib/memoryLog.ts], [src/components/AgentChat.tsx]
       and [src/components/AgentInput.tsx] *)

Module ChatPage.
Import JsString JsNumber Json ThreadManager.

(** One entry of the [threads] state: [{ id, messages }]. *)
Record Thread : Type := {
  id : jsstring;
  messages : list Message
}.

(** The state of the [AgentChat] component. *)
Record State : Type := {
  activeAgent : jsstring;
  activeThreadId : jsstring;
  threads : list Thread;
  loading : bool
}.

(** The page: the browser, the component's state, how often the clock
    has been read, the bodies posted so far to the two endpoints, and
    the alerts shown. *)
Record World : Type := {
  browser : Browser.World;
  state : State;
  clock_reads : nat;
  chat_posts : list ChatWithPremier.RequestBody;
  log_posts : list jsstring;
  alerts : list jsstring
}.

Definition with_browser (b : Browser.World) (w : World) : World :=
  {| browser := b; state := state w; clock_reads := clock_reads w;
     chat_posts := chat_posts w; log_posts := log_posts w;
     alerts := alerts w |}.

Definition with_state (s : State) (w : World) : World :=
  {| browser := browser w; state := s; clock_reads := clock_reads w;
     chat_posts := chat_posts w; log_posts := log_posts w;
     alerts := alerts w |}.

(** A call into the thread store or the console. *)
Definition in_browser {A} (c : M Browser.World A) : M World A :=
  fun w =>
    match c (browser w) with
    | (o, b) => (o, with_browser b w)
    end.

Definition get_state : M World State := fun w => (Return (state w), w).

(** [setLoading(b)], [setThreads(l)], [setActiveThreadId(i)] *)
Definition setLoading (b : bool) : M World unit :=
  fun w =>
    (Return tt,
     with_state {| activeAgent := activeAgent (state w);
                   activeThreadId := activeThreadId (state w);
                   threads := threads (state w);
                   loading := b |} w).

Definition setThreads (l : list Thread) : M World unit :=
  fun w =>
    (Return tt,
     with_state {| activeAgent := activeAgent (state w);
                   activeThreadId := activeThreadId (state w);
                   threads := l;
                   loading := loading (state w) |} w).

Definition setActiveThreadId (i : jsstring) : M World unit :=
  fun w =>
    (Return tt,
     with_state {| activeAgent := activeAgent (state w);
                   activeThreadId := i;
                   threads := threads (state w);
                   loading := loading (state w) |} w).

(** [alert(text)] *)
Definition alert (text : jsstring) : M World unit :=
  fun w =>
    (Return tt,
     {| browser := browser w; state := state w;
        clock_reads := clock_reads w; chat_posts := chat_posts w;
        log_posts := log_posts w; alerts := alerts w ++ [text] |}).

(** [threads.find((t) => t.id === threadId)] *)
Definition find_thread (threadId : jsstring) (l : list Thread)
  : option Thread :=
  List.find (fun t => eqb (id t) threadId) l.

(** [thread.messages.push(msg)] on the object [find] returned: the
    first thread with this id, which the state shares, gains [msg]. *)
Fixpoint push_first (threadId : jsstring) (msg : Message) (l : list Thread)
  : list Thread :=
  match l with
  | [] => []
  | t :: r =>
      if eqb (id t) threadId
      then {| id := id t; messages := messages t ++ [msg] |} :: r
      else t :: push_first threadId msg r
  end.

(** The push as the state sees it: nothing when the thread is the
    fresh object [{ id, messages: [] }] that no state holds. *)
Definition push_shared (found : option Thread) (threadId : jsstring)
    (msg : Message) : M World unit :=
  fun w =>
    match found with
    | Some _ =>
        (Return tt,
         with_state {| activeAgent := activeAgent (state w);
                       activeThreadId := activeThreadId (state w);
                       threads := push_first threadId msg (threads (state w));
                       loading := loading (state w) |} w)
    | None => (Return tt, w)
    end.

(** The record [logMemory] posts; [aslSummary] is left out of the text
    when it is [undefined]. *)
Definition log_entry (threadId agentName prompt response : jsstring)
    (aslSummary : option jsstring) (timestamp : TimeValue) : json :=
  JObj ([(js "threadId", JStr threadId);
         (js "agentName", JStr agentName);
         (js "prompt", JStr prompt);
         (js "response", JStr response)]
        ++ match aslSummary with
           | Some s => [(js "aslSummary", JStr s)]
           | None => []
           end
        ++ [(js "timestamp", JNum (of_Z (ms timestamp)))]).

(** The loop of [handleAnalysis]: the messages are taken two by two,
    at the indices [i] and [i + 1] for even [i]; a couple counts when
    its first message is the user's and its second an agent's. *)
Fixpoint analysis_pairs (l : list Message) : list AslParser.Pair :=
  match l with
  | a :: b :: rest =>
      match role a, role b with
      | user, agent =>
          {| AslParser.prompt := content a; AslParser.response := content b |}
            :: analysis_pairs rest
      | _, _ => analysis_pairs rest
      end
  | _ => []
  end.

Section Network.

(** What [Date.now()] gives at its n-th reading, and what the two
    endpoints answer: the [content] of the chat gateway's reply, or the
    failure of the call or of [res.json()]; for the memory log, whether
    [fetch] fails. *)
Variable clock : nat -> TimeValue.
Variable chat : ChatWithPremier.RequestBody -> Outcome jsstring.
Variable post_log : jsstring -> Outcome unit.

Definition Date_now : M World TimeValue :=
  fun w =>
    (Return (clock (clock_reads w)),
     {| browser := browser w; state := state w;
        clock_reads := S (clock_reads w); chat_posts := chat_posts w;
        log_posts := log_posts w; alerts := alerts w |}).

(** [fetch('/api/chat-with-premier', ...)] and [res.json()] *)
Definition fetch_chat (body : ChatWithPremier.RequestBody)
  : M World jsstring :=
  fun w =>
    (chat body,
     {| browser := browser w; state := state w;
        clock_reads := clock_reads w; chat_posts := chat_posts w ++ [body];
        log_posts := log_posts w; alerts := alerts w |}).

(** [fetch('/api/memory-log', ...)] *)
Definition fetch_log (body : jsstring) : M World unit :=
  fun w =>
    (post_log body,
     {| browser := browser w; state := state w;
        clock_reads := clock_reads w; chat_posts := chat_posts w;
        log_posts := log_posts w ++ [body]; alerts := alerts w |}).

(** [logMemory(prompt, response, aslSummary, threadId, agentName)] *)
Definition logMemory (prompt response : jsstring)
    (aslSummary : option jsstring) (threadId agentName : jsstring)
  : M World unit :=
  do timestamp <- Date_now ;
  let logEntry :=
    log_entry threadId agentName prompt response aslSummary timestamp in
  try_catch
    (fetch_log (stringify logEntry))
    (fun err =>
       in_browser (Browser.console_error (js "Failed to log memory:") err)).

(** One round of the loop of [handleSend], for [agent]. *)
Definition handleSend_round (prompt activeThreadId agent : jsstring)
    (newThreads : list Thread) : M World (list Thread) :=
  let found := find_thread activeThreadId newThreads in
  let before := match found with Some t => messages t | None => [] end in
  do t1 <- Date_now ;
  let userMsg := {| role := user; agentName := None; content := prompt;
                    timestamp := Some t1 |} in
  run push_shared found activeThreadId userMsg ;
  do data <- fetch_chat
               (AgentChat.chat_request prompt (before ++ [userMsg]) agent) ;
  do t2 <- Date_now ;
  let agentMsg := {| role := ThreadManager.agent; agentName := Some agent;
                     content := data; timestamp := Some t2 |} in
  run push_shared found activeThreadId agentMsg ;
  let all := before ++ [userMsg; agentMsg] in
  run logMemory prompt data None activeThreadId agent ;
  run in_browser (saveMessagesToThread activeThreadId all) ;
  ret (map (fun t =>
              if eqb (id t) activeThreadId
              then {| id := activeThreadId; messages := all |}
              else t)
           newThreads).

Fixpoint handleSend_rounds (prompt activeThreadId : jsstring)
    (agentsToSend : list jsstring) (newThreads : list Thread)
  : M World (list Thread) :=
  match agentsToSend with
  | [] => ret newThreads
  | a :: rest =>
      do newThreads' <-
        handleSend_round prompt activeThreadId a newThreads ;
      handleSend_rounds prompt activeThreadId rest newThreads'
  end.

(** [handleSend(prompt, broadcast)] *)
Definition handleSend (prompt : jsstring) (broadcast : bool) : M World unit :=
  do s <- get_state ;
  run setLoading true ;
  let agentsToSend :=
    if broadcast then AgentChat.AGENTS else [activeAgent s] in
  do newThreads <-
    handleSend_rounds prompt (activeThreadId s) agentsToSend (threads s) ;
  run setThreads newThreads ;
  setLoading false.

(** [handleCreateThread()] *)
Definition handleCreateThread : M World unit :=
  do s <- get_state ;
  do now <- Date_now ;
  do newId <- in_browser (createNewThreadId (ms now)) ;
  run setThreads ({| id := newId; messages := [] |} :: threads s) ;
  setActiveThreadId newId.

(** [handleAnalysis()] *)
Definition handleAnalysis : M World unit :=
  do s <- get_state ;
  match find_thread (activeThreadId s) (threads s) with
  | None => ret tt
  | Some thread =>
      let pairs := analysis_pairs (messages thread) in
      let aslSummary := AslParser.runIntrospectiveAnalysis pairs in
      run logMemory [] [] (Some aslSummary) (activeThreadId s) (activeAgent s) ;
      alert (js "Introspective analysis completed and logged.")
  end.

(** A call of an [async] function that is not awaited: the caller goes
    on whatever becomes of the promise. *)
Definition not_awaited {A} (c : M World A) : M World unit :=
  fun w => (Return tt, snd (c w)).

(** [handleSubmit] of [AgentInput], whose [onSend] is
    [(prompt) => handleSend(prompt, false)]; the text field of the
    form, which [setPrompt('')] clears, is not part of the page
    modelled here. *)
Definition handleSubmit (prompt : jsstring) : M World unit :=
  if truthy (trim prompt) then not_awaited (handleSend prompt false)
  else ret tt.

End Network.

End ChatPage.

(** ** Properties used in the statements below *)

Module JsonSpec.
Import JsString JsNumber Json.

(** The text [k] that follows a number literal does not go on with it. *)
Definition number_end (k : jsstring) : Prop :=
  match k with
  | [] => True
  | c :: _ => is_digit c = false /\ c <> 46%N /\ c <> 101%N /\ c <> 69%N
  end.

(** A character that is neither a digit nor one of [- . e + I n f i t y]
    does not occur in the text of a number. *)
Definition outside_numbers (c : N) : Prop :=
  is_digit c = false
  /\ Forall (fun x => c <> x) (js "-.e+Infinity").

(** What the first character of a printed value can be. *)
Definition value_head (c : N) : Prop :=
  is_ws c = false /\ c <> 93%N /\ c <> 125%N.

(** [v] is read back from its text, given enough fuel. *)
Definition reads_back (v : json) : Prop :=
  forall fuel k, fuel_value v <= fuel -> number_end k ->
    parse_value fuel (print v k) = Some (v, k).

(** The text of [v] is at least as long as the fuel it needs. *)
Definition long_enough (v : json) : Prop :=
  forall k, fuel_value v + length k <= length (print v k).

(** The text of [v] holds no line feed. *)
Definition one_line (v : json) : Prop :=
  forall k, has_char 10 (print v k) = has_char 10 k.

End JsonSpec.

Module ExportSpec.
Import JsString ThreadManager.

(** The heading of a message: ['User Input'] for the user's, the
    agent's name for another's, ['Agent Response'] when that name is
    missing or empty. *)
Definition heads (m : Message) (h : jsstring) : Prop :=
  match role m, agentName m with
  | user, _ => h = js "User Input"
  | _, Some (c :: a) => h = c :: a
  | _, _ => h = js "Agent Response"
  end.

(** The text around the contents in an export: what comes before the
    first content, between two contents, and after the last. *)
Fixpoint frame_rest (headings : list jsstring) : list jsstring :=
  match headings with
  | [] => [[10%N]]
  | h :: hs =>
      ([10; 10]%N ++ js "---" ++ [10; 10]%N ++ js "### " ++ h ++ [10%N])
        :: frame_rest hs
  end.

Definition frame (title : jsstring) (headings : list jsstring)
  : list jsstring :=
  let top := js "# Chat Thread Log: " ++ title ++ [10; 10]%N in
  match headings with
  | [] => [top]
  | h :: hs => (top ++ js "### " ++ h ++ [10%N]) :: frame_rest hs
  end.

(** [weave [f0; f1; ...; fn] [c1; ...; cn]] is [f0 c1 f1 ... cn fn]. *)
Fixpoint weave (frame parts : list jsstring) : jsstring :=
  match frame, parts with
  | f :: frame', p :: parts' => f ++ p ++ weave frame' parts'
  | f :: _, [] => f
  | [], _ => []
  end.

End ExportSpec.

Module MemoryLogSpec.
Import JsString Json Http Node.

(** The response [{ status: "Logged" }]. *)
Definition logged : Response :=
  {| status := 200; body := JObj [(js "status", JStr (js "Logged"))] |}.

Definition log_path (w : World) (now : Date) : list jsstring :=
  (cwd w ++ [js "logs"; js "MemoryLogs"])
    ++ [js "log_" ++ iso_date now ++ js ".json"].

Definition file_text (w : World) (p : list jsstring) : jsstring :=
  default [] (files (fs w) !! p).

(** The world after one [POST] of a record that parses to [v]. *)
Definition after_post (v : json) (now : Date) (w : World) : World :=
  {| fs := {| dirs := dirs (fs w)
                      ∪ list_to_set
                          (ancestors (cwd w ++ [js "logs"; js "MemoryLogs"]));
              files := <[log_path w now :=
                           file_text w (log_path w now)
                             ++ stringify v ++ [10%N]]> (files (fs w)) |};
     cwd := cwd w |}.

(** The [k] last decimal digits of [n], the first of them first. *)
Fixpoint digits (k : nat) (n : N) : jsstring :=
  match k with
  | O => []
  | S k' => (48 + n / 10 ^ N.of_nat k' mod 10)%N :: digits k' n
  end.

(** A calendar date: the year within the range of [Date], the month
    from 1 to 12, the day from 1 to 31. *)
Definition calendar (d : Date) : Prop :=
  (-271821 <= year d <= 275760)%Z
  /\ (1 <= month d <= 12)%N /\ (1 <= day d <= 31)%N.

(** [YYYY-MM-DD], and a sign with six digits for a year that is not
    from 0 to 9999. *)
Definition date_text (d : Date) : jsstring :=
  (if ((0 <=? year d) && (year d <=? 9999))%Z
   then digits 4 (Z.to_N (year d))
   else (if (year d <? 0)%Z then 45%N else 43%N)
          :: digits 6 (Z.to_N (Z.abs (year d))))
    ++ [45%N] ++ digits 2 (month d) ++ [45%N] ++ digits 2 (day d).

(** The digits of [n] with the last of them first, [k] of them. *)
Fixpoint little_digits (k : nat) (n : N) : Decimal.uint :=
  match k with
  | O => Decimal.Nil
  | S k' =>
      (match (n mod 10)%N with
       | 0 => Decimal.D0 | 1 => Decimal.D1 | 2 => Decimal.D2
       | 3 => Decimal.D3 | 4 => Decimal.D4 | 5 => Decimal.D5
       | 6 => Decimal.D6 | 7 => Decimal.D7 | 8 => Decimal.D8
       | _ => Decimal.D9
       end)%N (little_digits k' (n / 10))
  end.

End MemoryLogSpec.

Module ChatSpec.
Import JsString Json ChatWithPremier.

Definition user_message (text : jsstring) : ChatMessage :=
  {| role := js "user"; content := text |}.

Definition request_for (req : RequestBody) : CompletionRequest :=
  {| model := js "gpt-4o";
     messages := system_preamble
                   :: context_or_empty (context req)
                   ++ [user_message (prompt req)];
     temperature := (7 # 10)%Q;
     max_tokens := 1000 |}.

(** The system message and the request of the gateway, written out. *)
Definition preamble : ChatMessage :=
  {| role := js "system";
     content := js "You are Premier, the primary agent of AetheroOS, orchestrating Signal Root with introspective reasoning in ASL." |}.

Definition request_of (text : jsstring) (ctx : list ChatMessage)
  : CompletionRequest :=
  {| model := js "gpt-4o";
     messages := preamble :: ctx ++ [{| role := js "user"; content := text |}];
     temperature := (7 # 10)%Q;
     max_tokens := 1000 |}.

(** How many requests a call of the client sends to a provider that
    does [a0], [a1], [a2] with the next three it receives, and how the
    call ends. *)
Definition requests_sent (a0 a1 : Attempt) : nat :=
  match a0 with
  | Failed true _ =>
      match a1 with
      | Failed true _ => 3
      | _ => 2
      end
  | _ => 1
  end.

Definition last_attempt (a0 a1 a2 : Attempt) : Attempt :=
  match a0 with
  | Failed true _ =>
      match a1 with
      | Failed true _ => a2
      | _ => a1
      end
  | _ => a0
  end.

(** The text the gateway answers with: the content of the first
    choice, the empty string when there is none. *)
Definition answer_text (response : Completion) (text : jsstring) : Prop :=
  match choices response with
  | [] => text = []
  | c :: _ =>
      (forall t, message_content c = Some (Some t) -> text = t)
      /\ (message_content c = None \/ message_content c = Some None ->
          text = [])
  end.

End ChatSpec.

Module AslParserSpec.
Import JsString Json AslParser.

(** What the summary says of one pair. *)
Definition summarises (p : Pair) (e : json) : Prop :=
  exists about reply : jsstring,
    e = JObj [(js "intent", JStr (js "Analyzed: " ++ about ++ js "..."));
              (js "reasoning", JStr (js "Response: " ++ reply ++ js "..."));
              (js "aslOutput",
               JObj [(js "module", JStr (js "PremierChat"));
                     (js "action", JStr (js "reflect"));
                     (js "purpose", JStr (js "Introspective synthesis"))])]
    /\ length about <= 50
    /\ length reply <= 50
    /\ startsWith (prompt p) about = true
    /\ startsWith (response p) reply = true
    /\ length about = Nat.min 50 (length (prompt p))
    /\ length reply = Nat.min 50 (length (response p)).

(** Two pairs that agree on the first 50 code units of the prompt and
    of the response. *)
Definition same_excerpts (p q : Pair) : Prop :=
  slice0 50 (prompt p) = slice0 50 (prompt q)
  /\ slice0 50 (response p) = slice0 50 (response q).

End AslParserSpec.

Module ThreadIndexSpec.
Import JsString Browser ThreadManager.

(** The ids [getAllThreadIds] returns in [w]. *)
Definition listed (w : World) : list jsstring :=
  match fst (getAllThreadIds w) with
  | Return ids => ids
  | Throw _ => []
  end.

End ThreadIndexSpec.

Module ChatPageSpec.
Import JsString JsNumber Json ThreadManager ChatPage.

(** The messages the page shows for a thread id: those of the first
    thread of the state with this id. *)
Definition shown (w : World) (threadId : jsstring) : option (list Message) :=
  option_map messages (find_thread threadId (threads (state w))).

Definition user_message (prompt : jsstring) (t : TimeValue) : Message :=
  {| role := user; agentName := None; content := prompt;
     timestamp := Some t |}.

Definition agent_message (name reply : jsstring) (t : TimeValue) : Message :=
  {| role := agent; agentName := Some name; content := reply;
     timestamp := Some t |}.

(** An exchange is a user's message followed by an agent's. *)
Definition exchange (e : Message * Message) : Prop :=
  role (fst e) = user /\ role (snd e) = agent.

(** The messages of a list of exchanges, in order. *)
Definition flatten (l : list (Message * Message)) : list Message :=
  flat_map (fun e => [fst e; snd e]) l.

Definition pair_of (e : Message * Message) : AslParser.Pair :=
  {| AslParser.prompt := content (fst e);
     AslParser.response := content (snd e) |}.

(** Whether every code unit of [s] is white space. *)
Fixpoint blank (s : jsstring) : bool :=
  match s with
  | c :: r => is_space c && blank r
  | [] => true
  end.

(** The store after [saveMessagesToThread id messages]. *)
Definition stored_after (threadId : jsstring) (l : list Message)
    (st : Browser.Storage) : Browser.Storage :=
  if rejected_id threadId then st
  else if Browser.fits threadId (stringify (Messages_toJSON l)) st
       then {| Browser.items :=
                 <[threadId := stringify (Messages_toJSON l)]>
                   (Browser.items st);
               Browser.quota := Browser.quota st |}
       else st.

(** [newThreads.map((t) => (t.id === thread.id ? thread : t))] *)
Definition replace_thread (threadId : jsstring) (l : list Message)
    (ts : list Thread) : list Thread :=
  map (fun t =>
         if eqb (id t) threadId
         then {| id := threadId; messages := l |}
         else t)
      ts.

(** The browser after [logMemory], whose [fetch] ended with [o]. *)
Definition after_log (o : Outcome unit) (b : Browser.World) : Browser.World :=
  match o with
  | Return _ => b
  | Throw e => snd (Browser.console_error (js "Failed to log memory:") e b)
  end.

(** The threads of the state after the pushes of one round. *)
Definition pushed (found : option Thread) (threadId : jsstring)
    (l : list Message) (ts : list Thread) : list Thread :=
  match found with
  | Some _ => fold_left (fun ts m => push_first threadId m ts) l ts
  | None => ts
  end.

(** The record [handleAnalysis] posts, written out. *)
Definition analysis_record (threadId agentName summary : jsstring)
    (t : TimeValue) : json :=
  JObj [(js "threadId", JStr threadId);
        (js "agentName", JStr agentName);
        (js "prompt", JStr []);
        (js "response", JStr []);
        (js "aslSummary", JStr summary);
        (js "timestamp", JNum (Dyadic (ms t) 0))].

End ChatPageSpec.

(** ** Sample values *)

Module Samples.
Import JsString JsNumber Json Browser ThreadManager.

(** JSON text written with ['] for the double quote. *)
Definition json_text (s : string) : jsstring :=
  map (fun c => if (c =? 39)%N then 34%N else c) (js s).

(** A browser whose [localStorage] is empty and has room for [q]
    code units; [q = 0] is a store that takes nothing more. *)
Definition browser (q : nat) : World :=
  {| localStorage := {| items := ∅; quota := q |}; console := [] |}.

Definition hello : Message :=
  {| role := user; agentName := None; content := js "hello";
     timestamp := Some (time_value 1717000000000) |}.

Definition reply : Message :=
  {| role := agent; agentName := Some (js "Premier");
     content := js "welcome";
     timestamp := Some (time_value 1717000000750) |}.

Definition june_7 : Node.Date :=
  {| Node.year := 2025; Node.month := 6; Node.day := 7;
     Node.hours := 21; Node.minutes := 8; Node.seconds := 0;
     Node.milliseconds := 45 |}.

(** A server started in [/srv/app], with no [logs] directory yet. *)
Definition server : Node.World :=
  {| Node.fs := {| Node.dirs := {[ []; [js "srv"]; [js "srv"; js "app"] ]};
                   Node.files := ∅ |};
     Node.cwd := [js "srv"; js "app"] |}.

(** A log record with a fraction, white space, an array index among
    its keys and a key written twice, and the line it becomes. *)
Definition log_text : jsstring :=
  json_text "{ 'prompt': 'hello', 'score': 0.750, '7': [true, null], 'prompt': 'hi!' }".

Definition log_line : jsstring :=
  json_text "{'7':[true,null],'prompt':'hi!','score':0.75}".

Definition thread_id : jsstring := js "aeth_chat_thread_1717000000000".

(** A browser with room for 100 code units that holds the thread
    [thread_id] with the one message [hello]. *)
Definition small_browser : World :=
  {| localStorage :=
       {| items := {[ thread_id :=
                        Json.stringify (Messages_toJSON [hello]) ]};
          quota := 100 |};
     console := [] |}.

(** A browser whose store holds [text] under [thread_id]. *)
Definition browser_with (text : jsstring) : World :=
  {| localStorage := {| items := {[ thread_id := text ]}; quota := 1000 |};
     console := [] |}.

(** A clock that advances by one millisecond at each reading, a chat
    gateway that always answers ["welcome"], one that is down, and a
    memory log that accepts every post. *)
Definition ticking (n : nat) : TimeValue :=
  time_value (1717000000000 + Z.of_nat n).

Definition welcoming (_ : ChatWithPremier.RequestBody) : Outcome jsstring :=
  Return (js "welcome").

Definition unreachable (_ : ChatWithPremier.RequestBody) : Outcome jsstring :=
  Throw (ProviderError (js "Failed to fetch")).

Definition logging (_ : jsstring) : Outcome unit := Return tt.

(** The chat page with the empty thread [thread_id] open, and Premier
    as the active agent. *)
Definition page : ChatPage.World :=
  {| ChatPage.browser :=
       {| localStorage :=
            {| items := {[ thread_id := js "[]" ]}; quota := 1000 |};
          console := [] |};
     ChatPage.state :=
       {| ChatPage.activeAgent := js "Premier";
          ChatPage.activeThreadId := thread_id;
          ChatPage.threads :=
            [{| ChatPage.id := thread_id; ChatPage.messages := [] |}];
          ChatPage.loading := false |};
     ChatPage.clock_reads := 0;
     ChatPage.chat_posts := [];
     ChatPage.log_posts := [];
     ChatPage.alerts := [] |}.

(** The chat page as it is first rendered: no thread yet. *)
Definition first_page : ChatPage.World :=
  {| ChatPage.browser := browser 1000;
     ChatPage.state :=
       {| ChatPage.activeAgent := js "Premier";
          ChatPage.activeThreadId := [];
          ChatPage.threads := [];
          ChatPage.loading := false |};
     ChatPage.clock_reads := 0;
     ChatPage.chat_posts := [];
     ChatPage.log_posts := [];
     ChatPage.alerts := [] |}.

(** The gateway's server with a key, before any request; a hosted API
    that answers ["welcome"] to every request, one that is overloaded
    (status 503), and one that refuses the key (status 401). *)
Definition gateway : ChatWithPremier.World :=
  {| ChatWithPremier.OPENAI_API_KEY := Some (js "sk-test");
     ChatWithPremier.sent := [] |}.

Definition answering (_ : nat) (_ : ChatWithPremier.CompletionRequest)
  : ChatWithPremier.Attempt :=
  ChatWithPremier.Answered
    {| ChatWithPremier.choices :=
         [{| ChatWithPremier.message_content := Some (Some (js "welcome")) |}] |}.

Definition overloaded (_ : nat) (_ : ChatWithPremier.CompletionRequest)
  : ChatWithPremier.Attempt :=
  ChatWithPremier.Failed true (ProviderError (js "503 Service Unavailable")).

Definition refusing (_ : nat) (_ : ChatWithPremier.CompletionRequest)
  : ChatWithPremier.Attempt :=
  ChatWithPremier.Failed false (ProviderError (js "401 Unauthorized")).

End Samples.

(** * Facts about the platform model *)

Module JsStringFacts.
Import JsString.

Lemma eqb_eq (a b : jsstring) : eqb a b = true <-> a = b.
Proof.
  revert b. induction a as [|x a IH]; intros [|y b]; simpl;
    try (split; (reflexivity || discriminate)).
  rewrite andb_true_iff, N.eqb_eq, IH. split.
  - intros [-> ->]. reflexivity.
  - intros [= -> ->]. auto.
Qed.

Lemma eqb_refl (a : jsstring) : eqb a a = true.
Proof. now apply eqb_eq. Qed.

Lemma eqb_neq (a b : jsstring) : eqb a b = false <-> a <> b.
Proof.
  rewrite <- eqb_eq. destruct (eqb a b); split; congruence.
Qed.

Lemma startsWith_app (p s : jsstring) : startsWith (p ++ s) p = true.
Proof.
  induction p as [|x p IH]; simpl; [reflexivity |].
  now rewrite N.eqb_refl.
Qed.

Lemma has_char_app (c : N) (a b : jsstring) :
  has_char c (a ++ b) = has_char c a || has_char c b.
Proof.
  induction a as [|x a IH]; simpl; [reflexivity |].
  now rewrite IH, orb_assoc.
Qed.

Lemma length_slice0 (n : nat) (s : jsstring) :
  length (slice0 n s) = Nat.min n (length s).
Proof.
  revert s; induction n as [|n IH]; intros [|c s]; simpl; auto.
Qed.

Lemma startsWith_slice0 (n : nat) (s : jsstring) :
  startsWith s (slice0 n s) = true.
Proof.
  revert s; induction n as [|n IH]; intros [|c s]; simpl; auto.
  now rewrite N.eqb_refl.
Qed.

Lemma slice_from_app (p s : jsstring) : slice_from (length p) (p ++ s) = s.
Proof. induction p as [|x p IH]; cbn; [now destruct s | exact IH]. Qed.

Lemma replace_prefix (p s : jsstring) : replace_first_empty p (p ++ s) = s.
Proof.
  assert (E : forall t,
             replace_first_empty p t
             = if startsWith t p then slice_from (length p) t
               else match t with
                    | [] => []
                    | c :: t' => c :: replace_first_empty p t'
                    end)
    by (intros [|c t]; reflexivity).
  now rewrite E, startsWith_app, slice_from_app.
Qed.

Lemma split_head_app (sep : N) (a b : jsstring) :
  has_char sep a = false -> split_head sep (a ++ sep :: b) = a.
Proof.
  induction a as [|x a IH]; cbn [app split_head has_char].
  - now rewrite N.eqb_refl.
  - intros H. apply orb_false_iff in H as [Hx Ha].
    rewrite Hx. now rewrite IH.
Qed.

End JsStringFacts.

Module JsNumberFacts.
Import JsString JsStringFacts JsNumber JsonSpec.
Local Open Scope Z_scope.

(** **** Decimal digits *)

Lemma read_digits_units (d : Decimal.uint) (k : jsstring) :
  number_end k -> read_digits (units_of_uint d ++ k) = (d, k).
Proof.
  intros Hk. induction d; cbn [units_of_uint app];
    try (cbn [read_digits]; cbn; rewrite IHd; reflexivity).
  destruct k as [|c k]; [reflexivity |].
  cbn [read_digits]. destruct Hk as [-> _]. reflexivity.
Qed.

Lemma to_uint_no_leading_zero (p : positive) (d : Decimal.uint) :
  Pos.to_uint p <> Decimal.D0 d.
Proof.
  intros E.
  assert (Hn : Decimal.unorm (Pos.to_uint p) = Pos.to_uint p).
  { rewrite <- DecimalPos.Unsigned.to_of, DecimalPos.Unsigned.of_to.
    reflexivity. }
  rewrite E, unorm_D0 in Hn.
  unfold Decimal.unorm in Hn.
  pose proof (nb_digits_nzhead d) as Hle.
  destruct (Decimal.nzhead d) eqn:Hz; try discriminate.
  - injection Hn as <-.
    apply (DecimalPos.Unsigned.to_uint_nonzero p). exact E.
  - injection Hn as Hd. rewrite Hd in Hle. simpl in Hle. lia.
Qed.

Lemma N_to_uint_shape (n : N) :
  N.to_uint n <> Decimal.Nil
  /\ forall d, N.to_uint n = Decimal.D0 d -> d = Decimal.Nil.
Proof.
  split.
  - destruct n; [discriminate | apply DecimalPos.Unsigned.to_uint_nonnil].
  - intros d E. destruct n as [|p]; simpl in E.
    + now injection E.
    + now apply to_uint_no_leading_zero in E.
Qed.

Lemma units_head (d : Decimal.uint) :
  d <> Decimal.Nil ->
  exists c r, units_of_uint d = c :: r /\ is_digit c = true.
Proof. destruct d; [congruence | ..]; intros _; simpl; eauto. Qed.

Lemma decimal_head (n : N) :
  exists c r, decimal n = c :: r /\ is_digit c = true.
Proof. apply units_head, N_to_uint_shape. Qed.

Lemma Number_toString_head (z : Z) :
  exists c r, Number_toString z = c :: r
              /\ (is_digit c = true \/ c = 45%N).
Proof.
  unfold Number_toString. destruct (z <? 0).
  - eauto.
  - destruct (decimal_head (Z.abs_N z)) as (c & r & -> & Hc). eauto.
Qed.

Lemma has_char_units (c : N) (d : Decimal.uint) :
  is_digit c = false -> has_char c (units_of_uint d) = false.
Proof.
  intros Hc.
  induction d; cbn [units_of_uint has_char]; [reflexivity | ..];
    rewrite IHd;
    match goal with
    | |- ((?x =? c)%N || false)%bool = false =>
        destruct (N.eqb_spec x c) as [<- | _];
        [discriminate Hc | reflexivity]
    end.
Qed.

Lemma has_char_Number_toString (c : N) (z : Z) :
  is_digit c = false -> c <> 45%N ->
  has_char c (Number_toString z) = false.
Proof.
  intros Hc Hm. unfold Number_toString, decimal.
  destruct (z <? 0); cbn [has_char]; rewrite has_char_units by assumption;
    [| reflexivity].
  destruct (N.eqb_spec 45 c) as [E | _]; [now subst c | reflexivity].
Qed.

Lemma has_char_zeros (c : N) (n : nat) :
  c <> 48%N -> has_char c (zeros n) = false.
Proof.
  intros Hc. unfold zeros.
  induction n as [|n IH]; cbn [repeat has_char]; [reflexivity |].
  rewrite IH. destruct (N.eqb_spec 48 c) as [E | _];
    [now subst c | reflexivity].
Qed.

Lemma has_char_take (c : N) (n : nat) (s : jsstring) :
  has_char c s = false -> has_char c (take n s) = false.
Proof.
  revert n. induction s as [|x s IH]; intros [|n]; cbn; auto.
  intros H. apply orb_false_iff in H as [-> H]. cbn. auto.
Qed.

Lemma has_char_drop (c : N) (n : nat) (s : jsstring) :
  has_char c s = false -> has_char c (drop n s) = false.
Proof.
  revert n. induction s as [|x s IH]; intros [|n]; cbn; auto.
  intros H. apply orb_false_iff in H as [_ H]. auto.
Qed.

Lemma has_char_format (c : N) (ds : jsstring) (n : Z) :
  outside_numbers c -> has_char c ds = false ->
  has_char c (format ds n) = false.
Proof.
  intros [Hd Hc] Hds. unfold format. cbv zeta.
  assert (H48 : c <> 48%N) by (intros ->; discriminate Hd).
  assert (Hne : forall x, In x (js "-.e+Infinity") -> (x =? c)%N = false).
  { intros x Hx. apply N.eqb_neq. intros <-.
    rewrite List.Forall_forall in Hc. now apply (Hc x). }
  assert (H45 : (45 =? c)%N = false) by (apply Hne; cbn; tauto).
  assert (H46 : (46 =? c)%N = false) by (apply Hne; cbn; tauto).
  assert (H101 : (101 =? c)%N = false) by (apply Hne; cbn; tauto).
  assert (H43 : (43 =? c)%N = false) by (apply Hne; cbn; tauto).
  assert (H48' : (48 =? c)%N = false) by (now apply N.eqb_neq).
  assert (He : forall e : Z,
             has_char c ([101%N; if e <? 0 then 45%N else 43%N]
                           ++ decimal (Z.abs_N e)) = false).
  { intros e. cbn [app has_char]. rewrite H101.
    destruct (e <? 0); rewrite ?H45, ?H43; cbn [orb];
      apply has_char_units; assumption. }
  destruct ((_ <=? n) && (n <=? 21)).
  { rewrite has_char_app, Hds, has_char_zeros by assumption. reflexivity. }
  destruct ((0 <? n) && (n <=? 21)).
  { rewrite !has_char_app, has_char_take, has_char_drop by assumption.
    cbn [has_char]. now rewrite H46. }
  destruct ((-6 <? n) && (n <=? 0)).
  { rewrite !has_char_app, Hds, has_char_zeros by assumption.
    cbn [has_char]. now rewrite H48', H46. }
  destruct ds as [|d [|d' r]].
  - apply He.
  - rewrite has_char_app, He. cbn [has_char] in *. now rewrite Hds.
  - rewrite 2 has_char_app, He. cbn [has_char] in *.
    apply orb_false_iff in Hds as [-> Hds]. rewrite H46, Hds. reflexivity.
Qed.

Lemma has_char_to_string (c : N) (x : number) :
  outside_numbers c -> has_char c (to_string x) = false.
Proof.
  intros Hc. pose proof Hc as [Hd Hl].
  assert (Hne : forall y, In y (js "-.e+Infinity") -> (y =? c)%N = false).
  { intros y Hy. apply N.eqb_neq. intros <-.
    rewrite List.Forall_forall in Hl. now apply (Hl y). }
  assert (H48 : (48 =? c)%N = false).
  { apply N.eqb_neq. intros <-. discriminate Hd. }
  assert (H45 : c <> 45%N).
  { intros ->. specialize (Hne 45%N). cbn in Hne.
    assert (true = false) by (apply Hne; tauto). discriminate. }
  destruct x as [m k | | |]; cbn [to_string].
  - destruct (m =? 0); [cbn [has_char]; now rewrite H48 |].
    destruct ((k =? 0)%N && safe m);
      [now apply has_char_Number_toString |].
    destruct (shortest (Z.abs m) k) as [s e].
    rewrite has_char_app, has_char_format;
      [| assumption | now apply has_char_units].
    destruct (m <? 0); cbn [has_char orb]; [| reflexivity].
    apply N.eqb_neq in H45. rewrite N.eqb_sym in H45. now rewrite H45.
  - cbn [has_char]. now rewrite H48.
  - cbn [js list_ascii_of_string map has_char].
    repeat (rewrite Hne by (cbn; tauto)). reflexivity.
  - cbn [js list_ascii_of_string map has_char].
    repeat (rewrite Hne by (cbn; tauto)). reflexivity.
Qed.

(** **** An integer that is safe is its own nearest number *)

Lemma reduce_pow2 (a : Z) (n : nat) :
  reduce n (a * 2 ^ Z.of_nat n) (N.of_nat n) = Dyadic a 0.
Proof.
  induction n as [|n IH].
  - cbn. now rewrite Z.mul_1_r.
  - cbn [reduce].
    destruct (N.eqb_spec (N.of_nat (S n)) 0) as [E | _]; [lia |].
    assert (E : a * 2 ^ Z.of_nat (S n) = 2 * (a * 2 ^ Z.of_nat n)).
    { rewrite Nat2Z.inj_succ, Z.pow_succ_r by lia. ring. }
    rewrite E, Z.even_mul. cbn [Z.even orb].
    replace (2 * (a * 2 ^ Z.of_nat n) / 2) with (a * 2 ^ Z.of_nat n)
      by (symmetry; rewrite (Z.mul_comm 2); apply Z.div_mul; lia).
    replace (N.pred (N.of_nat (S n))) with (N.of_nat n) by lia.
    exact IH.
Qed.

Lemma round_half_even_1 (z : Z) : round_half_even z 1 = z.
Proof.
  unfold round_half_even. rewrite Z.mod_1_r, Z.div_1_r. reflexivity.
Qed.

Lemma floor_log2_1 (z : Z) : 0 < z -> floor_log2 z 1 = Z.log2 z.
Proof.
  intros Hz. unfold floor_log2, ge_pow2.
  change (Z.log2 1) with 0. rewrite Z.sub_0_r.
  pose proof (Z.log2_nonneg z) as Hn.
  destruct (Z.leb_spec 0 (Z.log2 z)) as [_ | ?]; [| lia].
  rewrite Z.mul_1_l.
  destruct (Z.leb_spec (2 ^ Z.log2 z) z) as [_ | H]; [reflexivity |].
  pose proof (Z.log2_spec z Hz). lia.
Qed.

Lemma nearest_safe (negative : bool) (z : Z) :
  0 < z -> z < 2 ^ 53 ->
  nearest negative z 1 = Dyadic (if negative then - z else z) 0.
Proof.
  intros Hz Hs. unfold nearest.
  destruct (Z.eqb_spec z 0) as [? | _]; [lia |].
  rewrite floor_log2_1 by assumption.
  pose proof (Z.log2_nonneg z) as Hn.
  assert (Hl : Z.log2 z < 53) by (now apply Z.log2_lt_pow2).
  rewrite Z.max_l by lia.
  set (L := Z.log2 z) in *.
  destruct (Z.leb_spec 0 (L - 52)) as [H0 | H0].
  - assert (EL : L - 52 = 0) by lia. rewrite EL.
    change (2 ^ 0) with 1. rewrite Z.mul_1_l, round_half_even_1.
    destruct (Z.eqb_spec z 0) as [? | _]; [lia |].
    rewrite !Z.mul_1_r.
    destruct (Z.leb_spec (2 ^ 1024) z) as [H | _].
    { exfalso. assert (2 ^ 53 < 2 ^ 1024) by (apply Z.pow_lt_mono_r; lia).
      lia. }
    cbn [andb]. reflexivity.
  - rewrite round_half_even_1.
    assert (Hp : 0 < 2 ^ (- (L - 52))) by (apply Z.pow_pos_nonneg; lia).
    destruct (Z.eqb_spec (z * 2 ^ (- (L - 52))) 0) as [E | _]; [nia |].
    cbn [andb]. unfold dyadic.
    replace (- (L - 52)) with (Z.of_nat (Z.to_nat (52 - L))) by lia.
    replace (Z.to_N (Z.of_nat (Z.to_nat (52 - L))))
      with (N.of_nat (Z.to_nat (52 - L))) by lia.
    rewrite Nat2N.id.
    destruct negative.
    + rewrite <- Z.mul_opp_l. apply reduce_pow2.
    + apply reduce_pow2.
Qed.

Lemma of_decimal_safe (negative : bool) (z : Z) :
  0 < z -> z < 2 ^ 53 ->
  of_decimal negative z 0 = Dyadic (if negative then - z else z) 0.
Proof.
  intros Hz Hs. unfold of_decimal.
  destruct (Z.eqb_spec z 0) as [? | _]; [lia |].
  change (400 <? 0) with false. cbv iota.
  pose proof (Z.log2_nonneg z) as Hn.
  assert (0 <= Z.log2 z / 3) by (apply Z.div_pos; lia).
  destruct (Z.ltb_spec (0 + Z.log2 z / 3 + 2) (-330)) as [? | _]; [lia |].
  change (0 <=? 0) with true. cbv iota.
  change (10 ^ 0) with 1. rewrite Z.mul_1_r.
  now apply nearest_safe.
Qed.

(** **** Reading back the text of a safe integer *)

Lemma read_unsigned_decimal (negative : bool) (n : N) (k : jsstring) :
  number_end k ->
  read_unsigned negative (decimal n ++ k)
  = Some (of_decimal negative (Z.of_N n) 0, k).
Proof.
  intros Hk. unfold read_unsigned, decimal.
  rewrite read_digits_units by assumption.
  destruct (N_to_uint_shape n) as [Hnil Hz].
  assert (Hrest : read_fraction k = Some (Decimal.Nil, k)
                  /\ read_exponent k = Some (0, k)).
  { destruct k as [|c k]; [split; reflexivity |].
    destruct Hk as (_ & H46 & H101 & H69).
    unfold read_fraction, read_exponent.
    apply N.eqb_neq in H46, H101, H69. now rewrite H46, H101, H69. }
  destruct Hrest as [Hf He].
  assert (Hgo :
    match read_fraction k with
    | None => None
    | Some (frac, s2) =>
        match read_exponent s2 with
        | None => None
        | Some (e, rest) =>
            Some (of_decimal negative
                    (Z.of_N (N.of_uint (Decimal.app (N.to_uint n) frac)))
                    (e - Z.of_nat (Decimal.nb_digits frac)), rest)
        end
    end = Some (of_decimal negative (Z.of_N n) 0, k)).
  { rewrite Hf, He. cbn [Decimal.nb_digits Z.of_nat Z.sub Z.opp].
    rewrite DecimalFacts.app_nil_r, DecimalN.Unsigned.of_to. reflexivity. }
  destruct (N.to_uint n) as [|d|d|d|d|d|d|d|d|d|d] eqn:E;
    try congruence; try exact Hgo.
  rewrite (Hz d eq_refl) in *. exact Hgo.
Qed.

Lemma read_number_safe (z : Z) (k : jsstring) :
  safe z = true -> number_end k ->
  read_number (Number_toString z ++ k) = Some (Dyadic z 0, k).
Proof.
  unfold safe. intros Hs Hk. apply Z.leb_le in Hs.
  change (2 ^ 53 - 1) with 9007199254740991 in Hs.
  assert (H53 : 2 ^ 53 = 9007199254740992) by reflexivity.
  unfold Number_toString.
  destruct (Z.ltb_spec z 0) as [Hneg | Hpos].
  - cbn [app read_number]. change (45 =? 45)%N with true. cbv iota.
    rewrite read_unsigned_decimal by assumption.
    rewrite of_decimal_safe by lia.
    do 3 f_equal. lia.
  - destruct (decimal_head (Z.abs_N z)) as (c & r & E & Hc).
    pose proof (read_unsigned_decimal false (Z.abs_N z) k Hk) as H.
    rewrite E in *. cbn [app read_number].
    destruct (N.eqb_spec c 45) as [-> | _]; [discriminate Hc |].
    cbn [app] in H. rewrite H.
    destruct (Z.eq_dec z 0) as [-> | Hz]; [reflexivity |].
    rewrite of_decimal_safe by lia.
    do 3 f_equal. lia.
Qed.

Lemma Number_toString_inj (z1 z2 : Z) :
  Number_toString z1 = Number_toString z2 -> z1 = z2.
Proof.
  unfold Number_toString, decimal. intros H.
  assert (Hu : forall a b, units_of_uint a = units_of_uint b -> a = b).
  { induction a; destruct b; cbn; intros E; try discriminate E;
      try reflexivity; injection E as E; f_equal; auto. }
  assert (Hd : forall a b : N,
             units_of_uint (N.to_uint a) = units_of_uint (N.to_uint b) ->
             a = b).
  { intros a b E. apply Hu in E.
    rewrite <- (DecimalN.Unsigned.of_to a), <- (DecimalN.Unsigned.of_to b).
    now rewrite E. }
  assert (Hh : forall a, exists c r, units_of_uint (N.to_uint a) = c :: r
                                     /\ c <> 45%N).
  { intros a. destruct (decimal_head a) as (c & r & E & Hc).
    exists c, r. split; [exact E |]. intros ->. discriminate Hc. }
  destruct (Z.ltb_spec z1 0), (Z.ltb_spec z2 0).
  - injection H as H. apply Hd in H. lia.
  - destruct (Hh (Z.abs_N z2)) as (c & r & E & Hc). rewrite E in H.
    congruence.
  - destruct (Hh (Z.abs_N z1)) as (c & r & E & Hc). rewrite E in H.
    congruence.
  - apply Hd in H. lia.
Qed.

End JsNumberFacts.

Module JsonFacts.
Import JsString JsStringFacts JsNumber JsonSpec JsNumberFacts Json.

(** **** String literals *)

Lemma hex_value_digit (d : N) :
  (d < 16)%N -> hex_value (hex_digit d) = Some d.
Proof.
  intros H.
  assert (E : In d [0; 1; 2; 3; 4; 5; 6; 7; 8; 9; 10; 11; 12; 13; 14; 15]%N).
  { cbn. lia. }
  cbn in E. repeat (destruct E as [<- | E]; [reflexivity |]). destruct E.
Qed.

Lemma hex4_unicode (c : N) :
  (c < 65536)%N ->
  hex4 (hex_digit (c / 4096)) (hex_digit (c / 256 mod 16))
       (hex_digit (c / 16 mod 16)) (hex_digit (c mod 16)) = Some c.
Proof.
  intros H. unfold hex4.
  assert (H1 : (c / 4096 < 16)%N).
  { apply N.Div0.div_lt_upper_bound. exact H. }
  rewrite !hex_value_digit;
    try assumption; try (apply N.mod_lt; discriminate).
  f_equal.
  pose proof (N.div_mod c 16 ltac:(discriminate)) as E1.
  pose proof (N.div_mod (c / 16) 16 ltac:(discriminate)) as E2.
  pose proof (N.div_mod (c / 256) 16 ltac:(discriminate)) as E3.
  rewrite N.Div0.div_div in E2. change (16 * 16)%N with 256%N in E2.
  rewrite N.Div0.div_div in E3. change (256 * 16)%N with 4096%N in E3.
  lia.
Qed.

Lemma parse_chars_unicode (c : N) (t : jsstring) :
  (c < 65536)%N ->
  parse_chars (unicode_escape c ++ t) = cons_char c (parse_chars t).
Proof.
  intros H. unfold unicode_escape. cbn [app parse_chars].
  change (92 =? 34)%N with false. change (92 =? 92)%N with true.
  change (117 =? 117)%N with true. cbv iota.
  now rewrite hex4_unicode.
Qed.

Lemma parse_chars_plain (c : N) (t : jsstring) :
  c <> 34%N -> c <> 92%N -> (32 <= c)%N ->
  parse_chars (c :: t) = cons_char c (parse_chars t).
Proof.
  intros H34 H92 H32. cbn [parse_chars].
  apply N.eqb_neq in H34, H92. rewrite H34, H92.
  destruct (N.ltb_spec c 32) as [? | _]; [lia | reflexivity].
Qed.

Lemma parse_chars_escape (c : N) (t : jsstring) :
  parse_chars (escape c ++ t) = cons_char c (parse_chars t).
Proof.
  unfold escape.
  destruct (N.eqb_spec c 34) as [-> | H34]; [reflexivity |].
  destruct (N.eqb_spec c 92) as [-> | H92]; [reflexivity |].
  destruct (N.eqb_spec c 8) as [-> | H8]; [reflexivity |].
  destruct (N.eqb_spec c 9) as [-> | H9]; [reflexivity |].
  destruct (N.eqb_spec c 10) as [-> | H10]; [reflexivity |].
  destruct (N.eqb_spec c 12) as [-> | H12]; [reflexivity |].
  destruct (N.eqb_spec c 13) as [-> | H13]; [reflexivity |].
  unfold is_high_surrogate, is_low_surrogate.
  destruct (N.ltb_spec c 32) as [Hlt | Hge]; cbn [orb].
  { apply parse_chars_unicode. lia. }
  destruct (N.leb_spec 55296 c), (N.leb_spec c 56319),
    (N.leb_spec 56320 c), (N.leb_spec c 57343); cbn [andb orb];
    try (apply parse_chars_unicode; lia);
    try (apply parse_chars_plain; assumption); lia.
Qed.

Lemma parse_chars_pair (c c' : N) (t : jsstring) :
  is_high_surrogate c && is_low_surrogate c' = true ->
  parse_chars (c :: c' :: t) = cons_char c (cons_char c' (parse_chars t)).
Proof.
  unfold is_high_surrogate, is_low_surrogate. intros H.
  apply andb_true_iff in H as [H1 H2].
  apply andb_true_iff in H1 as [H1 _]. apply andb_true_iff in H2 as [H2 _].
  apply N.leb_le in H1, H2.
  rewrite parse_chars_plain by lia.
  now rewrite parse_chars_plain by lia.
Qed.

Lemma quote_chars_step (c : N) (s k : jsstring) :
  quote_chars (c :: s) k
  = match s with
    | c' :: s'' =>
        if is_high_surrogate c && is_low_surrogate c'
        then c :: c' :: quote_chars s'' k
        else escape c ++ quote_chars s k
    | [] => escape c ++ quote_chars s k
    end.
Proof. destruct s; reflexivity. Qed.

Lemma parse_chars_quote_chars (s k : jsstring) :
  parse_chars (quote_chars s (34%N :: k)) = Some (s, k).
Proof.
  assert (H : forall n s, length s <= n ->
                parse_chars (quote_chars s (34%N :: k)) = Some (s, k)).
  { induction n as [|n IH]; intros [|c t] Hn; cbn [length] in Hn;
      try reflexivity; try lia.
    rewrite quote_chars_step. destruct t as [|c' t'].
    - rewrite parse_chars_escape. reflexivity.
    - destruct (is_high_surrogate c && is_low_surrogate c') eqn:Hp.
      + rewrite parse_chars_pair by assumption.
        rewrite IH by (cbn [length] in Hn; lia). reflexivity.
      + rewrite parse_chars_escape, IH by lia. reflexivity. }
  now apply (H (length s)).
Qed.

(** **** The properties of an object *)

Lemma has_key_app (key : jsstring) (a b : list (jsstring * json)) :
  has_key key (a ++ b) = has_key key a || has_key key b.
Proof. unfold has_key. apply existsb_app. Qed.

Lemma object_of_named (l acc : list (jsstring * json)) :
  distinct (map fst l) = true ->
  forallb named (map fst l) = true ->
  (forall kv, In kv l -> has_key (fst kv) acc = false) ->
  fold_left (fun o kv => set_property (fst kv) (snd kv) o) l acc = acc ++ l.
Proof.
  revert acc. induction l as [|[key v] l IH]; intros acc Hd Hn Ha.
  - cbn. now rewrite app_nil_r.
  - cbn [map fst distinct forallb] in Hd, Hn.
    apply andb_true_iff in Hd as [Hk Hd]. apply andb_true_iff in Hn as [Hi Hn].
    cbn [fold_left fst snd].
    assert (E : set_property key v acc = acc ++ [(key, v)]).
    { unfold set_property.
      pose proof (Ha (key, v) ltac:(left; reflexivity)) as H0.
      cbn [fst] in H0. rewrite H0.
      unfold named in Hi. now destruct (array_index key). }
    rewrite E, IH; try assumption.
    + now rewrite <- app_assoc.
    + intros [key' v'] Hin. rewrite has_key_app.
      pose proof (Ha (key', v') ltac:(right; exact Hin)) as H0.
      rewrite H0.
      cbn [has_key existsb fst orb].
      apply negb_true_iff in Hk.
      destruct (eqb key key') eqn:E'; [| reflexivity].
      apply eqb_eq in E'. subst key'. exfalso.
      assert (Hex : existsb (eqb key) (map fst l) = true).
      { apply existsb_exists. exists key. split; [| apply eqb_refl].
        apply in_map_iff. exists (key, v'). auto. }
      congruence.
Qed.

Lemma plain_obj (l : list (jsstring * json)) :
  plain (JObj l) = true <->
  distinct (map fst l) = true /\ forallb named (map fst l) = true
  /\ Forall (fun kv => plain (snd kv) = true) l.
Proof.
  cbn [plain]. rewrite !andb_true_iff.
  assert (H : (fix go (l : list (jsstring * json)) : bool :=
                 match l with
                 | [] => true
                 | kv :: r => plain (snd kv) && go r
                 end) l = true
              <-> Forall (fun kv => plain (snd kv) = true) l).
  { induction l as [|kv l IH].
    - split; [constructor | reflexivity].
    - rewrite andb_true_iff, IH. split.
      + intros [? ?]. now constructor.
      + intros H. inversion H; subst. auto. }
  rewrite H. tauto.
Qed.

Lemma plain_arr (l : list json) :
  plain (JArr l) = true <-> Forall (fun x => plain x = true) l.
Proof.
  cbn [plain]. rewrite forallb_forall, List.Forall_forall. reflexivity.
Qed.

Lemma object_of_plain (l : list (jsstring * json)) :
  plain (JObj l) = true -> object_of l = JObj l.
Proof.
  intros H. apply plain_obj in H as (Hd & Hn & _).
  unfold object_of. now rewrite object_of_named.
Qed.

(** **** Values *)

Lemma print_arr (l : list json) (k : jsstring) :
  print (JArr l) k = 91%N :: print_elems l (93%N :: k).
Proof. reflexivity. Qed.

Lemma print_obj (l : list (jsstring * json)) (k : jsstring) :
  print (JObj l) k = 123%N :: print_members l (125%N :: k).
Proof. reflexivity. Qed.

Lemma digit_value_head (c : N) :
  is_digit c = true \/ c = 45%N -> value_head c.
Proof.
  unfold is_digit, value_head, is_ws. intros [H | ->];
    [| repeat split; discriminate].
  apply andb_true_iff in H as [H1 H2]. apply N.leb_le in H1, H2.
  repeat split; try lia.
  repeat (apply orb_false_iff; split); apply N.eqb_neq; lia.
Qed.

Lemma print_number_safe (x : number) :
  safe_number x = true ->
  exists z, x = Dyadic z 0 /\ safe z = true
            /\ print_number x = Number_toString z.
Proof.
  destruct x as [m [|k] | | |]; try discriminate. cbn [safe_number].
  intros H. exists m. repeat split; [assumption |].
  cbn [print_number to_string]. rewrite H.
  destruct (Z.eqb_spec m 0) as [-> | _]; reflexivity.
Qed.

Lemma print_head (v : json) (k : jsstring) :
  plain v = true ->
  exists c r, print v k = c :: r /\ value_head c.
Proof.
  destruct v as [|[]|x|s|l|l]; intros Hp; cbn [print];
    try (eexists _, _; split; [reflexivity |];
         repeat split; discriminate).
  apply print_number_safe in Hp as (z & -> & _ & ->).
  destruct (Number_toString_head z) as (c & r & E & Hc).
  rewrite E. eexists _, _; split; [reflexivity |].
  now apply digit_value_head.
Qed.

Lemma skip_ws_head (c : N) (r : jsstring) :
  is_ws c = false -> skip_ws (c :: r) = c :: r.
Proof. intros H; simpl; now rewrite H. Qed.

Lemma parse_value_number (fuel : nat) (c : N) (r : jsstring) :
  is_digit c = true \/ c = 45%N ->
  parse_value (S fuel) (c :: r)
  = match read_number (c :: r) with
    | Some (x, rest) => Some (JNum x, rest)
    | None => None
    end.
Proof.
  intros H.
  assert (Hc : (45 <= c <= 57)%N).
  { destruct H as [H | ->]; [| lia]. unfold is_digit in H.
    apply andb_true_iff in H as [H1 H2]. apply N.leb_le in H1, H2. lia. }
  cbn [parse_value].
  rewrite skip_ws_head by (apply (digit_value_head c H)).
  repeat match goal with
         | |- context [(c =? ?n)%N] =>
             destruct (N.eqb_spec c n) as [? | _]; [lia |]
         end.
  reflexivity.
Qed.

Lemma parse_elements_print (l : list json) :
  Forall reads_back l -> l <> [] ->
  forall fuel k, list_sum (map (fun x => S (fuel_value x)) l) <= fuel ->
    parse_elements fuel (print_elems l (93%N :: k)) = Some (l, k).
Proof.
  induction 1 as [|x l Hx Hl IH]; [congruence|]. intros _ fuel k Hf.
  simpl in Hf. destruct fuel as [|fuel]; [lia|].
  destruct l as [|y l'].
  - simpl print_elems. simpl parse_elements.
    rewrite Hx by (simpl; repeat split; (lia || discriminate)).
    reflexivity.
  - change (print_elems (x :: y :: l') (93%N :: k))
      with (print x (44%N :: print_elems (y :: l') (93%N :: k))).
    specialize (IH ltac:(congruence) fuel k ltac:(simpl in *; lia)).
    remember (print_elems (y :: l') (93%N :: k)) as rest.
    simpl parse_elements.
    rewrite Hx by (simpl; repeat split; (lia || discriminate)).
    simpl. now rewrite IH.
Qed.

Lemma parse_members_print (l : list (jsstring * json)) :
  Forall (fun kv => reads_back (snd kv)) l -> l <> [] ->
  forall fuel k,
    list_sum (map (fun kv => S (fuel_value (snd kv))) l) <= fuel ->
    parse_members fuel (print_members l (125%N :: k)) = Some (l, k).
Proof.
  induction 1 as [|[key x] l Hx Hl IH]; [congruence|]. intros _ fuel k Hf.
  simpl in Hf, Hx. destruct fuel as [|fuel]; [lia|].
  destruct l as [|y l'].
  - simpl print_members. unfold quote. simpl parse_members.
    rewrite parse_chars_quote_chars. simpl.
    rewrite Hx by (simpl; repeat split; (lia || discriminate)).
    reflexivity.
  - change (print_members ((key, x) :: y :: l') (125%N :: k))
      with (quote key (58%N :: print x
              (44%N :: print_members (y :: l') (125%N :: k)))).
    specialize (IH ltac:(congruence) fuel k ltac:(simpl in *; lia)).
    remember (print_members (y :: l') (125%N :: k)) as rest.
    unfold quote. simpl parse_members.
    rewrite parse_chars_quote_chars. simpl.
    rewrite Hx by (simpl; repeat split; (lia || discriminate)).
    simpl. now rewrite IH.
Qed.

Lemma parse_value_print (v : json) : plain v = true -> reads_back v.
Proof.
  induction v as [|b|x|s|l IH|l IH] using json_ind;
    intros Hp fuel k Hf Hk; (destruct fuel as [|fuel]; [simpl in Hf; lia|]).
  - reflexivity.
  - destruct b; reflexivity.
  - cbn [print].
    apply print_number_safe in Hp as (z & -> & Hs & ->).
    destruct (Number_toString_head z) as (c & r & E & Hc).
    pose proof (read_number_safe z k Hs Hk) as Hr.
    rewrite E in *. cbn [app] in *.
    rewrite parse_value_number by assumption.
    now rewrite Hr.
  - simpl print. unfold quote. simpl.
    now rewrite parse_chars_quote_chars.
  - rewrite print_arr. destruct l as [|x l].
    + reflexivity.
    + apply plain_arr in Hp.
      assert (Hrb : Forall reads_back (x :: l)).
      { rewrite List.Forall_forall in *. intros y Hy. auto. }
      assert (Hl : parse_elements fuel (print_elems (x :: l) (93%N :: k))
                   = Some (x :: l, k)).
      { apply parse_elements_print; [assumption | congruence |].
        simpl in Hf |- *. lia. }
      destruct (print_head x
                  (match l with
                   | [] => 93%N :: k
                   | _ => 44%N :: print_elems l (93%N :: k)
                   end)) as (c & r & E & Hws & H93 & _).
      { inversion Hp; assumption. }
      assert (E' : print_elems (x :: l) (93%N :: k) = c :: r)
        by (destruct l; exact E).
      rewrite E' in *. simpl parse_value.
      apply N.eqb_neq in H93.
      rewrite Hws, H93, Hl. reflexivity.
  - rewrite print_obj. destruct l as [|[key x] l].
    + reflexivity.
    + pose proof (object_of_plain _ Hp) as Ho.
      apply plain_obj in Hp as (_ & _ & Hp).
      assert (Hrb : Forall (fun kv => reads_back (snd kv)) ((key, x) :: l)).
      { rewrite List.Forall_forall in *. intros y Hy. auto. }
      assert (Hl : parse_members fuel
                     (print_members ((key, x) :: l) (125%N :: k))
                   = Some ((key, x) :: l, k)).
      { apply parse_members_print; [assumption | congruence |].
        simpl in Hf |- *. lia. }
      assert (E' : exists r,
                 print_members ((key, x) :: l) (125%N :: k) = 34%N :: r)
        by (destruct l; unfold quote; eauto).
      destruct E' as [r E'].
      rewrite E' in *. simpl parse_value.
      now rewrite Hl, Ho.
Qed.

(** **** The text is long enough to serve as fuel *)

Lemma length_quote (s k : jsstring) :
  2 + length k <= length (quote s k).
Proof.
  unfold quote. cbn [length].
  assert (H : forall n s t, length s <= n ->
                length t <= length (quote_chars s t)).
  { induction n as [|n IH]; intros [|c u] t Hn; cbn [length] in Hn;
      try (cbn; lia).
    rewrite quote_chars_step. destruct u as [|c' u'].
    - rewrite length_app. cbn. lia.
    - destruct (is_high_surrogate c && is_low_surrogate c').
      + cbn [length]. specialize (IH u' t). cbn [length] in Hn. lia.
      + rewrite length_app. specialize (IH (c' :: u') t). lia. }
  specialize (H (length s) s (34%N :: k) ltac:(lia)). cbn [length] in H. lia.
Qed.

Lemma print_elems_length (l : list json) :
  Forall long_enough l ->
  forall k, list_sum (map (fun x => S (fuel_value x)) l) + length k
            <= S (length (print_elems l k)).
Proof.
  induction 1 as [|x l Hx Hl IH]; intros k; [simpl; lia |].
  destruct l as [|y l'].
  - specialize (Hx k). simpl in *. lia.
  - change (print_elems (x :: y :: l') k)
      with (print x (44%N :: print_elems (y :: l') k)).
    specialize (IH k).
    specialize (Hx (44%N :: print_elems (y :: l') k)).
    remember (print_elems (y :: l') k) as rest.
    simpl in *. lia.
Qed.

Lemma print_members_length (l : list (jsstring * json)) :
  Forall (fun kv => long_enough (snd kv)) l ->
  forall k,
    list_sum (map (fun kv => S (fuel_value (snd kv))) l) + length k
    <= S (length (print_members l k)).
Proof.
  induction 1 as [|[key x] l Hx Hl IH]; intros k; [simpl; lia |].
  simpl in Hx.
  destruct l as [|y l'].
  - specialize (Hx k).
    pose proof (length_quote key (58%N :: print x k)) as Hq.
    simpl in *. lia.
  - change (print_members ((key, x) :: y :: l') k)
      with (quote key (58%N :: print x
              (44%N :: print_members (y :: l') k))).
    specialize (IH k).
    specialize (Hx (44%N :: print_members (y :: l') k)).
    remember (print_members (y :: l') k) as rest.
    pose proof (length_quote key
                  (58%N :: print x (44%N :: rest))) as Hq.
    simpl in *. lia.
Qed.

Lemma print_length (v : json) : plain v = true -> long_enough v.
Proof.
  induction v as [|b|x|s|l IH|l IH] using json_ind; intros Hp k.
  - simpl. lia.
  - destruct b; simpl; lia.
  - cbn [print fuel_value]. rewrite length_app.
    apply print_number_safe in Hp as (z & -> & _ & ->).
    destruct (Number_toString_head z) as (c & r & E & _).
    rewrite E. simpl. lia.
  - pose proof (length_quote s k). simpl in *. lia.
  - rewrite print_arr. apply plain_arr in Hp.
    assert (Hl : Forall long_enough l).
    { rewrite List.Forall_forall in *. auto. }
    pose proof (print_elems_length l Hl (93%N :: k)) as H.
    simpl in *. lia.
  - rewrite print_obj. apply plain_obj in Hp as (_ & _ & Hp).
    assert (Hl : Forall (fun kv => long_enough (snd kv)) l).
    { rewrite List.Forall_forall in *. auto. }
    pose proof (print_members_length l Hl (125%N :: k)) as H.
    simpl in *. lia.
Qed.

(** [JSON.parse(JSON.stringify(v))] gives [v] back. *)
Lemma parse_stringify (v : json) :
  plain v = true -> parse (stringify v) = Some v.
Proof.
  intros Hp. unfold parse, stringify.
  rewrite parse_value_print; [reflexivity | assumption | | exact I].
  pose proof (print_length v Hp []). simpl in *. lia.
Qed.

Lemma stringify_inj (v1 v2 : json) :
  plain v1 = true -> plain v2 = true ->
  stringify v1 = stringify v2 -> v1 = v2.
Proof.
  intros H1 H2 H. pose proof (parse_stringify v1 H1) as E.
  rewrite H, (parse_stringify v2 H2) in E. congruence.
Qed.

(** The text of a value is never empty. *)
Lemma stringify_truthy (v : json) :
  plain v = true -> truthy (stringify v) = true.
Proof.
  intros Hp. unfold stringify.
  destruct (print_head v [] Hp) as (c & r & E & _).
  now rewrite E.
Qed.

(** **** A printed value is one line *)

Lemma escape_one_line (c : N) : has_char 10 (escape c) = false.
Proof.
  unfold escape.
  repeat match goal with
         | |- context [(c =? ?n)%N] =>
             destruct (N.eqb_spec c n) as [-> | ?]; [reflexivity |]
         end.
  assert (Hd : forall d, (hex_digit d =? 10)%N = false).
  { intros d. unfold hex_digit. apply N.eqb_neq.
    destruct (d <? 10)%N; lia. }
  assert (Hu : has_char 10 (unicode_escape c) = false).
  { unfold unicode_escape. cbn [has_char]. now rewrite !Hd. }
  destruct (_ || _); [exact Hu |].
  cbn [has_char]. destruct (N.eqb_spec c 10); [congruence | reflexivity].
Qed.

Lemma quote_one_line (s k : jsstring) :
  has_char 10 (quote s k) = has_char 10 k.
Proof.
  unfold quote. cbn [has_char].
  change (34 =? 10)%N with false. cbn [orb].
  assert (H : forall n s, length s <= n ->
                has_char 10 (quote_chars s (34%N :: k)) = has_char 10 k).
  { induction n as [|n IH]; intros [|c u] Hn; cbn [length] in Hn;
      try reflexivity; try lia.
    rewrite quote_chars_step. destruct u as [|c' u'].
    - rewrite has_char_app, escape_one_line. reflexivity.
    - destruct (is_high_surrogate c && is_low_surrogate c') eqn:Hp.
      + unfold is_high_surrogate, is_low_surrogate in Hp.
        apply andb_true_iff in Hp as [H1 H2].
        apply andb_true_iff in H1 as [H1 _].
        apply andb_true_iff in H2 as [H2 _].
        apply N.leb_le in H1, H2.
        cbn [has_char].
        destruct (N.eqb_spec c 10) as [? | _]; [lia |].
        destruct (N.eqb_spec c' 10) as [? | _]; [lia |].
        cbn [orb]. apply IH. cbn [length] in Hn. lia.
      + rewrite has_char_app, escape_one_line. cbn [orb].
        apply IH. lia. }
  now apply (H (length s)).
Qed.

Lemma print_number_one_line (x : number) :
  has_char 10 (print_number x) = false.
Proof.
  destruct x; try reflexivity; cbn [print_number];
    apply has_char_to_string; split; try reflexivity;
    repeat constructor; discriminate.
Qed.

Lemma print_elems_one_line (l : list json) :
  Forall one_line l ->
  forall k, has_char 10 (print_elems l k) = has_char 10 k.
Proof.
  induction 1 as [|x l Hx Hl IH]; intros k; [reflexivity |].
  destruct l as [|y l'].
  - apply Hx.
  - change (print_elems (x :: y :: l') k)
      with (print x (44%N :: print_elems (y :: l') k)).
    rewrite Hx. cbn [has_char]. now rewrite IH.
Qed.

Lemma print_members_one_line (l : list (jsstring * json)) :
  Forall (fun kv => one_line (snd kv)) l ->
  forall k, has_char 10 (print_members l k) = has_char 10 k.
Proof.
  induction 1 as [|[key x] l Hx Hl IH]; intros k; [reflexivity |].
  simpl in Hx. destruct l as [|y l'].
  - cbn [print_members]. rewrite quote_one_line. cbn [has_char].
    now rewrite Hx.
  - change (print_members ((key, x) :: y :: l') k)
      with (quote key (58%N :: print x
              (44%N :: print_members (y :: l') k))).
    rewrite quote_one_line. cbn [has_char]. rewrite Hx.
    cbn [has_char]. now rewrite IH.
Qed.

Lemma print_one_line (v : json) : one_line v.
Proof.
  induction v as [|b|x|s|l IH|l IH] using json_ind; intros k.
  - reflexivity.
  - destruct b; reflexivity.
  - cbn [print]. rewrite has_char_app.
    now rewrite print_number_one_line.
  - apply quote_one_line.
  - rewrite print_arr. cbn [has_char].
    now rewrite print_elems_one_line.
  - rewrite print_obj. cbn [has_char].
    now rewrite print_members_one_line.
Qed.

Lemma stringify_one_line (v : json) : has_char 10 (stringify v) = false.
Proof. unfold stringify. now rewrite print_one_line. Qed.

End JsonFacts.

(** **** The platform model at work *)

Module PlatformExamples.
Import JsString JsNumber Json.

(** Number literals and the text [Number::toString] gives for their
    values. *)
Lemma number_texts :
  map (fun s => option_map (fun r => to_string (fst r)) (read_number (js s)))
    ["0"; "-0"; "42"; "1.5"; "1e3"; "0.1"; "0.750"; "100"; "1e21"; "1e-7";
     "0.000001"; "123456789012345680000"; "9007199254740993";
     "0.30000000000000004"; "0.1e1"; "5e-324"; "2e-324"; "1e400";
     "-1e400"; "4.35"; "1.7976931348623157e308"]%string
  = map (fun s => Some (js s))
      ["0"; "0"; "42"; "1.5"; "1000"; "0.1"; "0.75"; "100"; "1e+21"; "1e-7";
       "0.000001"; "123456789012345680000"; "9007199254740992";
       "0.30000000000000004"; "1"; "5e-324"; "0"; "Infinity";
       "-Infinity"; "4.35"; "1.7976931348623157e+308"]%string.
Proof. vm_compute. reflexivity. Qed.

(** The digits of a safe integer are its shortest text. *)
Lemma integer_texts :
  map (fun z => to_string_general (Dyadic z 0))
    [1; 10; -7; 1000; 1717000000000; 8640000000000000;
     9007199254740991; -9007199254740991]%Z
  = map Number_toString
      [1; 10; -7; 1000; 1717000000000; 8640000000000000;
       9007199254740991; -9007199254740991]%Z.
Proof. vm_compute. reflexivity. Qed.

(** What is not a number literal of JSON. *)
Lemma number_errors :
  map (fun s => parse (js s))
    ["01"; "1."; ".5"; "+1"; "1e"; "-"; "0x10"; "NaN"; "Infinity"]%string
  = repeat None 9.
Proof. vm_compute. reflexivity. Qed.

(** [JSON.stringify(JSON.parse(text))], with ['] for the double quote:
    white space goes, numbers are written anew, a key written twice
    keeps its first place and its last value, array indices come
    first, a surrogate pair is written as it is. *)
Lemma json_texts :
  map (fun s => option_map stringify (parse (Samples.json_text s)))
    [" [1 , 2.50, -0, 1e400, 'aA\n\/\u0041' ] ";
     "{'a':1,'a':2}";
     "{'b':1,'2':2,'a':3,'1':4,'b':5}";
     "{'10':1,'9':2,'01':3,'4294967295':4,'4294967294':5}";
     "{'temperature':0.7}";
     "[]"; "{}"; "null"; "true"; "false"]%string
  = map (fun s => Some (Samples.json_text s))
      ["[1,2.5,0,null,'aA\n/A']";
       "{'a':2}";
       "{'1':4,'2':2,'b':5,'a':3}";
       "{'9':2,'10':1,'4294967294':5,'01':3,'4294967295':4}";
       "{'temperature':0.7}";
       "[]"; "{}"; "null"; "true"; "false"]%string
  /\ option_map stringify
       (parse (Samples.json_text "'\u010d\ud83d\ude00\ud83d\u001f'"))
     = Some ([34; 269; 55357; 56832]%N ++ js "\ud83d\u001f" ++ [34%N]).
Proof. split; vm_compute; reflexivity. Qed.

(** What is not JSON. *)
Lemma json_errors :
  map (fun s => parse (Samples.json_text s))
    [""; "["; "[1,]"; "{'a':1,}"; "{a:1}"; "[1 2]"; "'a"; "'\x41'";
     "nul"; "1 2"; "{'a'}"]%string
  = repeat None 11
  /\ map parse [[11; 49]; [12; 49]; [160; 49]; [65279; 49]; [34; 9; 34];
                [34; 10; 34]; [34; 31; 34]]%N
     = repeat None 7
  /\ map parse [[9; 10; 13; 32; 49; 32; 13; 10; 9]; [34; 127; 34];
                [34; 8232; 34]]%N
     = [Some (JNum (Dyadic 1 0)); Some (JStr [127%N]);
        Some (JStr [8232%N])].
Proof. repeat split; vm_compute; reflexivity. Qed.

(** [trim] removes white space and line terminators at both ends,
    and only there. *)
Lemma trim_texts :
  trim ([9; 10; 11; 12; 13; 32; 160; 5760; 8192; 8202; 8232; 8233; 8239;
         8287; 12288; 65279]%N
          ++ js "a b"
          ++ [65279; 12288; 8287; 8239; 8233; 8232; 8199; 5760; 160; 32;
              13; 12; 11; 10; 9]%N)
  = js "a b"
  /\ map is_space [0; 8; 14; 31; 33; 133; 6158; 8191; 8203; 8288; 65278]%N
     = repeat false 11.
Proof. split; vm_compute; reflexivity. Qed.

End PlatformExamples.

(** * The thread store *)

Module ThreadManagerFacts.
Import JsString JsStringFacts JsNumber JsonSpec JsNumberFacts Json JsonFacts.
Import Browser ThreadManager ExportSpec.

Lemma rejected_id_prefix (threadId : jsstring) :
  startsWith threadId THREAD_PREFIX = true -> rejected_id threadId = false.
Proof.
  intros H. unfold rejected_id. rewrite H.
  destruct threadId; [discriminate H | reflexivity].
Qed.

Lemma rejected_id_invalid (threadId : jsstring) :
  threadId = [] \/ startsWith threadId THREAD_PREFIX = false ->
  rejected_id threadId = true.
Proof.
  unfold rejected_id. intros [-> | ->]; [reflexivity |].
  apply orb_true_r.
Qed.

Lemma role_toString_inj (r1 r2 : Role) :
  Role_toString r1 = Role_toString r2 -> r1 = r2.
Proof. destruct r1, r2; cbn; congruence. Qed.

Lemma TimeValue_eq (a b : TimeValue) : ms a = ms b -> a = b.
Proof.
  destruct a as [a Ha], b as [b Hb]. cbn. intros ->.
  f_equal. apply UIP_dec, Bool.bool_dec.
Qed.

Lemma TimeValue_safe (t : TimeValue) : safe (ms t) = true.
Proof.
  destruct t as [z Hz]. cbn. unfold safe.
  apply Z.leb_le in Hz. apply Z.leb_le.
  change (2 ^ 53 - 1)%Z with 9007199254740991%Z. lia.
Qed.

Lemma time_value_ms (z : Z) :
  (Z.abs z <= 8640000000000000)%Z -> ms (time_value z) = z.
Proof.
  intros H. apply Z.leb_le in H. unfold time_value.
  generalize (eq_refl (Z.abs z <=? 8640000000000000)%Z).
  generalize (Z.abs z <=? 8640000000000000)%Z at 2 3.
  intros b Hb. destruct b; [reflexivity | congruence].
Qed.

(** A message is determined by the JS object that stands for it. *)
Lemma Message_toJSON_inj (m1 m2 : Message) :
  Message_toJSON m1 = Message_toJSON m2 -> m1 = m2.
Proof.
  destruct m1 as [r1 [a1|] c1 [t1|]], m2 as [r2 [a2|] c2 [t2|]];
    unfold Message_toJSON, of_Z; cbn; intros H; simplify_eq;
    f_equal; auto using role_toString_inj;
    f_equal; now apply TimeValue_eq.
Qed.

Lemma Messages_toJSON_inj (l1 l2 : list Message) :
  Messages_toJSON l1 = Messages_toJSON l2 -> l1 = l2.
Proof.
  unfold Messages_toJSON. intros H. injection H as H.
  revert l2 H. induction l1 as [|m l1 IH]; intros [|m' l2] H;
    cbn [map] in H; try discriminate; [reflexivity |].
  assert (Hm : Message_toJSON m = Message_toJSON m') by congruence.
  assert (Hl : map Message_toJSON l1 = map Message_toJSON l2) by congruence.
  f_equal; [now apply Message_toJSON_inj | auto].
Qed.

(** The objects of the thread store are read back from their text. *)
Lemma Message_toJSON_plain (m : Message) : plain (Message_toJSON m) = true.
Proof.
  apply plain_obj.
  destruct m as [r [a|] c [t|]]; unfold Message_toJSON; cbn [app];
    (split; [vm_compute; reflexivity |]);
    (split; [vm_compute; reflexivity |]);
    repeat constructor; cbn [snd plain safe_number of_Z];
    apply TimeValue_safe.
Qed.

Lemma Messages_toJSON_plain (l : list Message) :
  plain (Messages_toJSON l) = true.
Proof.
  apply plain_arr. apply List.Forall_forall. intros x Hx.
  apply in_map_iff in Hx as (m & <- & _). apply Message_toJSON_plain.
Qed.

(** Neither [saveMessagesToThread] nor [getMessagesForThread] throws. *)
Lemma saveMessagesToThread_returns threadId messages w :
  fst (saveMessagesToThread threadId messages w) = Return tt.
Proof.
  unfold saveMessagesToThread.
  destruct (rejected_id threadId); [reflexivity |].
  unfold try_catch, localStorage_setItem.
  destruct (fits _ _ _); reflexivity.
Qed.

Lemma getMessagesForThread_returns threadId w :
  exists v, fst (getMessagesForThread threadId w) = Return v.
Proof.
  unfold getMessagesForThread.
  destruct (rejected_id threadId); [eexists; reflexivity |].
  unfold try_catch, bind, localStorage_getItem, JSON_parse.
  destruct (items (localStorage w) !! threadId) as [text|];
    [| eexists; reflexivity].
  destruct (truthy text); [| eexists; reflexivity].
  destruct (parse text); eexists; reflexivity.
Qed.

(** A failed save is reported on the console and changes nothing else. *)
Lemma saveMessagesToThread_full threadId messages w :
  rejected_id threadId = false ->
  fits threadId (stringify (Messages_toJSON messages)) (localStorage w) = false ->
  saveMessagesToThread threadId messages w
  = (Return tt,
     {| localStorage := localStorage w;
        console := console w
                   ++ [(js "Failed to save messages to localStorage:",
                        QuotaExceededError)] |}).
Proof.
  intros Hid Hfit. unfold saveMessagesToThread. rewrite Hid.
  unfold try_catch, localStorage_setItem. now rewrite Hfit.
Qed.

Lemma saveMessagesToThread_fits threadId messages w :
  rejected_id threadId = false ->
  fits threadId (stringify (Messages_toJSON messages)) (localStorage w) = true ->
  saveMessagesToThread threadId messages w
  = (Return tt,
     {| localStorage :=
          {| items := <[threadId := stringify (Messages_toJSON messages)]>
                        (items (localStorage w));
             quota := quota (localStorage w) |};
        console := console w |}).
Proof.
  intros Hid Hfit. unfold saveMessagesToThread. rewrite Hid.
  unfold try_catch, localStorage_setItem. now rewrite Hfit.
Qed.

Lemma parse_empty : parse [] = None.
Proof. reflexivity. Qed.

(** Reading a thread whose stored text denotes [v]. *)
Lemma getMessagesForThread_parsed threadId text v w :
  rejected_id threadId = false ->
  items (localStorage w) !! threadId = Some text ->
  parse text = Some v ->
  getMessagesForThread threadId w = (Return v, w).
Proof.
  intros Hid Hget Hv. unfold getMessagesForThread. rewrite Hid.
  unfold try_catch, bind, localStorage_getItem, JSON_parse.
  rewrite Hget.
  destruct text as [|c text]; [rewrite parse_empty in Hv; discriminate |].
  cbn [truthy]. now rewrite Hv.
Qed.

(** Reading a thread whose stored text is the text of [v]. *)
Lemma getMessagesForThread_stored threadId v w :
  plain v = true ->
  rejected_id threadId = false ->
  items (localStorage w) !! threadId = Some (stringify v) ->
  getMessagesForThread threadId w = (Return v, w).
Proof.
  intros Hp Hid Hget.
  apply (getMessagesForThread_parsed _ (stringify v)); try assumption.
  now apply parse_stringify.
Qed.

(** Stored text that does not parse is reported on the console and read
    as the empty list. *)
Lemma getMessagesForThread_malformed threadId text w :
  rejected_id threadId = false ->
  items (localStorage w) !! threadId = Some text ->
  truthy text = true ->
  parse text = None ->
  getMessagesForThread threadId w
  = (Return (JArr []),
     {| localStorage := localStorage w;
        console :=
          console w
          ++ [(js "Failed to retrieve or parse messages from localStorage:",
               SyntaxError)] |}).
Proof.
  intros Hid Hget Ht Hp. unfold getMessagesForThread. rewrite Hid.
  unfold try_catch, bind, localStorage_getItem, JSON_parse.
  now rewrite Hget, Ht, Hp.
Qed.

Lemma createNewThreadId_full now w :
  fits (THREAD_PREFIX ++ Number_toString now) (stringify (JArr []))
       (localStorage w) = false ->
  createNewThreadId now w = (Throw QuotaExceededError, w).
Proof.
  intros Hfit. unfold createNewThreadId, bind, localStorage_setItem.
  now rewrite Hfit.
Qed.

Lemma createNewThreadId_id now threadId (w : World) :
  fst (createNewThreadId now w) = Return threadId ->
  threadId = THREAD_PREFIX ++ Number_toString now.
Proof.
  unfold createNewThreadId, bind, localStorage_setItem.
  destruct (fits _ _ _); cbn [fst ret]; congruence.
Qed.

(** **** Export *)

Lemma join_cons2 (sep a b : jsstring) (l : list jsstring) :
  join sep (a :: b :: l) = a ++ sep ++ join sep (b :: l).
Proof. reflexivity. Qed.

Lemma heading_heads (m : Message) : heads m (heading m).
Proof.
  unfold heads, heading.
  destruct (role m); [reflexivity | ..];
    destruct (agentName m) as [[|c a]|]; reflexivity.
Qed.

Lemma join_blocks (m : Message) (rest : list Message) :
  join separator (map export_block (m :: rest))
  = js "### " ++ heading m ++ [10%N] ++ content m
      ++ weave (frame_rest (map heading rest)) (map content rest).
Proof.
  revert m. induction rest as [|m' rest IH]; intros m.
  - cbn [map join frame_rest weave]. unfold export_block, nl, LF.
    now rewrite <- !app_assoc.
  - cbn [map]. rewrite join_cons2.
    specialize (IH m'). cbn [map] in IH. rewrite IH.
    cbn [frame_rest weave]. unfold export_block, separator, nl, LF.
    now rewrite <- !app_assoc.
Qed.

(** * Claims about the thread store *)

(** C1 (as amended). For a thread id that starts with
    ['aeth_chat_thread_'] and a list of messages whose text fits in
    the store, [saveMessagesToThread] followed by
    [getMessagesForThread] on the same id returns the JS array of
    exactly these messages, in the same order; no other list of
    messages is denoted by the value read back. *)
Theorem save_then_read_back threadId messages w :
  startsWith threadId THREAD_PREFIX = true ->
  fits threadId (stringify (Messages_toJSON messages)) (localStorage w) = true ->
  let w' := snd (saveMessagesToThread threadId messages w) in
  getMessagesForThread threadId w' = (Return (Messages_toJSON messages), w')
  /\ (forall messages',
        Messages_toJSON messages' = Messages_toJSON messages ->
        messages' = messages).
Proof.
  intros Hp Hfit w'. split; [| intros l; apply Messages_toJSON_inj].
  pose proof (rejected_id_prefix _ Hp) as Hid.
  subst w'. rewrite saveMessagesToThread_fits by assumption.
  apply getMessagesForThread_stored;
    [apply Messages_toJSON_plain | assumption |].
  cbn [localStorage items]. apply lookup_insert_eq.
Qed.

Lemma save_then_read_back_witness :
  getMessagesForThread (js "aeth_chat_thread_1717000000000")
    (snd (saveMessagesToThread (js "aeth_chat_thread_1717000000000")
            [Samples.hello; Samples.reply] (Samples.browser 1000)))
  = (Return
       (JArr [JObj [(js "role", JStr (js "user"));
                    (js "content", JStr (js "hello"));
                    (js "timestamp", JNum (Dyadic 1717000000000 0))];
              JObj [(js "role", JStr (js "agent"));
                    (js "agentName", JStr (js "Premier"));
                    (js "content", JStr (js "welcome"));
                    (js "timestamp", JNum (Dyadic 1717000000750 0))]]),
     snd (saveMessagesToThread (js "aeth_chat_thread_1717000000000")
            [Samples.hello; Samples.reply] (Samples.browser 1000))).
Proof.
  apply (save_then_read_back (js "aeth_chat_thread_1717000000000")
           [Samples.hello; Samples.reply] (Samples.browser 1000));
    vm_compute; reflexivity.
Defined.

(** C1 as stated fails on a store that is full: the save is dropped
    (and reported on the console), and the read returns the empty
    list, not the two messages. *)
Lemma full_store_drops_save :
  startsWith (js "aeth_chat_thread_1717000000000") THREAD_PREFIX = true
  /\ fst (getMessagesForThread (js "aeth_chat_thread_1717000000000")
            (snd (saveMessagesToThread (js "aeth_chat_thread_1717000000000")
                    [Samples.hello; Samples.reply] (Samples.browser 0))))
     = Return (JArr [])
  /\ JArr [] <> Messages_toJSON [Samples.hello; Samples.reply].
Proof.
  split; [reflexivity |]. split; [vm_compute; reflexivity | discriminate].
Qed.

(** C2, at a store that is full: [createNewThreadId] has no
    [try]/[catch]; the [QuotaExceededError] of [setItem] reaches the
    caller and nothing is written to the console. *)
Theorem createNewThreadId_throws_when_full :
  createNewThreadId 1717000000000 (Samples.browser 0)
  = (Throw QuotaExceededError, Samples.browser 0)
  /\ fst (saveMessagesToThread (js "aeth_chat_thread_1717000000000")
            [Samples.hello] (Samples.browser 0)) = Return tt.
Proof.
  split; [| apply saveMessagesToThread_returns].
  apply createNewThreadId_full. vm_compute. reflexivity.
Qed.

(** C6. When [createNewThreadId] returns a thread id, the id is the
    prefix ['aeth_chat_thread_'] followed by the decimal digits of the
    current time, and reading that thread right away returns the
    empty list. *)
Theorem create_then_read_empty now w threadId :
  fst (createNewThreadId now w) = Return threadId ->
  threadId = THREAD_PREFIX ++ Number_toString now
  /\ getMessagesForThread threadId (snd (createNewThreadId now w))
     = (Return (JArr []), snd (createNewThreadId now w)).
Proof.
  unfold createNewThreadId, bind, localStorage_setItem.
  destruct (fits _ _ _); simpl; intros H; [| discriminate H].
  injection H as <-. split; [reflexivity |].
  apply getMessagesForThread_stored; [reflexivity | |].
  - apply rejected_id_prefix.
    exact (startsWith_app THREAD_PREFIX (Number_toString now)).
  - simpl. apply lookup_insert_eq.
Qed.

Lemma create_then_read_empty_witness :
  js "aeth_chat_thread_1717000000000"
  = THREAD_PREFIX ++ Number_toString 1717000000000
  /\ getMessagesForThread (js "aeth_chat_thread_1717000000000")
       (snd (createNewThreadId 1717000000000 (Samples.browser 1000)))
     = (Return (JArr []),
        snd (createNewThreadId 1717000000000 (Samples.browser 1000))).
Proof.
  apply (create_then_read_empty 1717000000000 (Samples.browser 1000)).
  vm_compute. reflexivity.
Defined.

(** C9. For a thread id that is empty or does not start with
    ['aeth_chat_thread_'], [saveMessagesToThread] changes nothing and
    [getMessagesForThread] returns the empty list whatever the store
    holds, leaving it as it is. *)
Theorem invalid_thread_id_noop threadId messages w :
  threadId = [] \/ startsWith threadId THREAD_PREFIX = false ->
  saveMessagesToThread threadId messages w = (Return tt, w)
  /\ getMessagesForThread threadId w = (Return (JArr []), w)
  /\ (forall w', fst (getMessagesForThread threadId w') = Return (JArr [])).
Proof.
  intros H. apply rejected_id_invalid in H.
  unfold saveMessagesToThread, getMessagesForThread. rewrite H.
  repeat split.
Qed.

Lemma invalid_thread_id_noop_witness :
  saveMessagesToThread (js "thread_7") [Samples.hello] (Samples.browser 1000)
  = (Return tt, Samples.browser 1000)
  /\ getMessagesForThread (js "thread_7") (Samples.browser 1000)
     = (Return (JArr []), Samples.browser 1000)
  /\ (forall w', fst (getMessagesForThread (js "thread_7") w')
                 = Return (JArr [])).
Proof.
  apply (invalid_thread_id_noop (js "thread_7") [Samples.hello]
           (Samples.browser 1000)).
  right. reflexivity.
Defined.

(** C7. The text of [formatThreadForExport] is a frame with the
    contents of the messages woven in: one slot per message, each
    content once, in the order of the list.  The frame is fixed by
    the thread id and the headings of the messages; before each
    content it has the line [### ] and the heading of its message:
    ['User Input'] for a user's message, else the agent's name, or
    ['Agent Response'] when the name is missing or empty. *)
Theorem export_weaves_contents threadId messages :
  exists headings : list jsstring,
    Forall2 heads messages headings
    /\ formatThreadForExport threadId messages
       = weave (frame (replace_first_empty (js "aeth_chat_thread_") threadId)
                  headings)
               (map content messages)
    /\ length (frame (replace_first_empty (js "aeth_chat_thread_") threadId)
                 headings)
       = S (length messages).
Proof.
  exists (map heading messages). split; [| split].
  - induction messages as [|m l IH]; cbn [map]; constructor;
      [apply heading_heads | exact IH].
  - unfold formatThreadForExport, frame.
    change (replace_first_empty THREAD_PREFIX threadId)
      with (replace_first_empty (js "aeth_chat_thread_") threadId).
    destruct messages as [|m rest].
    + cbn [map join weave]. unfold nl, LF. now rewrite app_nil_r.
    + rewrite join_blocks. cbn [map weave]. unfold nl, LF.
      now rewrite <- !app_assoc.
  - destruct messages as [|m rest]; [reflexivity |].
    cbn [map frame length]. f_equal.
    induction rest as [|m' rest IH]; [reflexivity |].
    cbn [map frame_rest length]. now rewrite IH.
Qed.

Lemma export_sample :
  formatThreadForExport (js "aeth_chat_thread_1717000000000")
    [Samples.hello; Samples.reply]
  = js "# Chat Thread Log: 1717000000000" ++ [10; 10]%N
      ++ js "### User Input" ++ [10%N] ++ js "hello" ++ [10%N]
      ++ [10%N] ++ js "---" ++ [10; 10]%N
      ++ js "### Premier" ++ [10%N] ++ js "welcome" ++ [10%N].
Proof. vm_compute. reflexivity. Qed.

End ThreadManagerFacts.

(** * The memory log sink *)

Module MemoryLogFacts.
Import JsString JsStringFacts JsNumber JsonSpec JsNumberFacts Json JsonFacts.
Import Http Node MemoryLog MemoryLogSpec.

(** **** Digits *)

Lemma has_char_pad (c : N) (width : nat) (n : N) :
  is_digit c = false -> has_char c (pad width n) = false.
Proof.
  intros Hc. unfold pad, decimal.
  rewrite has_char_app, has_char_zeros, has_char_units; auto.
  intros ->. discriminate Hc.
Qed.

Lemma units_iter_D0 (n : nat) (d : Decimal.uint) :
  units_of_uint (Nat.iter n Decimal.D0 d) = zeros n ++ units_of_uint d.
Proof.
  unfold zeros. induction n as [|n IH]; [reflexivity |].
  cbn [Nat.iter nat_rect units_of_uint repeat app]. now rewrite <- IH.
Qed.

Lemma length_units (d : Decimal.uint) :
  length (units_of_uint d) = Decimal.nb_digits d.
Proof. induction d; cbn; congruence. Qed.

Lemma units_revapp (a b : Decimal.uint) :
  units_of_uint (Decimal.revapp a b)
  = List.rev (units_of_uint a) ++ units_of_uint b.
Proof.
  revert b. induction a; intros b; cbn [Decimal.revapp units_of_uint List.rev];
    [reflexivity | ..]; rewrite IHa, <- app_assoc; reflexivity.
Qed.

Lemma little_step (k : nat) (n : N) :
  exists d : Decimal.uint -> Decimal.uint,
    little_digits (S k) n = d (little_digits k (n / 10))
    /\ (forall r, units_of_uint (d r) = (48 + n mod 10)%N :: units_of_uint r)
    /\ (forall r, DecimalPos.Unsigned.of_lu (d r)
                  = (n mod 10 + 10 * DecimalPos.Unsigned.of_lu r)%N)
    /\ (forall r, Decimal.nb_digits (d r) = S (Decimal.nb_digits r)).
Proof.
  cbn [little_digits].
  pose proof (N.mod_lt n 10 ltac:(discriminate)) as Hlt.
  generalize dependent (n mod 10)%N. intros x Hlt.
  assert (E : In x [0; 1; 2; 3; 4; 5; 6; 7; 8; 9]%N)
    by (cbn [In]; lia).
  cbn [In] in E.
  repeat (destruct E as [<- | E];
          [eexists; split; [reflexivity |]; repeat split |]).
  destruct E.
Qed.

Lemma of_lu_little (k : nat) (n : N) :
  DecimalPos.Unsigned.of_lu (little_digits k n) = (n mod 10 ^ N.of_nat k)%N.
Proof.
  revert n. induction k as [|k IH]; intros n.
  - cbn. now rewrite N.mod_1_r.
  - destruct (little_step k n) as (d & -> & _ & Hv & _).
    rewrite Hv, IH.
    replace (10 ^ N.of_nat (S k))%N with (10 * 10 ^ N.of_nat k)%N
      by (rewrite Nat2N.inj_succ, N.pow_succ_r'; reflexivity).
    now rewrite N.Div0.mod_mul_r.
Qed.

Lemma digits_snoc (k : nat) (n : N) :
  digits (S k) n = digits k (n / 10) ++ [(48 + n mod 10)%N].
Proof.
  induction k as [|k IH].
  - cbn [digits app N.of_nat]. change (10 ^ 0)%N with 1%N.
    now rewrite N.div_1_r.
  - change (digits (S (S k)) n)
      with ((48 + n / 10 ^ N.of_nat (S k) mod 10)%N :: digits (S k) n).
    rewrite IH.
    change (digits (S k) (n / 10))
      with ((48 + n / 10 / 10 ^ N.of_nat k mod 10)%N :: digits k (n / 10)).
    cbn [app]. do 3 f_equal.
    rewrite N.Div0.div_div, Nat2N.inj_succ, N.pow_succ_r'. reflexivity.
Qed.

Lemma units_little (k : nat) (n : N) :
  List.rev (units_of_uint (little_digits k n)) = digits k n.
Proof.
  revert n. induction k as [|k IH]; intros n; [reflexivity |].
  destruct (little_step k n) as (d & -> & Hu & _).
  rewrite Hu. cbn [List.rev]. now rewrite IH, digits_snoc.
Qed.

Lemma nb_digits_little (k : nat) (n : N) :
  Decimal.nb_digits (little_digits k n) = k.
Proof.
  revert n. induction k as [|k IH]; intros n; [reflexivity |].
  destruct (little_step k n) as (d & -> & _ & _ & Hn).
  now rewrite Hn, IH.
Qed.

(** The digits of a number, padded, are its digits by division. *)
Lemma pad_digits (k : nat) (n : N) :
  0 < k -> (n < 10 ^ N.of_nat k)%N -> pad k n = digits k n.
Proof.
  intros Hk Hn.
  set (d := Decimal.rev (little_digits k n)).
  assert (Hnb : Decimal.nb_digits d = k).
  { unfold d. now rewrite nb_digits_rev, nb_digits_little. }
  assert (Hnil : d <> Decimal.Nil).
  { intros E. rewrite E in Hnb. cbn in Hnb. lia. }
  assert (Hval : N.of_uint d = n).
  { unfold N.of_uint. rewrite DecimalPos.Unsigned.of_uint_alt.
    unfold d. rewrite rev_rev, of_lu_little. now apply N.mod_small. }
  assert (Hto : N.to_uint n = Decimal.unorm d).
  { rewrite <- Hval. apply DecimalN.Unsigned.to_of. }
  unfold pad, decimal. rewrite Hto, length_units, <- units_iter_D0.
  pose proof (iter_D0_unorm d Hnil) as Hi. rewrite Hnb in Hi. rewrite Hi.
  unfold d, Decimal.rev. rewrite units_revapp, app_nil_r.
  apply units_little.
Qed.

(** **** The date in the file name *)

Lemma iso_date_no_T (d : Date) : has_char 84 (iso_date d) = false.
Proof.
  unfold iso_date, year_string.
  destruct ((0 <=? year d) && (year d <=? 9999))%Z;
    [| destruct (year d <? 0)%Z];
    rewrite ?has_char_app, ?has_char_pad by reflexivity;
    reflexivity.
Qed.

Lemma log_file_name_date (now : Date) :
  log_file_name now = js "log_" ++ iso_date now ++ js ".json".
Proof.
  unfold log_file_name, toISOString.
  change (js "T" ++ ?r) with (84%N :: r).
  now rewrite split_head_app by apply iso_date_no_T.
Qed.

Lemma iso_date_text (now : Date) :
  calendar now -> iso_date now = date_text now.
Proof.
  intros (Hy & Hm & Hd). unfold iso_date, date_text, year_string.
  rewrite (pad_digits 2 (month now)) by (cbn; lia).
  rewrite (pad_digits 2 (day now)) by (cbn; lia).
  destruct ((0 <=? year now) && (year now <=? 9999))%Z eqn:E.
  - apply andb_true_iff in E as [E1 E2].
    apply Z.leb_le in E1, E2.
    rewrite (pad_digits 4) by (cbn; lia). reflexivity.
  - rewrite (pad_digits 6) by (cbn; lia).
    destruct (year now <? 0)%Z; reflexivity.
Qed.

(** **** The handler *)

Lemma ancestors_self (p : list jsstring) : p ∈ ancestors p.
Proof.
  induction p as [|x r IH]; cbn [ancestors].
  - apply list_elem_of_here.
  - apply list_elem_of_further. apply list_elem_of_fmap. eauto.
Qed.

Lemma POST_parsed (text : jsstring) (v : json) (now : Date) (w : World) :
  parse text = Some v ->
  POST text now w = (Return logged, after_post v now w).
Proof.
  intros Hv.
  unfold POST, bind, JSON_parse, process_cwd, fs_mkdir_recursive,
    fs_appendFile.
  rewrite Hv. cbn [ret fst snd fs dirs files cwd].
  rewrite removelast_last, log_file_name_date.
  destruct (decide _) as [_ | Hn]; [reflexivity |].
  exfalso. apply Hn. apply elem_of_union_r, elem_of_list_to_set.
  apply ancestors_self.
Qed.

(** * Claim about the memory log *)

(** C4. A [POST] whose body is JSON text returns
    [{ status: "Logged" }] and appends one line to one file: the text
    [JSON.stringify] gives for the value of the body, which holds no
    line feed, followed by a line feed; no other file changes.  The
    file is [logs/MemoryLogs/log_YYYY-MM-DD.json] under the working
    directory, with the digits of the year, the month and the day of
    the current UTC date.  A second [POST] on the same date appends
    its line to the same file, after the first. *)
Theorem memory_log_appends_one_line text v now w :
  parse text = Some v ->
  let file := log_path w now in
  let w1 := snd (POST text now w) in
  fst (POST text now w)
  = Return {| status := 200;
              body := JObj [(js "status", JStr (js "Logged"))] |}
  /\ file_text w1 file = file_text w file ++ stringify v ++ [10%N]
  /\ has_char 10 (stringify v) = false
  /\ (forall other, other <> file ->
        files (fs w1) !! other = files (fs w) !! other)
  /\ (calendar now ->
      file = cwd w ++ [js "logs"; js "MemoryLogs";
                       js "log_" ++ date_text now ++ js ".json"])
  /\ (forall text' v' now',
        parse text' = Some v' ->
        iso_date now' = iso_date now ->
        fst (POST text' now' w1) = Return logged
        /\ file_text (snd (POST text' now' w1)) file
           = file_text w file
               ++ (stringify v ++ [10%N]) ++ (stringify v' ++ [10%N])).
Proof.
  intros Hv file w1. subst file w1.
  rewrite (POST_parsed _ _ _ _ Hv). cbn [fst snd].
  split; [reflexivity |].
  split; [unfold file_text; cbn [after_post fs files];
          now rewrite lookup_insert_eq |].
  split; [apply stringify_one_line |].
  split.
  { intros other Hne. cbn [after_post fs files].
    now rewrite lookup_insert_ne by congruence. }
  split.
  { intros Hc. unfold log_path. rewrite (iso_date_text now Hc).
    now rewrite <- app_assoc. }
  intros text' v' now' Hv' Hday.
  rewrite (POST_parsed _ _ _ _ Hv'). cbn [fst snd].
  split; [reflexivity |].
  assert (Hp : log_path (after_post v now w) now' = log_path w now)
    by (unfold log_path; cbn [after_post cwd]; now rewrite Hday).
  unfold file_text at 1. cbn [after_post fs files].
  rewrite Hp. rewrite lookup_insert_eq.
  cbn [default from_option id].
  unfold file_text at 1. cbn [after_post fs files].
  rewrite lookup_insert_eq.
  cbn [default from_option id].
  now rewrite <- !app_assoc.
Qed.

Lemma memory_log_appends_one_line_witness :
  fst (POST Samples.log_text Samples.june_7 Samples.server)
  = Return {| status := 200;
              body := JObj [(js "status", JStr (js "Logged"))] |}
  /\ file_text (snd (POST Samples.log_text Samples.june_7 Samples.server))
       [js "srv"; js "app"; js "logs"; js "MemoryLogs";
        js "log_2025-06-07.json"]
     = Samples.log_line ++ [10%N].
Proof.
  assert (H : parse Samples.log_text
              = Some (JObj [(js "7", JArr [JBool true; JNull]);
                            (js "prompt", JStr (js "hi!"));
                            (js "score", JNum (Dyadic 3 2))]))
    by (vm_compute; reflexivity).
  pose proof (memory_log_appends_one_line
                Samples.log_text _ Samples.june_7 Samples.server H)
    as (H1 & H2 & _ & _ & H5 & _).
  split; [exact H1 |].
  assert (Hc : calendar Samples.june_7) by (unfold calendar; cbn; lia).
  rewrite (H5 Hc) in H2. exact H2.
Defined.

End MemoryLogFacts.

(** * The chat gateway, the audit stub and the reflection summarizer *)

Module ChatFacts.
Import JsString JsStringFacts Json Http ChatWithPremier ChatSpec.

(** What a call of the client comes to: it sends the request up to
    three times, as long as the failure is one to try again, and ends
    as its last attempt does. *)
Lemma create_runs provider (r : CompletionRequest) (w : World) :
  let a0 := provider (length (sent w)) r in
  let a1 := provider (S (length (sent w))) r in
  let a2 := provider (S (S (length (sent w)))) r in
  openai_chat_completions_create provider r w
  = (match last_attempt a0 a1 a2 with
     | Answered response => Return response
     | Failed _ e => Throw e
     end,
     {| OPENAI_API_KEY := OPENAI_API_KEY w;
        sent := sent w ++ repeat r (requests_sent a0 a1) |}).
Proof.
  intros a0 a1 a2. subst a0 a1 a2.
  unfold openai_chat_completions_create, DEFAULT_MAX_RETRIES.
  cbn [makeRequest sent OPENAI_API_KEY].
  rewrite !length_app. cbn [length]. rewrite !Nat.add_1_r.
  unfold last_attempt, requests_sent.
  destruct (provider (length (sent w)) r) as [c0 | [] e0];
    [reflexivity | | reflexivity].
  destruct (provider (S (length (sent w))) r) as [c1 | [] e1];
    cbn [repeat]; rewrite <- ?app_assoc; [reflexivity | | reflexivity].
  destruct (provider (S (S (length (sent w)))) r) as [c2 | [] e2];
    cbn [repeat app]; rewrite <- ?app_assoc; reflexivity.
Qed.

Lemma requests_sent_bounds (a0 a1 : Attempt) :
  1 <= requests_sent a0 a1 <= 3.
Proof.
  unfold requests_sent.
  destruct a0 as [|[] ?]; [lia | | lia]. destruct a1 as [|[] ?]; lia.
Qed.

Lemma request_for_of (req : RequestBody) :
  request_for req
  = request_of (prompt req) (context_or_empty (context req)).
Proof. reflexivity. Qed.

Lemma POST_runs provider (req : RequestBody) (w : World) :
  let r := request_for req in
  let a0 := provider (length (sent w)) r in
  let a1 := provider (S (length (sent w))) r in
  let a2 := provider (S (S (length (sent w)))) r in
  POST provider req w
  = match OPENAI_API_KEY w with
    | None => (Throw OpenAIError, w)
    | Some _ =>
        (match last_attempt a0 a1 a2 with
         | Answered response =>
             Return (NextResponse_json
                       (JObj [(js "content",
                               JStr (first_choice_text response))])
                       None)
         | Failed _ e => Throw e
         end,
         {| OPENAI_API_KEY := OPENAI_API_KEY w;
            sent := sent w ++ repeat r (requests_sent a0 a1) |})
    end.
Proof.
  intros r a0 a1 a2. subst r a0 a1 a2.
  unfold POST, bind at 1, new_OpenAI.
  destruct (OPENAI_API_KEY w) as [key|] eqn:Hkey; [| reflexivity].
  unfold bind, build_messages.
  change ([system_preamble] ++ ?l) with (system_preamble :: l).
  fold (user_message (prompt req)). fold (request_for req).
  rewrite create_runs. rewrite Hkey.
  destruct (last_attempt _ _ _); reflexivity.
Qed.

Lemma POST_sent provider (req : RequestBody) (w : World) :
  exists n, n <= 3
    /\ sent (snd (POST provider req w))
       = sent w ++ repeat (request_for req) n
    /\ (OPENAI_API_KEY w <> None -> 1 <= n).
Proof.
  rewrite POST_runs. destruct (OPENAI_API_KEY w) as [key|].
  - eexists. split; [| split; [reflexivity |]];
      intros; apply requests_sent_bounds.
  - exists 0. cbn. rewrite app_nil_r.
    split; [lia |]. split; [reflexivity | congruence].
Qed.

(** C3. Every request that a call of the chat gateway sends to the
    hosted API (one, or up to three when the client tries again; none
    when the server has no API key) is for the model [gpt-4o] and has
    as its message array the system message with the fixed preamble,
    then the entries of the context, then the prompt as a user
    message; with an empty or absent context the array is the
    preamble followed by the prompt. *)
Theorem chat_sends_preamble_first provider text ctx agent w :
  (exists n, n <= 3
     /\ sent (snd (POST provider {| prompt := text; context := Some ctx;
                                    agentName := agent |} w))
        = sent w
          ++ repeat
               {| model := js "gpt-4o";
                  messages :=
                    {| role := js "system";
                       content := js "You are Premier, the primary agent of AetheroOS, orchestrating Signal Root with introspective reasoning in ASL." |}
                      :: ctx ++ [{| role := js "user"; content := text |}];
                  temperature := (7 # 10)%Q;
                  max_tokens := 1000 |} n
     /\ (OPENAI_API_KEY w <> None -> 1 <= n))
  /\ (exists n, n <= 3
        /\ sent (snd (POST provider {| prompt := text; context := None;
                                       agentName := agent |} w))
           = sent w
             ++ repeat
                  {| model := js "gpt-4o";
                     messages :=
                       [{| role := js "system";
                           content := js "You are Premier, the primary agent of AetheroOS, orchestrating Signal Root with introspective reasoning in ASL." |};
                        {| role := js "user"; content := text |}];
                     temperature := (7 # 10)%Q;
                     max_tokens := 1000 |} n
        /\ (OPENAI_API_KEY w <> None -> 1 <= n)).
Proof.
  split.
  - exact (POST_sent provider
             {| prompt := text; context := Some ctx; agentName := agent |} w).
  - exact (POST_sent provider
             {| prompt := text; context := None; agentName := agent |} w).
Qed.

Lemma gateway_request_sample :
  sent (snd (POST Samples.answering
               {| prompt := js "hello";
                  context := Some [{| role := js "user"; content := js "hi" |};
                                   {| role := js "assistant";
                                      content := js "welcome" |}];
                  agentName := Some (js "Lucius") |} Samples.gateway))
  = [{| model := js "gpt-4o";
        messages :=
          [{| role := js "system";
              content := js "You are Premier, the primary agent of AetheroOS, orchestrating Signal Root with introspective reasoning in ASL." |};
           {| role := js "user"; content := js "hi" |};
           {| role := js "assistant"; content := js "welcome" |};
           {| role := js "user"; content := js "hello" |}];
        temperature := (7 # 10)%Q;
        max_tokens := 1000 |}].
Proof. reflexivity. Qed.

(** C10. The gateway does not look at [agentName]: two request
    bodies with the same prompt and context make it send the same
    request and behave the same, whatever their agent names; the
    preamble names Premier; and the chat client does put the agent's
    name in the body it posts. *)
Theorem chat_ignores_agentName provider text ctx agent1 agent2 w :
  POST provider {| prompt := text; context := ctx; agentName := agent1 |} w
  = POST provider {| prompt := text; context := ctx; agentName := agent2 |} w
  /\ build_messages {| prompt := text; context := ctx; agentName := agent1 |}
     = build_messages {| prompt := text; context := ctx; agentName := agent2 |}
  /\ startsWith (content system_preamble) (js "You are Premier,") = true
  /\ (forall thread name1 name2,
        agentName (AgentChat.chat_request text thread name1) = Some name1
        /\ POST provider (AgentChat.chat_request text thread name1) w
           = POST provider (AgentChat.chat_request text thread name2) w).
Proof.
  repeat split.
Qed.

End ChatFacts.

Module AuditFacts.
Import JsString Json Http Audit.

(** C5. Whatever the thread id, the audit handler returns status 501
    with an error message as its body, and changes nothing. *)
Theorem audit_always_501 (S : Type) (threadId : jsstring) (w : S) :
  handle threadId w
  = (Return {| status := 501;
               body := JObj [(js "error", JStr not_available)] |}, w)
  /\ truthy not_available = true.
Proof. split; reflexivity. Qed.

End AuditFacts.

Module AslParserFacts.
Import JsString JsStringFacts Json JsonFacts AslParser AslParserSpec.

Lemma summary_plain (thread : list Pair) :
  plain (JArr (map summary_entry thread)) = true.
Proof.
  apply plain_arr. apply List.Forall_forall. intros x Hx.
  apply in_map_iff in Hx as (p & <- & _). reflexivity.
Qed.

(** C8. [runIntrospectiveAnalysis] returns JSON text that denotes an
    array with one object per pair, in the order of the pairs; the
    object's [intent] and [reasoning] hold the first 50 characters at
    most of the prompt and of the response, and its [aslOutput] is the
    fixed tag. *)
Theorem introspective_summary (thread : list Pair) :
  exists summary : list json,
    parse (runIntrospectiveAnalysis thread) = Some (JArr summary)
    /\ Forall2 summarises thread summary.
Proof.
  exists (map summary_entry thread). split.
  - apply parse_stringify, summary_plain.
  - induction thread as [|p thread IH]; cbn [map]; constructor; [| exact IH].
    exists (slice0 50 (prompt p)), (slice0 50 (response p)).
    rewrite !startsWith_slice0, !length_slice0.
    repeat split; lia.
Qed.

End AslParserFacts.

(** * More on the thread store *)

Module ThreadIndexFacts.
Import JsString JsStringFacts JsNumber Json JsonSpec JsonFacts.
Import Browser ThreadManager ThreadManagerFacts.

Lemma loop_filter (n i : nat) (acc : list jsstring) (w : World) :
  getAllThreadIds_loop n i acc w
  = (Return (acc ++ filter (fun k => is_thread_key k = true)
                      (take n (drop i (localStorage_keys (localStorage w))))),
     w).
Proof.
  revert i acc. induction n as [|n IH]; intros i acc.
  - cbn. now rewrite app_nil_r.
  - cbn [getAllThreadIds_loop]. unfold bind, localStorage_key.
    rewrite IH.
    destruct (localStorage_keys (localStorage w) !! i) as [k|] eqn:Hk.
    + rewrite (drop_S _ _ _ Hk). cbn [take].
      rewrite filter_cons.
      destruct (decide (is_thread_key k = true)) as [Hp | Hp].
      * rewrite Hp. now rewrite <- app_assoc.
      * apply not_true_is_false in Hp. now rewrite Hp.
    + apply lookup_ge_None in Hk.
      rewrite !drop_ge by lia. now rewrite take_nil.
Qed.

Lemma getAllThreadIds_filter (w : World) :
  getAllThreadIds w
  = (Return (filter (fun k => is_thread_key k = true)
               (localStorage_keys (localStorage w))), w).
Proof.
  unfold getAllThreadIds, bind, localStorage_length.
  rewrite loop_filter. cbn [app]. rewrite drop_0.
  now rewrite firstn_all.
Qed.

Lemma is_thread_key_prefix (k : jsstring) :
  is_thread_key k = true <-> startsWith k THREAD_PREFIX = true.
Proof.
  unfold is_thread_key. split.
  - intros H. now apply andb_true_iff in H.
  - intros H. rewrite H. destruct k; [discriminate H | reflexivity].
Qed.

Lemma elem_of_keys (k : jsstring) (st : Storage) :
  k ∈ localStorage_keys st <-> is_Some (items st !! k).
Proof.
  unfold localStorage_keys. rewrite list_elem_of_fmap. split.
  - intros ([k' v] & -> & H). apply elem_of_map_to_list in H. eauto.
  - intros [v H]. exists (k, v). split; [reflexivity |].
    now apply elem_of_map_to_list.
Qed.

(** X1. [getAllThreadIds] lists, without repetition and without
    touching the store, exactly the keys of [localStorage] that start
    with ['aeth_chat_thread_']. *)
Theorem getAllThreadIds_lists_thread_keys (w : World) :
  exists ids : list jsstring,
    getAllThreadIds w = (Return ids, w)
    /\ NoDup ids
    /\ (forall k, k ∈ ids <->
                  is_Some (items (localStorage w) !! k)
                  /\ startsWith k (js "aeth_chat_thread_") = true).
Proof.
  eexists. split; [apply getAllThreadIds_filter |]. split.
  - apply NoDup_filter. apply NoDup_fst_map_to_list.
  - intros k. rewrite list_elem_of_filter, elem_of_keys, is_thread_key_prefix.
    unfold THREAD_PREFIX. tauto.
Qed.

(** X2. A thread id that [createNewThreadId] has returned is listed by
    [getAllThreadIds] afterwards. *)
Theorem created_thread_is_listed now threadId (w : World) :
  fst (createNewThreadId now w) = Return threadId ->
  exists ids,
    getAllThreadIds (snd (createNewThreadId now w))
    = (Return ids, snd (createNewThreadId now w))
    /\ threadId ∈ ids.
Proof.
  unfold createNewThreadId, bind, localStorage_setItem.
  destruct (fits _ _ _); cbn [fst snd ret]; intros H; [| discriminate H].
  injection H as <-.
  rewrite getAllThreadIds_filter. eexists. split; [reflexivity |].
  rewrite list_elem_of_filter, elem_of_keys, is_thread_key_prefix.
  split.
  - exact (startsWith_app THREAD_PREFIX (Number_toString now)).
  - cbn [localStorage items]. rewrite lookup_insert_eq. eauto.
Qed.

Lemma created_thread_is_listed_witness :
  exists ids,
    getAllThreadIds
      (snd (createNewThreadId 1717000000000 (Samples.browser 1000)))
    = (Return ids,
       snd (createNewThreadId 1717000000000 (Samples.browser 1000)))
    /\ js "aeth_chat_thread_1717000000000" ∈ ids.
Proof.
  apply (created_thread_is_listed 1717000000000
           (js "aeth_chat_thread_1717000000000") (Samples.browser 1000)).
  vm_compute. reflexivity.
Defined.

(** What an operation of the thread store can do to the items. *)
Lemma save_items threadId messages (w : World) :
  items (localStorage (snd (saveMessagesToThread threadId messages w)))
  = items (localStorage w)
  \/ items (localStorage (snd (saveMessagesToThread threadId messages w)))
     = <[threadId := stringify (Messages_toJSON messages)]>
         (items (localStorage w)).
Proof.
  unfold saveMessagesToThread.
  destruct (rejected_id threadId); [now left |].
  unfold try_catch, localStorage_setItem.
  destruct (fits _ _ _); [now right | now left].
Qed.

Lemma create_items now (w : World) :
  items (localStorage (snd (createNewThreadId now w)))
  = items (localStorage w)
  \/ items (localStorage (snd (createNewThreadId now w)))
     = <[THREAD_PREFIX ++ Number_toString now := stringify (JArr [])]>
         (items (localStorage w)).
Proof.
  unfold createNewThreadId, bind, localStorage_setItem.
  destruct (fits _ _ _); [now right | now left].
Qed.

Lemma get_store threadId (w : World) :
  localStorage (snd (getMessagesForThread threadId w)) = localStorage w.
Proof.
  unfold getMessagesForThread.
  destruct (rejected_id threadId); [reflexivity |].
  unfold try_catch, bind, localStorage_getItem, JSON_parse.
  destruct (items (localStorage w) !! threadId) as [text|]; [| reflexivity].
  destruct (truthy text); [| reflexivity].
  destruct (parse text); reflexivity.
Qed.

Lemma listed_iff (k : jsstring) (w : World) :
  k ∈ filter (fun k => is_thread_key k = true)
        (localStorage_keys (localStorage w))
  <-> is_Some (items (localStorage w) !! k)
      /\ startsWith k THREAD_PREFIX = true.
Proof.
  rewrite list_elem_of_filter, elem_of_keys, is_thread_key_prefix. tauto.
Qed.

Lemma listed_insert (k key value : jsstring) (m : gmap jsstring jsstring) :
  is_Some (m !! k) -> is_Some (<[key := value]> m !! k).
Proof.
  intros H. destruct (decide (key = k)) as [-> | Hne].
  - rewrite lookup_insert_eq. eauto.
  - now rewrite lookup_insert_ne.
Qed.

(** X3. No operation of the thread store takes a thread off the list:
    an id that [getAllThreadIds] returns is still returned after
    [createNewThreadId], [saveMessagesToThread] or
    [getMessagesForThread], whatever their arguments and outcome. *)
Theorem no_thread_is_ever_unlisted now threadId messages k (w : World) :
  k ∈ ThreadIndexSpec.listed w ->
  k ∈ ThreadIndexSpec.listed (snd (createNewThreadId now w))
  /\ k ∈ ThreadIndexSpec.listed (snd (saveMessagesToThread threadId messages w))
  /\ k ∈ ThreadIndexSpec.listed (snd (getMessagesForThread threadId w)).
Proof.
  unfold ThreadIndexSpec.listed. rewrite !getAllThreadIds_filter.
  cbn [fst]. rewrite !listed_iff. intros [Hk Hp].
  repeat split; try assumption.
  - destruct (create_items now w) as [-> | ->];
      [assumption | now apply listed_insert].
  - destruct (save_items threadId messages w) as [-> | ->];
      [assumption | now apply listed_insert].
  - now rewrite get_store.
Qed.

Lemma no_thread_is_ever_unlisted_witness :
  Samples.thread_id
  ∈ ThreadIndexSpec.listed
      (snd (saveMessagesToThread (js "aeth_chat_thread_2") [Samples.reply]
              (Samples.browser_with (js "[]")))).
Proof.
  apply (no_thread_is_ever_unlisted 0 (js "aeth_chat_thread_2")
           [Samples.reply] Samples.thread_id
           (Samples.browser_with (js "[]"))).
  vm_compute. apply list_elem_of_here.
Defined.

End ThreadIndexFacts.

Module ThreadStoreFacts.
Import JsString JsStringFacts JsNumber JsonSpec JsNumberFacts Json JsonFacts.
Import Browser ThreadManager ThreadManagerFacts.

(** What [getMessagesForThread] returns depends on the store only
    through the item under the thread id. *)
Lemma get_result_local threadId (w1 w2 : World) :
  items (localStorage w1) !! threadId = items (localStorage w2) !! threadId ->
  fst (getMessagesForThread threadId w1) = fst (getMessagesForThread threadId w2).
Proof.
  intros H. unfold getMessagesForThread.
  destruct (rejected_id threadId); [reflexivity |].
  unfold try_catch, bind, localStorage_getItem, JSON_parse.
  rewrite H.
  destruct (items (localStorage w2) !! threadId) as [text|]; [| reflexivity].
  destruct (truthy text); [| reflexivity].
  destruct (parse text); reflexivity.
Qed.

(** X4. When the new list does not fit in the store,
    [saveMessagesToThread] returns normally, writes one line on the
    console and leaves the store as it was: the messages saved before
    are still what [getMessagesForThread] returns. *)
Theorem failed_save_keeps_previous threadId previous messages (w : World) :
  startsWith threadId THREAD_PREFIX = true ->
  items (localStorage w) !! threadId
  = Some (stringify (Messages_toJSON previous)) ->
  fits threadId (stringify (Messages_toJSON messages)) (localStorage w)
  = false ->
  let w' := snd (saveMessagesToThread threadId messages w) in
  fst (saveMessagesToThread threadId messages w) = Return tt
  /\ localStorage w' = localStorage w
  /\ console w'
     = console w
       ++ [(js "Failed to save messages to localStorage:",
            QuotaExceededError)]
  /\ fst (getMessagesForThread threadId w')
     = Return (Messages_toJSON previous).
Proof.
  intros Hp Hold Hfit w'. subst w'.
  pose proof (rejected_id_prefix _ Hp) as Hid.
  rewrite saveMessagesToThread_full by assumption. cbn [fst snd].
  repeat split.
  rewrite (getMessagesForThread_stored _ (Messages_toJSON previous));
    [reflexivity | apply Messages_toJSON_plain | assumption | assumption].
Qed.

Lemma failed_save_keeps_previous_witness :
  fst (getMessagesForThread Samples.thread_id
         (snd (saveMessagesToThread Samples.thread_id
                 [Samples.hello; Samples.reply] Samples.small_browser)))
  = Return (Messages_toJSON [Samples.hello]).
Proof.
  apply (failed_save_keeps_previous Samples.thread_id [Samples.hello]
           [Samples.hello; Samples.reply] Samples.small_browser);
    vm_compute; reflexivity.
Defined.

(** X5. Threads do not interfere: what [getMessagesForThread] returns
    for one id is the same before and after [saveMessagesToThread] on
    another id, and before and after a [createNewThreadId] that yields
    another id. *)
Theorem other_threads_are_untouched threadId other messages now (w : World) :
  other <> threadId ->
  fst (getMessagesForThread threadId
         (snd (saveMessagesToThread other messages w)))
  = fst (getMessagesForThread threadId w)
  /\ (THREAD_PREFIX ++ Number_toString now <> threadId ->
      fst (getMessagesForThread threadId (snd (createNewThreadId now w)))
      = fst (getMessagesForThread threadId w)).
Proof.
  intros Hne. split.
  - apply get_result_local.
    destruct (ThreadIndexFacts.save_items other messages w) as [-> | ->];
      [reflexivity | now apply lookup_insert_ne].
  - intros Hnew. apply get_result_local.
    destruct (ThreadIndexFacts.create_items now w) as [-> | ->];
      [reflexivity | now apply lookup_insert_ne].
Qed.

Lemma other_threads_are_untouched_witness :
  fst (getMessagesForThread Samples.thread_id
         (snd (saveMessagesToThread (js "aeth_chat_thread_2") [Samples.reply]
                 (Samples.browser_with (js "[]")))))
  = fst (getMessagesForThread Samples.thread_id
           (Samples.browser_with (js "[]"))).
Proof.
  assert (H : js "aeth_chat_thread_2" <> Samples.thread_id)
    by (vm_compute; discriminate).
  exact (proj1 (other_threads_are_untouched Samples.thread_id
                  (js "aeth_chat_thread_2") [Samples.reply] 0
                  (Samples.browser_with (js "[]")) H)).
Defined.

(** X6. Thread ids are as different as the readings of the clock: two
    calls of [createNewThreadId] that return give the same id exactly
    when [Date.now()] gave them the same value. *)
Theorem thread_ids_differ_with_time now1 now2 id1 id2 (w1 w2 : World) :
  fst (createNewThreadId now1 w1) = Return id1 ->
  fst (createNewThreadId now2 w2) = Return id2 ->
  (id1 = id2 <-> now1 = now2).
Proof.
  intros H1 H2.
  apply createNewThreadId_id in H1 as ->.
  apply createNewThreadId_id in H2 as ->.
  split; [| now intros ->].
  intros H. apply app_inv_head in H. now apply Number_toString_inj.
Qed.

Lemma thread_ids_differ_with_time_witness :
  js "aeth_chat_thread_1717000000000" = js "aeth_chat_thread_1717000000001"
  <-> 1717000000000%Z = 1717000000001%Z.
Proof.
  apply (thread_ids_differ_with_time 1717000000000 1717000000001
           _ _ (Samples.browser 1000) (Samples.browser 2000));
    vm_compute; reflexivity.
Defined.

(** X7. [getMessagesForThread] checks nothing about what it reads:
    when the item under a valid thread id is JSON text, the value that
    [JSON.parse] gives for it, a message list or not, is returned as
    the thread's messages and the console stays silent. *)
Theorem read_returns_any_stored_value threadId text (v : json) (w : World) :
  startsWith threadId THREAD_PREFIX = true ->
  items (localStorage w) !! threadId = Some text ->
  parse text = Some v ->
  getMessagesForThread threadId w = (Return v, w).
Proof.
  intros Hp Hget Hv.
  apply (getMessagesForThread_parsed _ text); try assumption.
  now apply rejected_id_prefix.
Qed.

Lemma read_returns_any_stored_value_witness :
  getMessagesForThread Samples.thread_id
    (Samples.browser_with (Samples.json_text "{'a':1,'b':1.5e0,'a':'x'}"))
  = (Return (JObj [(js "a", JStr (js "x")); (js "b", JNum (Dyadic 3 1))]),
     Samples.browser_with (Samples.json_text "{'a':1,'b':1.5e0,'a':'x'}")).
Proof.
  apply (read_returns_any_stored_value Samples.thread_id
           (Samples.json_text "{'a':1,'b':1.5e0,'a':'x'}"));
    vm_compute; reflexivity.
Defined.

(** X8. Reading a valid thread id returns the empty list in three
    cases: silently when nothing is stored under the id or the stored
    text is empty, and with one line on the console when the stored
    text is not JSON.  The store is never changed. *)
Theorem unreadable_thread_reads_empty threadId (w : World) :
  startsWith threadId THREAD_PREFIX = true ->
  (items (localStorage w) !! threadId = None
   \/ items (localStorage w) !! threadId = Some [] ->
   getMessagesForThread threadId w = (Return (JArr []), w))
  /\ (forall text,
        items (localStorage w) !! threadId = Some text ->
        text <> [] ->
        parse text = None ->
        getMessagesForThread threadId w
        = (Return (JArr []),
           {| localStorage := localStorage w;
              console :=
                console w
                ++ [(js "Failed to retrieve or parse messages from localStorage:",
                     SyntaxError)] |})).
Proof.
  intros Hp. apply rejected_id_prefix in Hp. split.
  - unfold getMessagesForThread. rewrite Hp.
    unfold try_catch, bind, localStorage_getItem.
    intros [-> | ->]; reflexivity.
  - intros text Hget Hne Hparse.
    apply (getMessagesForThread_malformed _ text); try assumption.
    destruct text; [congruence | reflexivity].
Qed.

Lemma unreadable_thread_reads_empty_witness :
  getMessagesForThread Samples.thread_id (Samples.browser_with (js "[{"))
  = (Return (JArr []),
     {| localStorage := localStorage (Samples.browser_with (js "[{"));
        console :=
          [(js "Failed to retrieve or parse messages from localStorage:",
            SyntaxError)] |}).
Proof.
  apply (proj2 (unreadable_thread_reads_empty Samples.thread_id
                  (Samples.browser_with (js "[{")) eq_refl) (js "[{"));
    [reflexivity | discriminate | vm_compute; reflexivity].
Defined.

End ThreadStoreFacts.

(** * The chat page *)

Module ChatPageFacts.
Import JsString JsStringFacts JsNumber Json JsonSpec JsonFacts ThreadManager.
Import ThreadManagerFacts ChatPage ChatPageSpec.

(** **** The context sent with a prompt *)

(** X9. The context [handleSend] builds has one entry per message of
    the thread, in order and with the same content; its role is
    ['user'] for a user's message and ['assistant'] for any other. *)
Theorem context_mirrors_thread (l : list Message) :
  length (AgentChat.context_of l) = length l
  /\ map ChatWithPremier.content (AgentChat.context_of l) = map content l
  /\ Forall2 (fun m c =>
                (role m = user /\ ChatWithPremier.role c = js "user")
                \/ (role m <> user
                    /\ ChatWithPremier.role c = js "assistant"))
             l (AgentChat.context_of l).
Proof.
  unfold AgentChat.context_of. split; [apply length_map |]. split.
  - rewrite map_map. reflexivity.
  - induction l as [|m l IH]; constructor; [| exact IH].
    cbn. destruct (role m); [left | right | right]; split;
      (reflexivity || discriminate).
Qed.

(** **** The couples [handleAnalysis] summarises *)

Lemma analysis_pairs_step (a b : Message) (rest : list Message) :
  analysis_pairs (a :: b :: rest)
  = match role a, role b with
    | user, agent => pair_of (a, b) :: analysis_pairs rest
    | _, _ => analysis_pairs rest
    end.
Proof. reflexivity. Qed.

Lemma analysis_pairs_exchanges (l : list (Message * Message))
    (rest : list Message) :
  Forall exchange l ->
  analysis_pairs (flatten l ++ rest) = map pair_of l ++ analysis_pairs rest.
Proof.
  induction 1 as [|[a b] l [Ha Hb] Hl IH]; [reflexivity |].
  cbn in Ha, Hb. cbn [flatten flat_map fst snd app map].
  fold (flatten l). rewrite analysis_pairs_step, Ha, Hb. now rewrite IH.
Qed.

Lemma analysis_pairs_shifted (m : Message) (l : list (Message * Message)) :
  Forall exchange l -> analysis_pairs (m :: flatten l) = [].
Proof.
  intros H. revert m. induction H as [|[a b] l [Ha Hb] Hl IH]; intros m.
  - reflexivity.
  - cbn in Ha, Hb. cbn [flatten flat_map fst snd app].
    fold (flatten l). rewrite analysis_pairs_step, Ha, IH.
    now destruct (role m).
Qed.

(** X10. On a thread made of exchanges, a user's message followed by
    an agent's, [handleAnalysis] pairs up every exchange, in order. *)
Theorem analysis_pairs_every_exchange (l : list (Message * Message)) :
  Forall exchange l ->
  analysis_pairs (flatten l) = map pair_of l.
Proof.
  intros H. rewrite <- (app_nil_r (flatten l)).
  rewrite analysis_pairs_exchanges by assumption.
  cbn. apply app_nil_r.
Qed.

Lemma analysis_pairs_every_exchange_witness :
  analysis_pairs (flatten [(Samples.hello, Samples.reply)])
  = map pair_of [(Samples.hello, Samples.reply)].
Proof.
  apply (analysis_pairs_every_exchange [(Samples.hello, Samples.reply)]).
  repeat constructor.
Defined.

(** X11. One message out of step hides what follows it: when a single
    message, whatever it is, stands between two runs of exchanges, the
    exchanges before it are paired up and none of those after it. *)
Theorem analysis_pairs_out_of_step (l1 l2 : list (Message * Message))
    (m : Message) :
  Forall exchange l1 -> Forall exchange l2 ->
  analysis_pairs (flatten l1 ++ m :: flatten l2) = map pair_of l1.
Proof.
  intros H1 H2. rewrite analysis_pairs_exchanges by assumption.
  rewrite analysis_pairs_shifted by assumption. apply app_nil_r.
Qed.

Lemma analysis_pairs_out_of_step_witness :
  analysis_pairs
    (flatten [(Samples.hello, Samples.reply)]
       ++ Samples.hello :: flatten [(Samples.hello, Samples.reply)])
  = map pair_of [(Samples.hello, Samples.reply)].
Proof.
  apply (analysis_pairs_out_of_step [(Samples.hello, Samples.reply)]
           [(Samples.hello, Samples.reply)] Samples.hello);
    repeat constructor.
Defined.

(** **** Threads of the state *)

Lemma find_thread_id (i : jsstring) (l : list Thread) (th : Thread) :
  find_thread i l = Some th -> id th = i.
Proof.
  unfold find_thread. intros H. apply find_some in H as [_ H].
  now apply eqb_eq.
Qed.

Lemma find_push_first (i : jsstring) (m : Message) (l : list Thread)
    (th : Thread) :
  find_thread i l = Some th ->
  find_thread i (push_first i m l)
  = Some {| id := id th; messages := messages th ++ [m] |}.
Proof.
  unfold find_thread. induction l as [|t l IH]; [discriminate |].
  cbn [find push_first]. destruct (eqb (id t) i) eqn:E.
  - intros [= <-]. cbn [find id]. now rewrite E.
  - intros H. cbn [find]. rewrite E. auto.
Qed.

Lemma find_replace (i : jsstring) (all : list Message) (l : list Thread)
    (th : Thread) :
  find_thread i l = Some th ->
  find_thread i (replace_thread i all l)
  = Some {| id := i; messages := all |}.
Proof.
  unfold find_thread, replace_thread.
  induction l as [|t l IH]; [discriminate |].
  cbn [find map]. destruct (eqb (id t) i) eqn:E.
  - intros _. cbn [find id]. now rewrite eqb_refl.
  - intros H. cbn [find]. rewrite E. auto.
Qed.

Lemma find_replace_other (i j : jsstring) (all : list Message)
    (l : list Thread) :
  j <> i ->
  find_thread j (replace_thread i all l) = find_thread j l.
Proof.
  intros Hne. unfold find_thread, replace_thread.
  induction l as [|t l IH]; [reflexivity |].
  cbn [find map]. destruct (eqb (id t) i) eqn:E.
  - apply eqb_eq in E. cbn [find id].
    assert (E1 : eqb i j = false) by (apply eqb_neq; congruence).
    assert (E2 : eqb (id t) j = false) by (apply eqb_neq; congruence).
    rewrite E1, E2. exact IH.
  - cbn [find]. now rewrite IH.
Qed.

Lemma replace_absent (i : jsstring) (all : list Message) (l : list Thread) :
  find_thread i l = None -> replace_thread i all l = l.
Proof.
  unfold find_thread, replace_thread.
  induction l as [|t l IH]; [reflexivity |].
  cbn [find map]. destruct (eqb (id t) i); [discriminate |].
  intros H. now rewrite IH.
Qed.

Lemma log_entry_plain threadId name prompt response aslSummary t :
  plain (log_entry threadId name prompt response aslSummary t) = true.
Proof.
  apply plain_obj.
  destruct aslSummary; unfold log_entry; cbn [app];
    (split; [vm_compute; reflexivity |]);
    (split; [vm_compute; reflexivity |]);
    repeat constructor; cbn [snd plain safe_number of_Z];
    apply TimeValue_safe.
Qed.

Section Network.
Variable clock : nat -> TimeValue.
Variable chat : ChatWithPremier.RequestBody -> Outcome jsstring.
Variable post_log : jsstring -> Outcome unit.

Lemma in_browser_save (i : jsstring) (l : list Message) (w : World) :
  in_browser (saveMessagesToThread i l) w
  = (Return tt, with_browser (snd (saveMessagesToThread i l (browser w))) w).
Proof.
  unfold in_browser.
  pose proof (saveMessagesToThread_returns i l (browser w)) as H.
  destruct (saveMessagesToThread i l (browser w)) as [o b].
  cbn in H. now subst o.
Qed.

(** What [logMemory] does: one reading of the clock, one post. *)
Lemma logMemory_runs prompt response aslSummary threadId agentName
    (w : World) :
  logMemory clock post_log prompt response aslSummary threadId agentName w
  = (Return tt,
     {| browser :=
          after_log
            (post_log (stringify (log_entry threadId agentName prompt
                                    response aslSummary
                                    (clock (clock_reads w)))))
            (browser w);
        state := state w;
        clock_reads := S (clock_reads w);
        chat_posts := chat_posts w;
        log_posts :=
          log_posts w
          ++ [stringify (log_entry threadId agentName prompt response
                           aslSummary (clock (clock_reads w)))];
        alerts := alerts w |}).
Proof.
  unfold logMemory, bind, try_catch, Date_now, fetch_log, in_browser,
    after_log.
  destruct (post_log _) as [[] | e]; reflexivity.
Qed.

(** One round whose chat call returns [reply]. *)
Lemma round_returns prompt i name reply (nt : list Thread) (w : World) :
  let before := match find_thread i nt with
                | Some t => messages t
                | None => []
                end in
  let userMsg := user_message prompt (clock (clock_reads w)) in
  let agentMsg := agent_message name reply (clock (S (clock_reads w))) in
  let body :=
    stringify (log_entry i name prompt reply None
                 (clock (S (S (clock_reads w))))) in
  chat (AgentChat.chat_request prompt (before ++ [userMsg]) name)
  = Return reply ->
  handleSend_round clock chat post_log prompt i name nt w
  = (Return (replace_thread i (before ++ [userMsg; agentMsg]) nt),
     {| browser :=
          snd (saveMessagesToThread i (before ++ [userMsg; agentMsg])
                 (after_log (post_log body) (browser w)));
        state :=
          {| activeAgent := activeAgent (state w);
             activeThreadId := activeThreadId (state w);
             threads := pushed (find_thread i nt) i [userMsg; agentMsg]
                          (threads (state w));
             loading := loading (state w) |};
        clock_reads := S (S (S (clock_reads w)));
        chat_posts :=
          chat_posts w
          ++ [AgentChat.chat_request prompt (before ++ [userMsg]) name];
        log_posts := log_posts w ++ [body];
        alerts := alerts w |}).
Proof.
  intros before userMsg agentMsg body Hchat.
  subst before userMsg agentMsg body.
  destruct w as [b [aa ai ts ld] r cp lp al].
  unfold handleSend_round, user_message, agent_message in *.
  unfold bind, Date_now, push_shared, fetch_chat.
  destruct (find_thread i nt) as [th|] eqn:Hfind;
    cbn [with_state browser state clock_reads chat_posts log_posts alerts
         activeAgent activeThreadId threads loading] in *;
    rewrite Hchat;
    cbn [with_state browser state clock_reads chat_posts log_posts alerts
         activeAgent activeThreadId threads loading];
    rewrite logMemory_runs;
    cbn [with_state browser state clock_reads chat_posts log_posts alerts
         activeAgent activeThreadId threads loading];
    rewrite in_browser_save;
    reflexivity.
Qed.

(** One round whose chat call fails with [e]. *)
Lemma round_throws prompt i name e (nt : list Thread) (w : World) :
  let before := match find_thread i nt with
                | Some t => messages t
                | None => []
                end in
  let userMsg := user_message prompt (clock (clock_reads w)) in
  chat (AgentChat.chat_request prompt (before ++ [userMsg]) name)
  = Throw e ->
  handleSend_round clock chat post_log prompt i name nt w
  = (Throw e,
     {| browser := browser w;
        state :=
          {| activeAgent := activeAgent (state w);
             activeThreadId := activeThreadId (state w);
             threads := pushed (find_thread i nt) i [userMsg]
                          (threads (state w));
             loading := loading (state w) |};
        clock_reads := S (clock_reads w);
        chat_posts :=
          chat_posts w
          ++ [AgentChat.chat_request prompt (before ++ [userMsg]) name];
        log_posts := log_posts w;
        alerts := alerts w |}).
Proof.
  intros before userMsg Hchat. subst before userMsg.
  destruct w as [b [aa ai ts ld] r cp lp al].
  unfold handleSend_round, user_message in *.
  unfold bind, Date_now, push_shared, fetch_chat.
  destruct (find_thread i nt) as [th|] eqn:Hfind;
    cbn [with_state browser state clock_reads chat_posts log_posts alerts
         activeAgent activeThreadId threads loading] in *;
    rewrite Hchat; reflexivity.
Qed.

Lemma save_storage (i : jsstring) (l : list Message) (b : Browser.World) :
  Browser.localStorage (snd (saveMessagesToThread i l b))
  = stored_after i l (Browser.localStorage b).
Proof.
  unfold saveMessagesToThread, stored_after.
  destruct (rejected_id i); [reflexivity |].
  unfold try_catch, Browser.localStorage_setItem.
  destruct (Browser.fits _ _ _); reflexivity.
Qed.

Lemma after_log_storage (o : Outcome unit) (b : Browser.World) :
  Browser.localStorage (after_log o b) = Browser.localStorage b.
Proof. destruct o; reflexivity. Qed.

(** A single send whose chat call returns [reply]. *)
Lemma single_send_returns prompt reply (w : World) :
  let i := activeThreadId (state w) in
  let name := activeAgent (state w) in
  let found := find_thread i (threads (state w)) in
  let before := match found with Some t => messages t | None => [] end in
  let userMsg := user_message prompt (clock (clock_reads w)) in
  let agentMsg := agent_message name reply (clock (S (clock_reads w))) in
  let body :=
    stringify (log_entry i name prompt reply None
                 (clock (S (S (clock_reads w))))) in
  chat (AgentChat.chat_request prompt (before ++ [userMsg]) name)
  = Return reply ->
  handleSend clock chat post_log prompt false w
  = (Return tt,
     {| browser :=
          snd (saveMessagesToThread i (before ++ [userMsg; agentMsg])
                 (after_log (post_log body) (browser w)));
        state :=
          {| activeAgent := name;
             activeThreadId := i;
             threads := replace_thread i (before ++ [userMsg; agentMsg])
                          (threads (state w));
             loading := false |};
        clock_reads := S (S (S (clock_reads w)));
        chat_posts :=
          chat_posts w
          ++ [AgentChat.chat_request prompt (before ++ [userMsg]) name];
        log_posts := log_posts w ++ [body];
        alerts := alerts w |}).
Proof.
  intros i name found before userMsg agentMsg body Hchat.
  subst i name found before userMsg agentMsg body.
  destruct w as [b [aa ai ts ld] r cp lp al].
  cbn [state activeThreadId activeAgent threads clock_reads browser
       chat_posts log_posts alerts] in *.
  unfold handleSend, bind at 1, get_state.
  cbn [state activeThreadId activeAgent threads].
  unfold bind at 1, setLoading at 1.
  cbn [with_state browser state clock_reads chat_posts log_posts alerts
       activeAgent activeThreadId threads loading].
  unfold bind at 1. cbn [handleSend_rounds]. unfold bind at 1.
  rewrite round_returns with (reply := reply);
    cbn [with_state browser state clock_reads chat_posts log_posts alerts
         activeAgent activeThreadId threads loading];
    [| exact Hchat].
  reflexivity.
Qed.

(** X12. A send that the gateway answers.  When the active thread is
    one of the threads of the state, [handleSend] returns, the page
    shows that thread with the user's message and the agent's reply
    added at its end, [loading] is off again, the other threads are as
    before, one request has gone to the gateway and one record to the
    memory log; and when the store takes the new text, reading the
    thread back from [localStorage] gives exactly what the page
    shows. *)
Theorem answered_send_is_shown_and_stored prompt reply (th : Thread)
    (w : World) :
  let i := activeThreadId (state w) in
  let name := activeAgent (state w) in
  let userMsg := user_message prompt (clock (clock_reads w)) in
  let agentMsg := agent_message name reply (clock (S (clock_reads w))) in
  let all := messages th ++ [userMsg; agentMsg] in
  let w' := snd (handleSend clock chat post_log prompt false w) in
  find_thread i (threads (state w)) = Some th ->
  chat (AgentChat.chat_request prompt (messages th ++ [userMsg]) name)
  = Return reply ->
  fst (handleSend clock chat post_log prompt false w) = Return tt
  /\ shown w' i = Some all
  /\ loading (state w') = false
  /\ (forall j, j <> i -> shown w' j = shown w j)
  /\ chat_posts w'
     = chat_posts w
       ++ [AgentChat.chat_request prompt (messages th ++ [userMsg]) name]
  /\ length (log_posts w') = S (length (log_posts w))
  /\ (startsWith i THREAD_PREFIX = true ->
      Browser.fits i (stringify (Messages_toJSON all))
        (Browser.localStorage (browser w)) = true ->
      fst (getMessagesForThread i (browser w'))
      = Return (Messages_toJSON all)).
Proof.
  intros i name userMsg agentMsg all w' Hfind Hchat.
  subst i name userMsg agentMsg all w'.
  rewrite (single_send_returns prompt reply w);
    rewrite Hfind; [| exact Hchat].
  unfold shown.
  cbn [fst snd browser state clock_reads chat_posts log_posts
       alerts activeAgent activeThreadId threads loading].
  split; [reflexivity |].
  split; [now rewrite (find_replace _ _ _ _ Hfind) |].
  split; [reflexivity |].
  split; [intros j Hj; now rewrite find_replace_other |].
  split; [reflexivity |].
  split; [rewrite length_app; cbn; lia |].
  intros Hp Hfit.
  apply rejected_id_prefix in Hp.
  rewrite (getMessagesForThread_stored _
             (Messages_toJSON
                (messages th
                 ++ [user_message prompt (clock (clock_reads w));
                     agent_message (activeAgent (state w)) reply
                       (clock (S (clock_reads w)))])));
    [reflexivity | apply Messages_toJSON_plain | assumption |].
  rewrite save_storage, after_log_storage.
  unfold stored_after. rewrite Hp, Hfit. cbn [Browser.items].
  apply lookup_insert_eq.
Qed.

(** A single send whose chat call fails with [e]. *)
Lemma single_send_throws prompt e (w : World) :
  let i := activeThreadId (state w) in
  let name := activeAgent (state w) in
  let found := find_thread i (threads (state w)) in
  let before := match found with Some t => messages t | None => [] end in
  let userMsg := user_message prompt (clock (clock_reads w)) in
  chat (AgentChat.chat_request prompt (before ++ [userMsg]) name)
  = Throw e ->
  handleSend clock chat post_log prompt false w
  = (Throw e,
     {| browser := browser w;
        state :=
          {| activeAgent := name;
             activeThreadId := i;
             threads := pushed found i [userMsg] (threads (state w));
             loading := true |};
        clock_reads := S (clock_reads w);
        chat_posts :=
          chat_posts w
          ++ [AgentChat.chat_request prompt (before ++ [userMsg]) name];
        log_posts := log_posts w;
        alerts := alerts w |}).
Proof.
  intros i name found before userMsg Hchat.
  subst i name found before userMsg.
  destruct w as [b [aa ai ts ld] r cp lp al].
  cbn [state activeThreadId activeAgent threads clock_reads browser
       chat_posts log_posts alerts] in *.
  unfold handleSend, bind at 1, get_state.
  cbn [state activeThreadId activeAgent threads].
  unfold bind at 1, setLoading at 1.
  cbn [with_state browser state clock_reads chat_posts log_posts alerts
       activeAgent activeThreadId threads loading].
  unfold bind at 1. cbn [handleSend_rounds]. unfold bind at 1.
  rewrite round_throws with (e := e);
    cbn [with_state browser state clock_reads chat_posts log_posts alerts
         activeAgent activeThreadId threads loading];
    [| exact Hchat].
  reflexivity.
Qed.

(** X13. A send that the gateway does not answer.  [handleSend] has
    no [catch] and no [finally]: the failure of the chat call reaches
    the caller, [loading] stays on, and the user's message, pushed
    onto the thread the state shares before the call, is on the page
    while neither the store nor the memory log has heard of it. *)
Theorem failed_send_is_stuck prompt e (th : Thread) (w : World) :
  let i := activeThreadId (state w) in
  let userMsg := user_message prompt (clock (clock_reads w)) in
  let w' := snd (handleSend clock chat post_log prompt false w) in
  find_thread i (threads (state w)) = Some th ->
  chat (AgentChat.chat_request prompt (messages th ++ [userMsg])
          (activeAgent (state w)))
  = Throw e ->
  fst (handleSend clock chat post_log prompt false w) = Throw e
  /\ loading (state w') = true
  /\ shown w' i = Some (messages th ++ [userMsg])
  /\ browser w' = browser w
  /\ log_posts w' = log_posts w.
Proof.
  intros i userMsg w' Hfind Hchat. subst i userMsg w'.
  rewrite (single_send_throws prompt e w);
    rewrite Hfind; [| exact Hchat].
  unfold shown.
  cbn [fst snd browser state clock_reads chat_posts log_posts
       alerts activeAgent activeThreadId threads loading pushed fold_left].
  split; [reflexivity |]. split; [reflexivity |].
  split; [| split; reflexivity].
  rewrite (find_push_first _ _ _ _ Hfind). reflexivity.
Qed.

(** X14. A send with no thread to put it in.  When no thread of the
    state has the active id, as on the page before any thread exists,
    the prompt still goes to the gateway, alone in its context, and
    the exchange to the memory log; but the state's threads are left
    as they were, and with an id that [saveMessagesToThread] refuses
    the store is too: the exchange is neither shown nor kept. *)
Theorem send_without_thread_is_lost prompt reply (w : World) :
  let i := activeThreadId (state w) in
  let userMsg := user_message prompt (clock (clock_reads w)) in
  let w' := snd (handleSend clock chat post_log prompt false w) in
  find_thread i (threads (state w)) = None ->
  chat (AgentChat.chat_request prompt [userMsg] (activeAgent (state w)))
  = Return reply ->
  fst (handleSend clock chat post_log prompt false w) = Return tt
  /\ threads (state w') = threads (state w)
  /\ chat_posts w'
     = chat_posts w
       ++ [AgentChat.chat_request prompt [userMsg] (activeAgent (state w))]
  /\ length (log_posts w') = S (length (log_posts w))
  /\ (rejected_id i = true ->
      Browser.localStorage (browser w') = Browser.localStorage (browser w)).
Proof.
  intros i userMsg w' Hfind Hchat. subst i userMsg w'.
  rewrite (single_send_returns prompt reply w);
    rewrite Hfind; [| exact Hchat].
  cbn [fst snd browser state clock_reads chat_posts log_posts
       alerts activeAgent activeThreadId threads loading app].
  split; [reflexivity |].
  split; [now apply replace_absent |].
  split; [reflexivity |].
  split; [rewrite length_app; cbn; lia |].
  intros Hrej. rewrite save_storage, after_log_storage.
  unfold stored_after. now rewrite Hrej.
Qed.

(** **** Broadcast *)

(** The rounds of [handleSend] for a list of agents, when the gateway
    answers every request. *)
Lemma rounds_return prompt i (agents : list jsstring) :
  (forall b, exists d, chat b = Return d) ->
  forall (nt : list Thread) (w : World) (th : Thread),
    find_thread i nt = Some th ->
    exists nt' w' added posts,
      handleSend_rounds clock chat post_log prompt i agents nt w
      = (Return nt', w')
      /\ option_map messages (find_thread i nt')
         = Some (messages th ++ added)
      /\ (forall j, j <> i -> find_thread j nt' = find_thread j nt)
      /\ map (fun m => (role m, agentName m)) added
         = flat_map (fun a => [(user, None); (agent, Some a)]) agents
      /\ Forall (fun m => role m = user -> content m = prompt) added
      /\ chat_posts w' = chat_posts w ++ posts
      /\ map ChatWithPremier.agentName posts = map Some agents
      /\ map (fun b => length (ChatWithPremier.context_or_empty
                                 (ChatWithPremier.context b))) posts
         = map (fun k => length (messages th) + 2 * k + 1)
               (seq 0 (length agents))
      /\ length (log_posts w') = length (log_posts w) + length agents
      /\ activeAgent (state w') = activeAgent (state w)
      /\ activeThreadId (state w') = activeThreadId (state w)
      /\ loading (state w') = loading (state w).
Proof.
  intros Hchat. induction agents as [|a rest IH]; intros nt w th Hfind.
  - exists nt, w, [], []. cbn [handleSend_rounds ret].
    rewrite Hfind, !app_nil_r. cbn. repeat split; auto.
  - cbn [handleSend_rounds]. unfold bind at 1.
    destruct (Hchat (AgentChat.chat_request prompt
                       (messages th
                        ++ [user_message prompt (clock (clock_reads w))]) a))
      as [d Hd].
    rewrite round_returns with (reply := d); rewrite Hfind; [| exact Hd].
    set (u := user_message prompt (clock (clock_reads w))) in *.
    set (am := agent_message a d (clock (S (clock_reads w)))).
    match goal with
    | |- context [handleSend_rounds _ _ _ _ _ _ ?n ?v] =>
        destruct (IH n v {| id := i; messages := messages th ++ [u; am] |}
                    (find_replace _ _ _ _ Hfind))
          as (nt' & w' & added & posts & E & Hshown & Hother & Hroles
              & Hprompt & Hposts & Hnames & Hctx & Hlogs & Ha & Hi & Hl)
    end.
    exists nt', w', ([u; am] ++ added),
      (AgentChat.chat_request prompt (messages th ++ [u]) a :: posts).
    rewrite E.
    cbn [messages state browser clock_reads chat_posts log_posts alerts
         activeAgent activeThreadId threads loading] in *.
    split; [reflexivity |].
    split; [rewrite Hshown; now rewrite <- !app_assoc |].
    split; [intros j Hj; rewrite Hother by assumption;
            now apply find_replace_other |].
    split; [cbn [map flat_map app]; now rewrite Hroles |].
    split.
    { apply Forall_app. split; [| assumption].
      repeat constructor; cbn; congruence. }
    split; [rewrite Hposts; now rewrite <- app_assoc |].
    split; [cbn [map]; now rewrite Hnames |].
    split.
    { cbn [map length seq AgentChat.chat_request ChatWithPremier.context
           ChatWithPremier.context_or_empty].
      f_equal.
      - unfold AgentChat.context_of. rewrite length_map, length_app.
        cbn. lia.
      - rewrite Hctx, <- seq_shift, map_map. apply map_ext. intros k.
        rewrite length_app. cbn. lia. }
    split; [rewrite Hlogs, length_app; cbn; lia |].
    auto.
Qed.

(** [handleSend] around its rounds. *)
Lemma handleSend_rounds_eq prompt (broadcast : bool) (w : World) :
  handleSend clock chat post_log prompt broadcast w
  = match
      handleSend_rounds clock chat post_log prompt
        (activeThreadId (state w))
        (if broadcast then AgentChat.AGENTS else [activeAgent (state w)])
        (threads (state w))
        (with_state
           {| activeAgent := activeAgent (state w);
              activeThreadId := activeThreadId (state w);
              threads := threads (state w);
              loading := true |} w)
    with
    | (Return nt, w1) =>
        (Return tt,
         with_state
           {| activeAgent := activeAgent (state w1);
              activeThreadId := activeThreadId (state w1);
              threads := nt;
              loading := false |} w1)
    | (Throw e, w1) => (Throw e, w1)
    end.
Proof.
  unfold handleSend, bind, get_state, setLoading, setThreads.
  destruct (handleSend_rounds _ _ _ _ _ _ _ _) as [[nt | e] w1];
    reflexivity.
Qed.

(** X15. A broadcast that the gateway answers.  [handleSend] asks the
    five agents one after the other, in the order of [AGENTS]; the
    thread gains, for each agent, the prompt as a user's message and
    then that agent's reply, so the prompt is kept five times; and the
    context sent for an agent holds everything the thread has gained
    from the agents before it: two entries more at each request. *)
Theorem broadcast_asks_every_agent prompt (th : Thread) (w : World) :
  let i := activeThreadId (state w) in
  let w' := snd (handleSend clock chat post_log prompt true w) in
  (forall b, exists d, chat b = Return d) ->
  find_thread i (threads (state w)) = Some th ->
  exists added posts,
    fst (handleSend clock chat post_log prompt true w) = Return tt
    /\ shown w' i = Some (messages th ++ added)
    /\ map (fun m => (role m, agentName m)) added
       = flat_map (fun a => [(user, None); (agent, Some a)])
           [js "Premier"; js "Frontinus"; js "Lucius"; js "Implementus";
            js "Archivus"]
    /\ Forall (fun m => role m = user -> content m = prompt) added
    /\ chat_posts w' = chat_posts w ++ posts
    /\ map ChatWithPremier.agentName posts
       = map Some [js "Premier"; js "Frontinus"; js "Lucius";
                   js "Implementus"; js "Archivus"]
    /\ map (fun b => length (ChatWithPremier.context_or_empty
                               (ChatWithPremier.context b))) posts
       = map (fun k => length (messages th) + 2 * k + 1) [0; 1; 2; 3; 4]
    /\ length (log_posts w') = length (log_posts w) + 5
    /\ loading (state w') = false.
Proof.
  intros i w' Hchat Hfind. subst i w'.
  rewrite handleSend_rounds_eq.
  destruct (rounds_return prompt (activeThreadId (state w)) AgentChat.AGENTS
              Hchat (threads (state w))
              (with_state
                 {| activeAgent := activeAgent (state w);
                    activeThreadId := activeThreadId (state w);
                    threads := threads (state w);
                    loading := true |} w)
              th Hfind)
    as (nt' & w' & added & posts & E & Hshown & Hother & Hroles
        & Hprompt & Hposts & Hnames & Hctx & Hlogs & Ha & Hi & Hl).
  rewrite E. exists added, posts. unfold shown.
  cbn [fst snd with_state browser state clock_reads chat_posts log_posts
       alerts activeAgent activeThreadId threads loading] in *.
  repeat split;
    first [assumption | reflexivity | exact Hctx | exact Hlogs].
Qed.

(** **** The other handlers *)

(** X16. [handleCreateThread] either makes the new thread the active
    one, first among the threads and shown empty, with the empty list
    stored under its id; or, when the store has no room for it, fails
    with [QuotaExceededError] and leaves state and browser alone. *)
Theorem create_thread_opens_it_or_fails (w : World) :
  let newId :=
    THREAD_PREFIX ++ Number_toString (ms (clock (clock_reads w))) in
  let w' := snd (handleCreateThread clock w) in
  if Browser.fits newId (stringify (JArr []))
       (Browser.localStorage (browser w))
  then fst (handleCreateThread clock w) = Return tt
       /\ activeThreadId (state w') = newId
       /\ threads (state w')
          = {| id := newId; messages := [] |} :: threads (state w)
       /\ shown w' newId = Some []
       /\ fst (getMessagesForThread newId (browser w')) = Return (JArr [])
  else fst (handleCreateThread clock w) = Throw QuotaExceededError
       /\ state w' = state w
       /\ browser w' = browser w.
Proof.
  intros newId w'. subst newId w'.
  destruct w as [b [aa ai ts ld] r cp lp al].
  unfold handleCreateThread, bind, get_state, Date_now, in_browser,
    createNewThreadId, Browser.localStorage_setItem, setThreads,
    setActiveThreadId, shown, find_thread.
  cbn [browser state clock_reads chat_posts log_posts alerts with_state
       with_browser activeAgent activeThreadId threads loading bind].
  unfold bind.
  destruct (Browser.fits _ _ _) eqn:Hfit;
    cbn [fst snd ret browser state with_state with_browser threads
         activeThreadId find id];
    [| repeat split].
  rewrite eqb_refl. cbn [option_map messages].
  repeat split.
  rewrite (getMessagesForThread_stored _ (JArr [])); [reflexivity | | |].
  - reflexivity.
  - apply rejected_id_prefix.
    exact (startsWith_app THREAD_PREFIX (Number_toString (ms (clock r)))).
  - cbn [Browser.localStorage Browser.items]. apply lookup_insert_eq.
Qed.

(** X17. [handleAnalysis] does nothing when no thread of the state has
    the active id.  Otherwise it posts one record to the memory log:
    the text of the object with the thread id, the active agent's
    name, an empty prompt, an empty response, the summary of the
    thread's exchanges as a string and the current time; and then it
    announces that the analysis was logged, also when the post has
    failed: the failure only goes to the console. *)
Theorem analysis_is_posted_and_announced (w : World) :
  let i := activeThreadId (state w) in
  let w' := snd (handleAnalysis clock post_log w) in
  match find_thread i (threads (state w)) with
  | None => handleAnalysis clock post_log w = (Return tt, w)
  | Some th =>
      let body :=
        stringify
          (JObj [(js "threadId", JStr i);
                 (js "agentName", JStr (activeAgent (state w)));
                 (js "prompt", JStr []);
                 (js "response", JStr []);
                 (js "aslSummary",
                  JStr (AslParser.runIntrospectiveAnalysis
                          (analysis_pairs (messages th))));
                 (js "timestamp",
                  JNum (Dyadic (ms (clock (clock_reads w))) 0))]) in
      fst (handleAnalysis clock post_log w) = Return tt
      /\ log_posts w' = log_posts w ++ [body]
      /\ parse body
         = Some (analysis_record i (activeAgent (state w))
                   (AslParser.runIntrospectiveAnalysis
                      (analysis_pairs (messages th)))
                   (clock (clock_reads w)))
      /\ alerts w'
         = alerts w ++ [js "Introspective analysis completed and logged."]
      /\ state w' = state w
      /\ browser w' = after_log (post_log body) (browser w)
  end.
Proof.
  intros i w'. subst i w'.
  assert (E : handleAnalysis clock post_log w
              = match find_thread (activeThreadId (state w))
                        (threads (state w)) with
                | None => (Return tt, w)
                | Some th =>
                    alert (js "Introspective analysis completed and logged.")
                      (snd (logMemory clock post_log [] []
                              (Some (AslParser.runIntrospectiveAnalysis
                                       (analysis_pairs (messages th))))
                              (activeThreadId (state w))
                              (activeAgent (state w)) w))
                end).
  { unfold handleAnalysis, bind, get_state.
    destruct (find_thread _ _) as [th|]; [| reflexivity].
    now rewrite logMemory_runs. }
  rewrite E. destruct (find_thread _ _) as [th|]; [| reflexivity].
  rewrite logMemory_runs. unfold alert.
  cbn [fst snd browser state clock_reads chat_posts log_posts alerts].
  repeat split.
  apply (parse_stringify
           (log_entry (activeThreadId (state w)) (activeAgent (state w))
              [] [] (Some (AslParser.runIntrospectiveAnalysis
                             (analysis_pairs (messages th))))
              (clock (clock_reads w)))).
  apply log_entry_plain.
Qed.

Lemma trim_blank (s : jsstring) : truthy (trim s) = negb (blank s).
Proof.
  unfold trim. induction s as [|c s IH]; [reflexivity |].
  cbn [trimStart blank]. destruct (is_space c) eqn:Hc; [exact IH |].
  cbn [trimEnd andb negb]. rewrite Hc.
  now destruct (trimEnd s).
Qed.

(** X18. [handleSubmit] sends nothing for a prompt that is empty or all
    white space: the page is as before.  Any other prompt goes to
    [handleSend] as it was typed, white space around it included, for
    the active agent alone; and [handleSubmit] itself never fails,
    since the send is not awaited. *)
Theorem blank_prompt_is_not_sent prompt (w : World) :
  handleSubmit clock chat post_log prompt w
  = (Return tt,
     if blank prompt then w
     else snd (handleSend clock chat post_log prompt false w)).
Proof.
  unfold handleSubmit. rewrite trim_blank.
  destruct (blank prompt); reflexivity.
Qed.

(** X19. [logMemory] never fails: it reads the clock once, posts one
    record, and when the post fails writes the failure on the console;
    a post that succeeds leaves the browser untouched. *)
Theorem logMemory_never_throws prompt response aslSummary threadId name
    (w : World) :
  let body :=
    stringify (log_entry threadId name prompt response aslSummary
                 (clock (clock_reads w))) in
  let w' := snd (logMemory clock post_log prompt response aslSummary
                   threadId name w) in
  fst (logMemory clock post_log prompt response aslSummary threadId name w)
  = Return tt
  /\ log_posts w' = log_posts w ++ [body]
  /\ clock_reads w' = S (clock_reads w)
  /\ state w' = state w
  /\ match post_log body with
     | Return _ => browser w' = browser w
     | Throw e =>
         Browser.localStorage (browser w') = Browser.localStorage (browser w)
         /\ Browser.console (browser w')
            = Browser.console (browser w)
              ++ [(js "Failed to log memory:", e)]
     end.
Proof.
  intros body w'. subst body w'. rewrite logMemory_runs.
  cbn [fst snd browser state clock_reads chat_posts log_posts alerts].
  repeat split. destruct (post_log _); repeat split.
Qed.

End Network.

Lemma answered_send_is_shown_and_stored_witness :
  shown (snd (handleSend Samples.ticking Samples.welcoming Samples.logging
                (js "hello") false Samples.page))
        Samples.thread_id
  = Some [user_message (js "hello") (time_value 1717000000000);
          agent_message (js "Premier") (js "welcome")
            (time_value 1717000000001)].
Proof.
  pose proof (answered_send_is_shown_and_stored
                Samples.ticking Samples.welcoming Samples.logging
                (js "hello") (js "welcome")
                {| id := Samples.thread_id; messages := [] |}
                Samples.page eq_refl eq_refl) as (_ & H & _).
  exact H.
Defined.

Lemma failed_send_is_stuck_witness :
  fst (handleSend Samples.ticking Samples.unreachable Samples.logging
         (js "hello") false Samples.page)
  = Throw (ProviderError (js "Failed to fetch"))
  /\ loading (state (snd (handleSend Samples.ticking Samples.unreachable
                            Samples.logging (js "hello") false Samples.page)))
     = true.
Proof.
  pose proof (failed_send_is_stuck
                Samples.ticking Samples.unreachable Samples.logging
                (js "hello") (ProviderError (js "Failed to fetch"))
                {| id := Samples.thread_id; messages := [] |}
                Samples.page eq_refl eq_refl) as (H1 & H2 & _).
  split; [exact H1 | exact H2].
Defined.

Lemma send_without_thread_is_lost_witness :
  threads (state (snd (handleSend Samples.ticking Samples.welcoming
                         Samples.logging (js "hello") false
                         Samples.first_page)))
  = []
  /\ Browser.localStorage
       (browser (snd (handleSend Samples.ticking Samples.welcoming
                        Samples.logging (js "hello") false
                        Samples.first_page)))
     = Browser.localStorage (Samples.browser 1000).
Proof.
  pose proof (send_without_thread_is_lost
                Samples.ticking Samples.welcoming Samples.logging
                (js "hello") (js "welcome") Samples.first_page
                eq_refl eq_refl)
    as (_ & H2 & _ & _ & H5).
  split; [exact H2 | exact (H5 eq_refl)].
Defined.

Lemma broadcast_asks_every_agent_witness :
  exists added posts,
    fst (handleSend Samples.ticking Samples.welcoming Samples.logging
           (js "hello") true Samples.page) = Return tt
    /\ shown (snd (handleSend Samples.ticking Samples.welcoming
                     Samples.logging (js "hello") true Samples.page))
         Samples.thread_id
       = Some ([] ++ added)
    /\ map (fun m => (role m, agentName m)) added
       = flat_map (fun a => [(user, None); (agent, Some a)]) AgentChat.AGENTS
    /\ Forall (fun m => role m = user -> content m = js "hello") added
    /\ [] ++ posts
       = chat_posts (snd (handleSend Samples.ticking Samples.welcoming
                            Samples.logging (js "hello") true Samples.page)).
Proof.
  destruct (broadcast_asks_every_agent
              Samples.ticking Samples.welcoming Samples.logging
              (js "hello") {| id := Samples.thread_id; messages := [] |}
              Samples.page
              (fun b => ex_intro _ (js "welcome") eq_refl) eq_refl)
    as (added & posts & H1 & H2 & H3 & H4 & H5 & _).
  exists added, posts. repeat split; try assumption. now symmetry.
Defined.

End ChatPageFacts.

(** * More on the gateway, the memory log and the summarizer *)

Module GatewayFacts.
Import JsString JsStringFacts Json JsonSpec JsonFacts Http ThreadManager.
Import ChatWithPremier ChatSpec ChatFacts.

(** X20. The prompt reaches the provider twice.  [handleSend] pushes
    the user's message onto the thread before it builds the context,
    and the gateway appends the prompt once more: the message array of
    every request sent for a send is the preamble, the context of the
    thread as it was, and then the prompt as a user message two
    times. *)
Theorem prompt_reaches_provider_twice provider text (before : list Message)
    (t : TimeValue) (name : jsstring) (w : World) :
  let req :=
    AgentChat.chat_request text
      (before ++ [ChatPageSpec.user_message text t]) name in
  (exists n, n <= 3
     /\ sent (snd (POST provider req w))
        = sent w ++ repeat (request_for req) n
     /\ (OPENAI_API_KEY w <> None -> 1 <= n))
  /\ messages (request_for req)
     = [system_preamble]
       ++ AgentChat.context_of before
       ++ [user_message text; user_message text].
Proof.
  intros req. subst req. split; [apply POST_sent |].
  cbn [request_for messages context prompt AgentChat.chat_request
       context_or_empty].
  unfold AgentChat.context_of. rewrite map_app. cbn [map app].
  now rewrite <- app_assoc.
Qed.

(** X21. The gateway passes on what the client's call comes to.
    Without an API key nothing is sent and the handler fails with the
    client's [OpenAIError].  With a key, the client sends the request,
    and sends it again, twice at most, while the failure is one to try
    again.  When the last of these attempts is answered, the response
    has status 200 and carries the text of the first choice, or the
    empty string when there is no choice, no message or no content;
    further choices are not looked at.  When it fails, the failure is
    the handler's: nothing in the handler catches it. *)
Theorem gateway_passes_on_the_provider provider (req : RequestBody)
    (w : World) :
  let r := request_of (prompt req) (context_or_empty (context req)) in
  let a0 := provider (length (sent w)) r in
  let a1 := provider (S (length (sent w))) r in
  let a2 := provider (S (S (length (sent w)))) r in
  match OPENAI_API_KEY w with
  | None => POST provider req w = (Throw OpenAIError, w)
  | Some _ =>
      sent (snd (POST provider req w))
      = sent w ++ repeat r (requests_sent a0 a1)
      /\ match last_attempt a0 a1 a2 with
         | Failed _ e => fst (POST provider req w) = Throw e
         | Answered response =>
             exists text,
               fst (POST provider req w)
               = Return {| status := 200;
                           body := JObj [(js "content", JStr text)] |}
               /\ answer_text response text
         end
  end.
Proof.
  intros r a0 a1 a2. subst r a0 a1 a2.
  rewrite POST_runs, request_for_of.
  destruct (OPENAI_API_KEY w) as [key|]; [| reflexivity].
  split; [reflexivity |]. cbn [fst].
  destruct (last_attempt _ _ _) as [response | retry e]; [| reflexivity].
  exists (first_choice_text response). split; [reflexivity |].
  unfold answer_text, first_choice_text.
  destruct (choices response) as [|c rest]; [reflexivity |].
  split.
  - intros t ->. reflexivity.
  - intros [-> | ->]; reflexivity.
Qed.

Lemma gateway_passes_on_the_provider_witness :
  (fst (POST Samples.answering
          {| prompt := js "hello"; context := None; agentName := None |}
          Samples.gateway)
   = Return {| status := 200;
               body := JObj [(js "content", JStr (js "welcome"))] |}
   /\ sent (snd (POST Samples.answering
                   {| prompt := js "hello"; context := None;
                      agentName := None |} Samples.gateway))
      = [request_of (js "hello") []])
  /\ (fst (POST Samples.overloaded
             {| prompt := js "hello"; context := None; agentName := None |}
             Samples.gateway)
      = Throw (ProviderError (js "503 Service Unavailable"))
      /\ sent (snd (POST Samples.overloaded
                      {| prompt := js "hello"; context := None;
                         agentName := None |} Samples.gateway))
         = [request_of (js "hello") []; request_of (js "hello") [];
            request_of (js "hello") []])
  /\ (fst (POST Samples.refusing
             {| prompt := js "hello"; context := None; agentName := None |}
             Samples.gateway)
      = Throw (ProviderError (js "401 Unauthorized"))
      /\ sent (snd (POST Samples.refusing
                      {| prompt := js "hello"; context := None;
                         agentName := None |} Samples.gateway))
         = [request_of (js "hello") []])
  /\ POST Samples.answering
       {| prompt := js "hello"; context := None; agentName := None |}
       {| OPENAI_API_KEY := None; sent := [] |}
     = (Throw OpenAIError, {| OPENAI_API_KEY := None; sent := [] |}).
Proof.
  pose proof (gateway_passes_on_the_provider Samples.answering
                {| prompt := js "hello"; context := None; agentName := None |}
                Samples.gateway) as (H1 & text & H2 & H3).
  pose proof (gateway_passes_on_the_provider Samples.overloaded
                {| prompt := js "hello"; context := None; agentName := None |}
                Samples.gateway) as (H4 & H5).
  pose proof (gateway_passes_on_the_provider Samples.refusing
                {| prompt := js "hello"; context := None; agentName := None |}
                Samples.gateway) as (H6 & H7).
  pose proof (gateway_passes_on_the_provider Samples.answering
                {| prompt := js "hello"; context := None; agentName := None |}
                {| OPENAI_API_KEY := None; sent := [] |}) as H8.
  cbn in H3. destruct H3 as [H3 _]. rewrite (H3 _ eq_refl) in H2.
  repeat split; assumption.
Defined.

End GatewayFacts.

Module MemoryLogMoreFacts.
Import JsString JsStringFacts JsNumber Json JsonSpec JsonFacts.
Import Http Node MemoryLog MemoryLogSpec MemoryLogFacts.

(** X22. A body that is not JSON is refused before anything is
    touched: [POST] fails with the [SyntaxError] of [request.json()],
    no directory is made and no file is written. *)
Theorem malformed_log_body_changes_nothing text (now : Date) (w : World) :
  parse text = None ->
  POST text now w = (Throw SyntaxError, w).
Proof.
  intros H. unfold POST, bind, JSON_parse. now rewrite H.
Qed.

Lemma malformed_log_body_changes_nothing_witness :
  POST (js "{status: Logged}") Samples.june_7 Samples.server
  = (Throw SyntaxError, Samples.server).
Proof.
  apply (malformed_log_body_changes_nothing (js "{status: Logged}")
           Samples.june_7 Samples.server).
  vm_compute. reflexivity.
Defined.

(** X23. What [logMemory] posts is what the log file gets.  For every
    record [logMemory] builds, the memory log endpoint accepts its
    text, answers [{ status: "Logged" }] and appends that very text,
    followed by a newline, to the log file of the day; parsing the
    text gives the record back, with [aslSummary] absent when it was
    [undefined]. *)
Theorem posted_record_is_the_line_written threadId name prompt response
    aslSummary timestamp (now : Date) (w : World) :
  let record :=
    ChatPage.log_entry threadId name prompt response aslSummary timestamp in
  let body := stringify record in
  parse body = Some record
  /\ fst (POST body now w) = Return logged
  /\ file_text (snd (POST body now w)) (log_path w now)
     = file_text w (log_path w now) ++ body ++ [10%N].
Proof.
  intros record body.
  assert (H : parse body = Some record)
    by apply parse_stringify, ChatPageFacts.log_entry_plain.
  split; [exact H |].
  rewrite (POST_parsed _ _ _ _ H). split; [reflexivity |].
  unfold file_text at 1. cbn [snd after_post fs files].
  now rewrite lookup_insert_eq.
Qed.

Lemma log_entry_sample :
  stringify (ChatPage.log_entry Samples.thread_id (js "Premier")
               (js "hello") (js "welcome") None
               (ThreadManager.time_value 1717000000900))
  = Samples.json_text
      "{'threadId':'aeth_chat_thread_1717000000000','agentName':'Premier','prompt':'hello','response':'welcome','timestamp':1717000000900}".
Proof. vm_compute. reflexivity. Qed.

End MemoryLogMoreFacts.

Module AslParserMoreFacts.
Import JsString JsStringFacts Json JsonSpec JsonFacts.
Import AslParser AslParserSpec AslParserFacts.

Lemma summary_entry_excerpts (p q : Pair) :
  summary_entry p = summary_entry q <-> same_excerpts p q.
Proof.
  unfold summary_entry, same_excerpts. split.
  - intros H.
    pose proof (f_equal (fun v => match v with
                                  | JObj ((_, JStr s) :: _) => s
                                  | _ => []
                                  end) H) as H1.
    pose proof (f_equal (fun v => match v with
                                  | JObj (_ :: (_, JStr s) :: _) => s
                                  | _ => []
                                  end) H) as H2.
    cbv beta iota in H1, H2.
    apply app_inv_head, app_inv_tail in H1.
    apply app_inv_head, app_inv_tail in H2. auto.
  - intros [-> ->]. reflexivity.
Qed.

(** X24. The summary keeps the first 50 code units of each prompt and
    response and nothing else: two threads get the same summary
    exactly when they have as many pairs and agree, pair by pair, on
    these excerpts. *)
Theorem summary_keeps_only_excerpts (t1 t2 : list Pair) :
  runIntrospectiveAnalysis t1 = runIntrospectiveAnalysis t2
  <-> Forall2 same_excerpts t1 t2.
Proof.
  unfold runIntrospectiveAnalysis. split.
  - intros H. apply stringify_inj in H; try apply summary_plain.
    injection H as H.
    revert t2 H. induction t1 as [|p t1 IH]; intros [|q t2] H;
      cbn [map] in H; try discriminate; constructor.
    + apply summary_entry_excerpts. congruence.
    + apply IH. congruence.
  - intros H. do 2 f_equal.
    induction H as [|p q t1 t2 Hpq _ IH]; [reflexivity |].
    cbn [map]. f_equal; [now apply summary_entry_excerpts | exact IH].
Qed.

End AslParserMoreFacts.

Module ExportFacts.
Import JsString JsStringFacts JsNumber Json JsonSpec JsonFacts.
Import Browser ThreadManager ThreadManagerFacts.

(** X25. The export of a thread that [createNewThreadId] has made is
    headed by the time of its creation: the title is the id without
    its prefix, the decimal digits of [Date.now()]; and the export of
    a thread without messages is that heading alone. *)
Theorem export_is_headed_by_creation_time now threadId
    (messages : list Message) (w : World) :
  fst (createNewThreadId now w) = Return threadId ->
  formatThreadForExport threadId messages
  = js "# Chat Thread Log: " ++ Number_toString now ++ [10; 10]%N
      ++ join ([10%N] ++ js "---" ++ [10; 10]%N) (map export_block messages)
  /\ formatThreadForExport threadId []
     = js "# Chat Thread Log: " ++ Number_toString now ++ [10; 10]%N.
Proof.
  intros H. apply createNewThreadId_id in H as ->.
  unfold formatThreadForExport. rewrite replace_prefix.
  split; [reflexivity |]. cbn [map join].
  unfold nl, LF. now rewrite app_nil_r.
Qed.

Lemma export_is_headed_by_creation_time_witness :
  formatThreadForExport (js "aeth_chat_thread_1717000000000") []
  = js "# Chat Thread Log: 1717000000000" ++ [10; 10]%N.
Proof.
  apply (export_is_headed_by_creation_time 1717000000000
           (js "aeth_chat_thread_1717000000000") [] (Samples.browser 1000)).
  vm_compute. reflexivity.
Defined.

End ExportFacts.
